(** * watchparty: the periodic reconciliation jobs of the server

    A shallow embedding of the timer-driven jobs of [server/server.ts]
    ([init], [release], [minuteMetrics], [freeUnusedRooms], [getAllRooms])
    and of the subscriber reconciliation of [server/syncSubs.ts]
    ([syncSubscribers]), followed by the properties the specification
    states about them.

    Conventions.
    - Instants and durations are JavaScript numbers holding integral
      milliseconds or seconds; they are modelled as [Z].
    - The registry [rooms], a [Map<string, Room>], is an association list in
      insertion order; a well-formed one has pairwise distinct keys.  The
      [Map]s of [syncSubscribers], whose keys may be [undefined], are
      [gmap]s over [Js.value].
    - Code that the two files import (the [Room] class, the Redis, Postgres,
      Stripe and Firebase helpers, Node's [crypto]) is a field of the
      environment class of the module that uses it, or is modelled from the
      specification where a doc comment says so.
    - A job runs in the monad [Js.M]: it threads the state of the process
      and completes normally, by an exception, or by ending the process.
      Whether an outside call throws is decided by the environment.  A job
      runs without other tasks interleaved at its [await]s.
    - [console] output is left out. *)

From Stdlib.Strings Require Byte.
From stdpp Require Import base gmap list strings.

Local Open Scope Z_scope.

(** ** JavaScript values and control *)

Module Js.

(** An optional string as JavaScript has it: [undefined], [null] or a
    string.  The three are pairwise distinct as [Map] keys. *)
Inductive value : Type :=
| undefined
| null
| str (s : string).

#[global] Instance value_eq_dec : EqDecision value.
Proof. solve_decision. Defined.

Definition to_sum (v : value) : (unit + unit) + string :=
  match v with
  | undefined => inl (inl tt)
  | null => inl (inr tt)
  | str s => inr s
  end.

Definition of_sum (x : (unit + unit) + string) : value :=
  match x with
  | inl (inl _) => undefined
  | inl (inr _) => null
  | inr s => str s
  end.

#[global] Instance value_countable : Countable value.
Proof. apply (inj_countable' to_sum of_sum). by intros [ | | s]. Defined.

(** [Boolean(v)]: of these values only a non-empty string is truthy. *)
Definition truthy (v : value) : bool :=
  match v with
  | str s => negb (String.eqb s "")
  | _ => false
  end.

(** String concatenation coerces [undefined] and [null] to their names. *)
Definition toString (v : value) : string :=
  match v with
  | undefined => "undefined"
  | null => "null"
  | str s => s
  end.

(** [a % b] on integers, for [b <> 0]: the sign follows the dividend. *)
Definition rem (a b : Z) : Z := Z.rem a b.

(** How a statement completes: normally, by a thrown exception, or by
    [process.exit]. *)
Inductive completion (A : Type) : Type :=
| Normal (a : A)
| Throw
| Exit (code : Z).
Arguments Normal {A} a.
Arguments Throw {A}.
Arguments Exit {A} code.

(** Computations over the mutable state [S]; the state reached when the
    computation is cut short is kept. *)
Definition M (S A : Type) : Type := S -> completion A * S.

Definition ret {S A} (a : A) : M S A := fun s => (Normal a, s).

Definition bind {S A B} (m : M S A) (k : A -> M S B) : M S B :=
  fun s =>
    match m s with
    | (Normal a, s') => k a s'
    | (Throw, s') => (Throw, s')
    | (Exit code, s') => (Exit code, s')
    end.

Definition throw {S A} : M S A := fun s => (Throw, s).

Definition exit {S A} (code : Z) : M S A := fun s => (Exit code, s).

Definition getState {S} : M S S := fun s => (Normal s, s).

Definition modify {S} (f : S -> S) : M S unit := fun s => (Normal tt, f s).

(** [try { m } catch (e) { handler }] *)
Definition tryCatch {S A} (m handler : M S A) : M S A :=
  fun s =>
    match m s with
    | (Throw, s') => handler s'
    | r => r
    end.

(** The call of an [async] function whose promise is dropped: what the
    function does before it throws is done, the exception is not raised in
    the caller. *)
Definition detached {S} (m : M S unit) : M S unit :=
  fun s =>
    match m s with
    | (Throw, s') => (Normal tt, s')
    | r => r
    end.

(** [for (let i = 0; i < xs.length; i++) body(xs[i])] *)
Fixpoint forEach {S A} (body : A -> M S unit) (xs : list A) : M S unit :=
  match xs with
  | [] => ret tt
  | x :: rest => bind (body x) (fun _ => forEach body rest)
  end.

End Js.

Notation "x <- m ;; k" := (Js.bind m (fun x => k))
  (at level 100, m at next level, right associativity).
Notation "m ;; k" := (Js.bind m (fun _ => k))
  (at level 100, right associativity).

(** A [Map<string, V>]: its entries in insertion order. *)
Module JsMap.

Section Ops.
Context {V : Type}.

Definition has (key : string) (m : list (string * V)) : bool :=
  existsb (fun e => String.eqb e.1 key) m.

Fixpoint get (key : string) (m : list (string * V)) : option V :=
  match m with
  | [] => None
  | e :: rest => if String.eqb e.1 key then Some e.2 else get key rest
  end.

(** [m.set(key, v)]: an existing key keeps its position. *)
Definition set (key : string) (v : V) (m : list (string * V))
  : list (string * V) :=
  if has key m
  then List.map (fun e => if String.eqb e.1 key then (key, v) else e) m
  else m ++ [(key, v)].

Definition delete (key : string) (m : list (string * V))
  : list (string * V) :=
  List.filter (fun e => negb (String.eqb e.1 key)) m.

End Ops.

End JsMap.

(** ** The room registry and its jobs ([server/server.ts]) *)

Module VBrowser.

(** The fields of a vBrowser session that the jobs read. *)
Record t : Type := {
  id : Js.value;
  provider : string;
  large : bool;
  assignTime : option Z;
  creatorUID : Js.value;
  creatorClientID : Js.value;
}.

End VBrowser.

Module PersistentRoom.

(** A row of the table [room]; [data] is [JSON.stringify(row.data)] when
    the column is set. *)
Record t : Type := {
  roomId : string;
  data : option string;
}.

End PersistentRoom.

Module Server.

Import Js.

Record Participant : Type := { isVideoChat : bool }.

(** The fields of a [Room] that the jobs read or write; [lastUpdateTime]
    is [Number(room.lastUpdateTime)]. *)
Record Room : Type := {
  roomId : string;
  roster : list Participant;
  vBrowser : option VBrowser.t;
  lastUpdateTime : Z;
}.

Definition releaseInterval : Z := 5 * 60 * 1000.
Definition releaseBatches : Z := 10.

Inductive Job : Type :=
| job_minuteMetrics
| job_release
| job_freeUnusedRooms.

(** The calls the jobs make on a room, on Redis and on the runtime. *)
Inductive Call : Type :=
| stopVBrowserInternal (room : string)
| addChatMessage (room : string) (cmd : string)
| destroy (room : string)
| redisCount (prefix : string)
| expire (key : string) (seconds : Z)
| zincrby (key : string) (increment : Z) (member : string)
| expireat (key : string) (time : Z)
| listen
| setInterval (job : Job) (ms : Z)
| saveRooms.

(** What the jobs import, and what the outside answers during one run. *)
Class Env : Type := {
  (** [utils/string.hashString] *)
  hashString : string -> Z;
  (** [vm/utils.getSessionLimitSeconds] *)
  getSessionLimitSeconds : bool -> Z;
  (** [utils/time.getStartOfDay()], in milliseconds *)
  getStartOfDay : Z;
  (** [new Room(io, key, data)] *)
  Room_new : string -> option string -> Room;
  (** whether [config.REDIS_URL] and [config.DATABASE_URL] are set, that
      is, whether [redis] and [postgres] are clients *)
  redis : bool;
  postgres : bool;
  (** [Number(config.SHARD)] when [config.SHARD] is set *)
  SHARD : option Z;
  (** the number of apps of [ecosystem.config] that have a shard *)
  numShards : Z;
  (** the rows of [SELECT * from room where roomId SIMILAR TO range], or
      the failure of the query *)
  selectRooms : string -> completion (list PersistentRoom.t);
  (** whether a call throws *)
  throws : Call -> bool;
}.

(** The state of the process that the jobs share; [calls] lists the
    outside calls completed so far. *)
Record Process : Type := {
  rooms : list (string * Room);
  currBatch : Z;
  calls : list Call;
}.

Definition launch : Process :=
  {| rooms := []; currBatch := 0; calls := [] |}.

Definition withRooms (f : list (string * Room) -> list (string * Room))
  (p : Process) : Process :=
  {| rooms := f (rooms p); currBatch := currBatch p; calls := calls p |}.

(** Modelled from the spec: [Room.stopVBrowserInternal] (room.ts is not
    among the sources) releases the session, that is, clears the session
    reference of the room. *)
Definition clearVBrowser (room : Room) : Room :=
  {| roomId := roomId room;
     roster := roster room;
     vBrowser := None;
     lastUpdateTime := lastUpdateTime room |}.

(** What one iteration of a loop over rooms works on: the room object and
    the calls completed so far. *)
Record Eval : Type := { self : Room; trace : list Call }.

Section Jobs.

Context `{Env}.

(** A call on the room of the iteration: it throws on entry, or it
    completes, is recorded, and has its effect on the room. *)
Definition invoke (c : Call) (effect : Room -> Room) : M Eval unit :=
  fun s =>
    if throws c then (Throw, s)
    else (Normal tt, {| self := effect (self s); trace := trace s ++ [c] |}).

(** A call that touches no room. *)
Definition call (c : Call) : M Process unit :=
  fun p =>
    if throws c then (Throw, p)
    else (Normal tt,
          {| rooms := rooms p; currBatch := currBatch p; calls := calls p ++ [c] |}).

(** [redis?.f(...)] *)
Definition redisCall (c : Call) : M Process unit :=
  if redis then call c else ret tt.

(** An iteration on the room object referred to by [key].  An array made
    from [rooms.values()] holds references to the room objects of the
    registry, so what the iteration does to the room is done to the room
    of the registry, also when the iteration throws. *)
Definition withRoom (key : string) (body : M Eval unit) : M Process unit :=
  fun p =>
    match JsMap.get key (rooms p) with
    | None => (Normal tt, p)
    | Some room =>
      let '(c, s) := body {| self := room; trace := calls p |} in
      (c, {| rooms := JsMap.set key (self s) (rooms p);
             currBatch := currBatch p;
             calls := trace s |})
    end.

(** *** [release] *)

(** [ttl && ttl < bound], as a condition. *)
Definition ttlBelow (ttl bound : Z) : bool :=
  negb (ttl =? 0) && (ttl <? bound).

Definition ttlOf (now : Z) (large : bool) (assignTime : Z) : Z :=
  let maxTime := getSessionLimitSeconds large * 1000 in
  let elapsed := now - assignTime in
  maxTime - elapsed.

(** The body of the loop of [release]; both reads of the clock in one
    iteration give [now]. *)
Definition releaseRoom (now : Z) : M Eval unit :=
  s <- getState ;;
  let room := self s in
  match vBrowser room with
  | None => ret tt
  | Some vb =>
    match VBrowser.assignTime vb with
    | None => ret tt
    | Some assignTime =>
      if assignTime =? 0 then ret tt else
      let ttl := ttlOf now (VBrowser.large vb) assignTime in
      let isTimedOut := ttlBelow ttl releaseInterval in
      let isAlmostTimedOut := ttlBelow ttl (releaseInterval * 2) in
      let isRoomEmpty := (length (roster room) =? 0)%nat in
      let isRoomIdle := now - lastUpdateTime room >? 5 * 60 * 1000 in
      if isTimedOut || (isRoomEmpty && isRoomIdle) then
        invoke (stopVBrowserInternal (roomId room)) clearVBrowser ;;
        if isTimedOut then
          invoke (addChatMessage (roomId room) "vBrowserTimeout") (fun r => r) ;;
          invoke (redisCount "vBrowserTerminateTimeout") (fun r => r)
        else if isRoomEmpty then
          invoke (redisCount "vBrowserTerminateEmpty") (fun r => r)
        else ret tt
      else if isAlmostTimedOut then
        invoke (addChatMessage (roomId room) "vBrowserAlmostTimeout") (fun r => r)
      else ret tt
    end
  end.

(** [hashString(room.roomId) % releaseBatches === currBatch] *)
Definition inBatch (batch : Z) (room : Room) : bool :=
  rem (hashString (roomId room)) releaseBatches =? batch.

(** [currBatch = (currBatch + 1) % releaseBatches] *)
Definition nextBatch (batch : Z) : Z := rem (batch + 1) releaseBatches.

Definition release (now : Z) : M Process unit :=
  p <- getState ;;
  let roomArr := List.filter (fun e => inBatch (currBatch p) e.2) (rooms p) in
  forEach (fun e => withRoom e.1 (releaseRoom now)) roomArr ;;
  modify (fun p =>
    {| rooms := rooms p; currBatch := nextBatch (currBatch p); calls := calls p |}).

(** The value of [currBatch] when [n] sweeps have completed since the
    launch. *)
Definition batchAfter (n : nat) : Z := Nat.iter n nextBatch 0.

(** One iteration of the loop of [release] on a room, from an empty
    trace: how it completes, the room and the calls it leaves. *)
Definition runRoom (now : Z) (room : Room) : completion unit * Eval :=
  releaseRoom now {| self := room; trace := [] |}.

Definition evalEntry (now : Z) (e : string * Room) : string * Room :=
  (e.1, self (runRoom now e.2).2).

Definition callsOf (now : Z) (e : string * Room) : list Call :=
  trace (runRoom now e.2).2.

Definition completes (now : Z) (e : string * Room) : Prop :=
  (runRoom now e.2).1 = Normal tt.

(** The registry once the rooms under [keys] have been through the
    iteration. *)
Definition evalKeys (now : Z) (keys : list string) (m : list (string * Room))
  : list (string * Room) :=
  List.map (fun e => if bool_decide (e.1 ∈ keys) then evalEntry now e else e) m.

(** The calls of an iteration that ends the session on its time limit,
    that ends it in an empty idle room, and that warns of the limit. *)
Definition timedOutCalls (room : Room) : list Call :=
  [stopVBrowserInternal (roomId room);
   addChatMessage (roomId room) "vBrowserTimeout";
   redisCount "vBrowserTerminateTimeout"].

Definition emptyIdleCalls (room : Room) : list Call :=
  [stopVBrowserInternal (roomId room); redisCount "vBrowserTerminateEmpty"].

Definition almostTimedOutCalls (room : Room) : list Call :=
  [addChatMessage (roomId room) "vBrowserAlmostTimeout"].

(** *** [minuteMetrics] *)

Definition minuteMetricsInterval : Z := 60 * 1000.

Definition providerLock (vb : VBrowser.t) : string :=
  "lock:" +:+ VBrowser.provider vb +:+ ":" +:+ toString (VBrowser.id vb).

Definition uidLock (vb : VBrowser.t) : string :=
  "vBrowserUIDLock:" +:+ toString (VBrowser.creatorUID vb).

Definition minuteMetricsRoom (room : Room) : M Process unit :=
  match vBrowser room with
  | None => ret tt
  | Some vb =>
    if truthy (VBrowser.id vb) then
      redisCall (expire (providerLock vb) 300) ;;
      redisCall (expire (uidLock vb) 120) ;;
      let expireTime := getStartOfDay / 1000 + 86400 in
      (if truthy (VBrowser.creatorClientID vb) then
         redisCall (zincrby "vBrowserClientIDMinutes" 1
                      (toString (VBrowser.creatorClientID vb))) ;;
         redisCall (expireat "vBrowserClientIDMinutes" expireTime)
       else ret tt) ;;
      (if truthy (VBrowser.creatorUID vb) then
         redisCall (zincrby "vBrowserUIDMinutes" 1
                      (toString (VBrowser.creatorUID vb))) ;;
         redisCall (expireat "vBrowserUIDMinutes" expireTime)
       else ret tt)
    else ret tt
  end.

(** The commands of [minuteMetricsRoom] when Redis is there and no command
    throws. *)
Definition renewalCalls (room : Room) : list Call :=
  match vBrowser room with
  | None => []
  | Some vb =>
    if truthy (VBrowser.id vb) then
      [expire (providerLock vb) 300; expire (uidLock vb) 120]
      ++ (if truthy (VBrowser.creatorClientID vb) then
            [zincrby "vBrowserClientIDMinutes" 1
               (toString (VBrowser.creatorClientID vb));
             expireat "vBrowserClientIDMinutes" (getStartOfDay / 1000 + 86400)]
          else [])
      ++ (if truthy (VBrowser.creatorUID vb) then
            [zincrby "vBrowserUIDMinutes" 1 (toString (VBrowser.creatorUID vb));
             expireat "vBrowserUIDMinutes" (getStartOfDay / 1000 + 86400)]
          else [])
    else []
  end.

Definition minuteMetrics : M Process unit :=
  p <- getState ;;
  forEach (fun e => minuteMetricsRoom e.2) (rooms p).

(** *** [getAllRooms] *)

(** [String.fromCharCode(i)] for the letters [i] in [97, 123) whose shard
    [(i % numShards) + 1] is this one; with no shard at all the remainder
    is [NaN] and no letter is selected. *)
Definition selection (shard : Z) : list string :=
  omap (fun i : nat =>
          if negb (numShards =? 0) && (rem (Z.of_nat i) numShards + 1 =? shard)
          then Some (String (Ascii.ascii_of_nat i) EmptyString)
          else None)
       (seq 97 26).

Definition range : string :=
  match SHARD with
  | None => "/%"
  | Some shard => "/(" +:+ String.concat "|" (selection shard) +:+ ")%"
  end.

Definition getAllRooms : M Process (list PersistentRoom.t) :=
  if negb postgres then ret []
  else fun p => (selectRooms range, p).

(** *** [freeUnusedRooms] *)

(** The callback of [rooms.forEach]: an [async] function, whose exception
    is not raised in the loop.  Removing the entry being visited leaves the
    visit of the other entries as it is. *)
Definition freeRoom (persistedSet : gset string) (e : string * Room)
  : M Process unit :=
  detached
    (if (length (roster e.2) =? 0)%nat then
       if negb (bool_decide (roomId e.2 ∈ persistedSet)) then
         call (destroy (roomId e.2)) ;;
         modify (withRooms (JsMap.delete e.1))
       else ret tt
     else ret tt).

(** The rooms the reclaimer looks for, and those it removes: the call of
    [destroy] has to return. *)
Definition unused (persistedSet : gset string) (e : string * Room) : bool :=
  (length (roster e.2) =? 0)%nat && negb (bool_decide (roomId e.2 ∈ persistedSet)).

Definition removed (persistedSet : gset string) (e : string * Room) : bool :=
  unused persistedSet e && negb (throws (destroy (roomId e.2))).

Definition freeUnusedRooms : M Process unit :=
  persistedRooms <- getAllRooms ;;
  let persistedSet : gset string :=
    list_to_set (PersistentRoom.roomId <$> persistedRooms) in
  p <- getState ;;
  forEach (freeRoom persistedSet) (rooms p).

(** *** [init] *)

Definition loadRoom (row : PersistentRoom.t) : M Process unit :=
  let key := PersistentRoom.roomId row in
  let room := Room_new key (PersistentRoom.data row) in
  modify (withRooms (JsMap.set key room)).

(** The [require] of the development mode, whose exception is caught, is
    left out. *)
Definition init : M Process unit :=
  (if postgres then
     persistedRooms <- getAllRooms ;;
     forEach loadRoom persistedRooms
   else ret tt) ;;
  p <- getState ;;
  (if negb (JsMap.has "/default" (rooms p)) then
     modify (withRooms (JsMap.set "/default" (Room_new "/default" None)))
   else ret tt) ;;
  call listen ;;
  call (setInterval job_minuteMetrics minuteMetricsInterval) ;;
  call (setInterval job_release (releaseInterval / releaseBatches)) ;;
  call (setInterval job_freeUnusedRooms (5 * 60 * 1000)) ;;
  call saveRooms.

End Jobs.

(** *** Environments for the examples *)

(** An environment in which no call throws, with a hash and a session limit
    chosen for the examples: the length of the id, and three hours or a day
    for a large session. *)
Definition quietEnv : Env :=
  {| hashString := fun s => Z.of_nat (String.length s);
     getSessionLimitSeconds := fun large : bool => if large then 86400 else 10800;
     getStartOfDay := 1699920000000;
     Room_new := fun key _ =>
       {| roomId := key; roster := []; vBrowser := None; lastUpdateTime := 0 |};
     redis := true;
     postgres := false;
     SHARD := None;
     numShards := 0;
     selectRooms := fun _ => Normal [];
     throws := fun _ => false |}.

(** The same environment with calls that throw. *)
Definition faultyEnv (faulty : Call -> bool) : Env :=
  {| hashString := @hashString quietEnv;
     getSessionLimitSeconds := @getSessionLimitSeconds quietEnv;
     getStartOfDay := @getStartOfDay quietEnv;
     Room_new := @Room_new quietEnv;
     redis := true;
     postgres := false;
     SHARD := None;
     numShards := 0;
     selectRooms := fun _ => Normal [];
     throws := faulty |}.

(** The same environment with a database whose query throws. *)
Definition downEnv : Env :=
  {| hashString := @hashString quietEnv;
     getSessionLimitSeconds := @getSessionLimitSeconds quietEnv;
     getStartOfDay := @getStartOfDay quietEnv;
     Room_new := @Room_new quietEnv;
     redis := true;
     postgres := true;
     SHARD := None;
     numShards := 0;
     selectRooms := fun _ => Throw;
     throws := fun _ => false |}.

(** The same environment with a database that holds the room [/kept]. *)
Definition storedEnv : Env :=
  {| hashString := @hashString quietEnv;
     getSessionLimitSeconds := @getSessionLimitSeconds quietEnv;
     getStartOfDay := @getStartOfDay quietEnv;
     Room_new := @Room_new quietEnv;
     redis := true;
     postgres := true;
     SHARD := None;
     numShards := 0;
     selectRooms := fun _ =>
       Normal [{| PersistentRoom.roomId := "/kept"; PersistentRoom.data := None |}];
     throws := fun _ => false |}.

(** The first of three shards, with a database that holds a room of the
    shard. *)
Definition shardedEnv : Env :=
  {| hashString := @hashString quietEnv;
     getSessionLimitSeconds := @getSessionLimitSeconds quietEnv;
     getStartOfDay := @getStartOfDay quietEnv;
     Room_new := @Room_new quietEnv;
     redis := true;
     postgres := true;
     SHARD := Some 1;
     numShards := 3;
     selectRooms := fun range =>
       if String.eqb range "/(c|f|i|l|o|r|u|x)%"
       then Normal [{| PersistentRoom.roomId := "/cosy-room";
                       PersistentRoom.data := None |}]
       else Throw;
     throws := fun _ => false |}.

(** A standard session assigned at [assignTime] by the user [uid]. *)
Definition session (assignTime : Z) (uid : string) : VBrowser.t :=
  {| VBrowser.id := str "vm1";
     VBrowser.provider := "Hetzner";
     VBrowser.large := false;
     VBrowser.assignTime := Some assignTime;
     VBrowser.creatorUID := str uid;
     VBrowser.creatorClientID := undefined |}.

Definition viewer : Participant := {| isVideoChat := false |}.

(** A room with a standard session, under its id. *)
Definition roomWith (key : string) (roster : list Participant)
  (assignTime lastUpdateTime : Z) : string * Room :=
  (key,
   {| roomId := key;
      roster := roster;
      vBrowser := Some (session assignTime "uid1");
      lastUpdateTime := lastUpdateTime |}).

(** An instant, and the assignment times that leave a standard session one
    minute and exactly [releaseInterval] at that instant. *)
Definition someday : Z := 1700000000000.
Definition lastMinute : Z := someday - (10800 * 1000 - 60 * 1000).
Definition atInterval : Z := someday - (10800 * 1000 - releaseInterval).

(** The chat of the room [/a] throws. *)
Definition chatDown (c : Call) : bool :=
  match c with
  | addChatMessage room _ => String.eqb room "/a"
  | _ => false
  end.

(** A room without a session. *)
Definition plainRoom (key : string) (roster : list Participant) : string * Room :=
  (key, {| roomId := key; roster := roster; vBrowser := None; lastUpdateTime := 0 |}).

(** A process about to sweep [batch]. *)
Definition sweeping (batch : Z) (rooms : list (string * Room)) : Process :=
  {| rooms := rooms; currBatch := batch; calls := [] |}.

End Server.

(** ** The TTL store behind the locks *)

Module TtlStore.

Import Server.

(** Modelled from the spec: the TTL lock and counter store (Redis, not
    among the sources) holds string keys with an optional expiry; a key
    whose expiry has passed is gone.  A key maps to [Some e] when it
    expires at the instant [e], in milliseconds, and to [None] when it
    does not expire. *)
Definition alive (st : gmap string (option Z)) (key : string) (now : Z) : bool :=
  match st !! key with
  | Some (Some e) => now <? e
  | Some None => true
  | None => false
  end.


(** Modelled from the spec: what a command does to the store at [now].
    [EXPIRE key seconds] and [EXPIREAT key time] set the expiry of a key
    that exists and leave a missing key missing; [ZINCRBY] creates a
    missing key. *)
Definition exec (now : Z) (st : gmap string (option Z)) (c : Call)
  : gmap string (option Z) :=
  match c with
  | expire key seconds =>
    if alive st key now then <[key := Some (now + seconds * 1000)]> st else st
  | expireat key time =>
    if alive st key now then <[key := Some (time * 1000)]> st else st
  | zincrby key _ _ =>
    if alive st key now then st else <[key := None]> st
  | _ => st
  end.

(** The key expires no earlier than the shorter of the two lock windows
    after [now]. *)
Definition renewed (st : gmap string (option Z)) (key : string) (now : Z) : Prop :=
  ∃ e, st !! key = Some (Some e) ∧ now + 120 * 1000 ≤ e.



Section Ticks.

Context `{Env}.

(** The store after a run of [minuteMetrics] over the registry [m], all of
    whose commands reach the store at [now]. *)
Definition tick (now : Z) (m : list (string * Room))
  (st : gmap string (option Z)) : gmap string (option Z) :=
  foldl (exec now) st
    (calls (minuteMetrics {| rooms := m; currBatch := 0; calls := [] |}).2).



End Ticks.

End TtlStore.

(** ** The subscriber reconciliation ([server/syncSubs.ts]) *)

Module Stripe.

Record Subscription : Type := { customer : string; status : string }.

Record Customer : Type := { id : string; email : Js.value }.

End Stripe.

Module Firebase.

Record UserRecord : Type := { uid : string; email : string }.

End Firebase.

Module Subscriber.

(** A candidate record, and a row of the table [subscriber]. *)
Record t : Type := {
  customerId : string;
  email : Js.value;
  status : string;
  uid : Js.value;
}.

End Subscriber.

Module RoomRow.

(** The columns of the table [room] that the reconciliation reads or
    writes. *)
Record t : Type := {
  roomId : string;
  owner : Js.value;
  isSubRoom : bool;
}.

End RoomRow.

Module SyncSubs.

Import Js.

Record Database : Type := {
  subscriber : list Subscriber.t;
  room : list RoomRow.t;
}.

Inductive Query : Type :=
| BEGIN_TRANSACTION
| DELETE_FROM_subscriber
| UPDATE_room_SET_isSubRoom_false
| INSERT_subscriber (row : Subscriber.t)
| UPDATE_room_SET_isSubRoom_true_WHERE_owner (uid : Js.value)
| COMMIT.

(** What one pass is given from outside. *)
Record Providers : Type := {
  (** [getAllActiveSubscriptions()] and [getAllCustomers()], resolved *)
  getAllActiveSubscriptions : list Stripe.Subscription;
  getAllCustomers : list Stripe.Customer;
  (** [utils/firebase.getUserByEmail]: the user, or [null] *)
  getUserByEmail : string -> option Firebase.UserRecord;
  (** whether a query throws, given the rows the connection sees *)
  queryThrows : Database -> Query -> bool;
}.

(** What the module is loaded with. *)
Class Env : Type := {
  STRIPE_SECRET_KEY : value;
  FIREBASE_ADMIN_SDK_CONFIG : value;
  (** the hexadecimal MD5 digest of the data (Node's [crypto]) *)
  md5 : string -> string;
}.

(** The state of the process: the digest of the last pass, the committed
    rows of the database, the rows the open transaction sees, and the
    queries completed so far.  [currentSubsHash] and [currentSubsDigest]
    are written in every pass before they are read. *)
Record Process : Type := {
  lastSubsDigest : value;
  db : Database;
  transaction : option Database;
  queries : list Query;
}.

(** Modelled from the spec: [utils/postgres.updateObject] with the
    condition [{ owner: uid }] (utils/postgres is not among the sources)
    sets the flag on every room owned by the uid; a comparison with a
    missing value selects no row. *)
Definition ownedBy (uid : value) (r : RoomRow.t) : bool :=
  match uid, RoomRow.owner r with
  | str u, str o => String.eqb o u
  | _, _ => false
  end.

Definition setIsSubRoom (b : bool) (r : RoomRow.t) : RoomRow.t :=
  {| RoomRow.roomId := RoomRow.roomId r;
     RoomRow.owner := RoomRow.owner r;
     RoomRow.isSubRoom := b |}.

(** Modelled from the spec: what a statement does to the rows, with
    [utils/postgres.insertObject] appending the record to its table. *)
Definition run (q : Query) (d : Database) : Database :=
  match q with
  | DELETE_FROM_subscriber => {| subscriber := []; room := room d |}
  | UPDATE_room_SET_isSubRoom_false =>
    {| subscriber := subscriber d; room := setIsSubRoom false <$> room d |}
  | INSERT_subscriber row =>
    {| subscriber := subscriber d ++ [row]; room := room d |}
  | UPDATE_room_SET_isSubRoom_true_WHERE_owner uid =>
    {| subscriber := subscriber d;
       room := (fun r => if ownedBy uid r then setIsSubRoom true r else r) <$> room d |}
  | _ => d
  end.

(** The rows the connection sees. *)
Definition view (p : Process) : Database :=
  default (db p) (transaction p).

(** Modelled from the spec: the durable store supports transactions.  A
    statement outside a transaction is committed at once; the statements of
    a transaction are committed by [COMMIT] and are lost when the process
    ends before. *)
Definition complete (q : Query) (p : Process) : Process :=
  let log := queries p ++ [q] in
  match q, transaction p with
  | BEGIN_TRANSACTION, _ =>
    {| lastSubsDigest := lastSubsDigest p; db := db p;
       transaction := Some (view p); queries := log |}
  | COMMIT, _ =>
    {| lastSubsDigest := lastSubsDigest p; db := view p;
       transaction := None; queries := log |}
  | _, Some d =>
    {| lastSubsDigest := lastSubsDigest p; db := db p;
       transaction := Some (run q d); queries := log |}
  | _, None =>
    {| lastSubsDigest := lastSubsDigest p; db := run q (db p);
       transaction := None; queries := log |}
  end.

(** [Hash.update(data)] of Node's [crypto]: the data joins what is hashed
    when it is a string, and the call throws a [TypeError] otherwise. *)
Definition update (hash : string) (data : value) : completion string :=
  match data with
  | str s => Normal (hash +:+ s)
  | _ => Throw
  end.

(** [subs.slice(i, i + 50)] for [i = 0, 50, ..] below [subs.length]; the
    fuel is the number of passes through the loop that are left. *)
Fixpoint batches (fuel : nat) (subs : list Stripe.Subscription)
  : list (list Stripe.Subscription) :=
  match fuel, subs with
  | S fuel', _ :: _ => take 50 subs :: batches fuel' (drop 50 subs)
  | _, _ => []
  end.

(** What the two statements for a candidate record do to the rows. *)
Definition insertRow (d : Database) (row : Subscriber.t) : Database :=
  run (UPDATE_room_SET_isSubRoom_true_WHERE_owner (Subscriber.uid row))
      (run (INSERT_subscriber row) d).

Section Pass.

Context `{Env}.

(** Both credentials are set. *)
Definition configured : Prop :=
  truthy STRIPE_SECRET_KEY = true ∧ truthy FIREBASE_ADMIN_SDK_CONFIG = true.

Variable w : Providers.

Definition query (q : Query) : M Process unit :=
  fun p =>
    if queryThrows w (view p) q then (Throw, p)
    else (Normal tt, complete q p).

Definition emailMap : gmap string value :=
  foldl (fun m cust => <[Stripe.id cust := Stripe.email cust]> m) ∅
        (getAllCustomers w).

(** [emailMap.get(sub.customer)] *)
Definition emailOf (sub : Stripe.Subscription) : value :=
  default undefined (emailMap !! Stripe.customer sub).

(** The users of one batch: the subscriptions without an email are
    filtered out before the lookups, and a lookup may give [null]. *)
Definition fbUsers (batch : list Stripe.Subscription)
  : list (option Firebase.UserRecord) :=
  omap (fun sub =>
          if truthy (emailOf sub)
          then Some (getUserByEmail w (toString (emailOf sub)))
          else None)
       batch.

(** [uidMap.set(user?.email, user?.uid)] *)
Definition setUser (m : gmap value value) (user : option Firebase.UserRecord)
  : gmap value value :=
  match user with
  | Some u => <[str (Firebase.email u) := str (Firebase.uid u)]> m
  | None => <[undefined := undefined]> m
  end.

Definition uidMap : gmap value value :=
  let subs := getAllActiveSubscriptions w in
  foldl (fun m batch => foldl setUser m (fbUsers batch)) ∅
        (batches (length subs) subs).

(** [uidMap.get(emailMap.get(sub.customer))] *)
Definition uidOf (sub : Stripe.Subscription) : value :=
  default undefined (uidMap !! emailOf sub).

Definition result : list Subscriber.t :=
  (fun sub =>
     {| Subscriber.customerId := Stripe.customer sub;
        Subscriber.email := emailOf sub;
        Subscriber.status := Stripe.status sub;
        Subscriber.uid := uidOf sub |})
  <$> getAllActiveSubscriptions w.

(** The loop of [currentSubsHash.update(row.uid)] from [hash] on. *)
Fixpoint updateAll (hash : string) (rows : list Subscriber.t)
  : completion string :=
  match rows with
  | [] => Normal hash
  | row :: rest =>
    match update hash (Subscriber.uid row) with
    | Normal hash' => updateAll hash' rest
    | Throw => Throw
    | Exit code => Exit code
    end
  end.

(** [createHash('md5')], the updates, and [digest('hex')]. *)
Definition currentSubsDigest : completion string :=
  match updateAll "" result with
  | Normal data => Normal (md5 data)
  | Throw => Throw
  | Exit code => Exit code
  end.

Definition computeDigest : M Process string :=
  fun p => (currentSubsDigest, p).

Definition upsert : M Process unit :=
  query BEGIN_TRANSACTION ;;
  query DELETE_FROM_subscriber ;;
  query UPDATE_room_SET_isSubRoom_false ;;
  forEach (fun row =>
             query (INSERT_subscriber row) ;;
             query (UPDATE_room_SET_isSubRoom_true_WHERE_owner (Subscriber.uid row)))
          result ;;
  query COMMIT.

Definition setLastSubsDigest (digest : string) : M Process unit :=
  modify (fun p =>
    {| lastSubsDigest := str digest; db := db p;
       transaction := transaction p; queries := queries p |}).

Definition syncSubscribers : M Process unit :=
  if negb (truthy STRIPE_SECRET_KEY) || negb (truthy FIREBASE_ADMIN_SDK_CONFIG)
  then ret tt
  else
    digest <- computeDigest ;;
    p <- getState ;;
    (if negb (bool_decide (str digest = lastSubsDigest p))
     then tryCatch upsert (exit 1)
     else ret tt) ;;
    setLastSubsDigest digest.

(** The sequence of the uids the pass resolves, in the order of the
    subscriptions. *)
Definition resolvedUids : list value := Subscriber.uid <$> result.

(** Where an entry of [uidMap] comes from: a lookup that gave no user, or
    the user of a lookup. *)
Definition fromLookup (key v : value) : Prop :=
  (key = undefined ∧ v = undefined) ∨
  (∃ e u, getUserByEmail w e = Some u
          ∧ key = str (Firebase.email u) ∧ v = str (Firebase.uid u)).

(** The identity provider gives the user of the email it is asked for. *)
Definition faithful : Prop :=
  ∀ e u, getUserByEmail w e = Some u → Firebase.email u = e.

End Pass.

(** *** An environment and providers for the examples *)

(** Both credentials set; the data stand for their digest. *)
Definition plainEnv : Env :=
  {| STRIPE_SECRET_KEY := str "sk_test";
     FIREBASE_ADMIN_SDK_CONFIG := str "{}";
     md5 := fun data => data |}.

(** Two customers with a subscription each, both known to the identity
    provider, and a database that answers. *)
Definition twoSubscribers : Providers :=
  {| getAllActiveSubscriptions :=
       [{| Stripe.customer := "cus_1"; Stripe.status := "active" |};
        {| Stripe.customer := "cus_2"; Stripe.status := "active" |}];
     getAllCustomers :=
       [{| Stripe.id := "cus_1"; Stripe.email := str "ann@example.com" |};
        {| Stripe.id := "cus_2"; Stripe.email := str "bob@example.com" |}];
     getUserByEmail := fun e =>
       if String.eqb e "ann@example.com"
       then Some {| Firebase.uid := "uid_ann"; Firebase.email := e |}
       else if String.eqb e "bob@example.com"
       then Some {| Firebase.uid := "uid_bob"; Firebase.email := e |}
       else None;
     queryThrows := fun _ _ => false |}.

(** The same subscribers in another pass, the first subscription now past
    due. *)
Definition pastDue : Providers :=
  {| getAllActiveSubscriptions :=
       [{| Stripe.customer := "cus_1"; Stripe.status := "past_due" |};
        {| Stripe.customer := "cus_2"; Stripe.status := "active" |}];
     getAllCustomers := getAllCustomers twoSubscribers;
     getUserByEmail := getUserByEmail twoSubscribers;
     queryThrows := fun _ _ => false |}.

(** The same, with a third subscription whose customer is not in the list
    of customers. *)
Definition strayCustomer : Providers :=
  {| getAllActiveSubscriptions :=
       getAllActiveSubscriptions twoSubscribers
       ++ [{| Stripe.customer := "cus_3"; Stripe.status := "active" |}];
     getAllCustomers := getAllCustomers twoSubscribers;
     getUserByEmail := getUserByEmail twoSubscribers;
     queryThrows := fun _ _ => false |}.

(** A process that has run no pass, over a database with a stale
    subscriber and three rooms. *)
Definition fresh : Process :=
  {| lastSubsDigest := undefined;
     db := {| subscriber :=
                [{| Subscriber.customerId := "cus_0";
                    Subscriber.email := str "old@example.com";
                    Subscriber.status := "active";
                    Subscriber.uid := str "uid_old" |}];
              room :=
                [{| RoomRow.roomId := "/ann"; RoomRow.owner := str "uid_ann";
                    RoomRow.isSubRoom := false |};
                 {| RoomRow.roomId := "/old"; RoomRow.owner := str "uid_old";
                    RoomRow.isSubRoom := true |};
                 {| RoomRow.roomId := "/free"; RoomRow.owner := null;
                    RoomRow.isSubRoom := false |}] |};
     transaction := None;
     queries := [] |}.

End SyncSubs.

(** ** The hash of a video for the subtitle search ([server/server.ts]) *)

Module Subtitles.

Import Stdlib.Strings.Ascii Js.

(** [chunk.readBigUInt64LE(i)] on the eight bytes from [i] on: the bytes
    are the digits in base 256, the first one the lowest. *)
Definition readBigUInt64LE (word : list Byte.byte) : Z :=
  foldr (fun b acc => Z.of_N (Byte.to_N b) + 256 * acc) 0 word.

(** The inner function [process] from the value [temp] has: a word is read
    at every eighth byte, and the read throws when fewer than eight bytes
    are left (a [RangeError], whose code depends on the length of the
    chunk). *)
Fixpoint process (chunk : list Byte.byte) (temp : Z) : completion Z :=
  match chunk with
  | [] => Normal temp
  | b0 :: b1 :: b2 :: b3 :: b4 :: b5 :: b6 :: b7 :: rest =>
    process rest (temp + readBigUInt64LE [b0; b1; b2; b3; b4; b5; b6; b7])
  | _ => Throw
  end.

Definition hexDigit (d : Z) : Ascii.ascii :=
  nth (Z.to_nat d) (String.list_ascii_of_string "0123456789abcdef") "0"%char.

(** The digits of [v] before [acc], the highest first; the fuel is the
    number of digits that may still be written. *)
Fixpoint digits16 (fuel : nat) (v : Z) (acc : string) : string :=
  match fuel with
  | O => acc
  | S fuel' =>
    let acc' := String (hexDigit (v `mod` 16)) acc in
    if v `div` 16 =? 0 then acc' else digits16 fuel' (v `div` 16) acc'
  end.

(** [v.toString(16)] for a [BigInt] that is not negative; [v] has no more
    digits than bits. *)
Definition toString16 (v : Z) : string :=
  digits16 (S (Z.to_nat (Z.log2 v))) v "".

(** [s.padStart(n, c)] for a one-character [c]. *)
Definition padStart (n : nat) (c : Ascii.ascii) (s : string) : string :=
  String.string_of_list_ascii (replicate (n - String.length s) c) +:+ s.

(** A number as [BigInt] tells numbers apart: a number that is an integer,
    with its value, or a number that is none ([NaN], an infinity or a
    number with a fraction). *)
Inductive number : Type :=
| integer (z : Z)
| notInteger.

(** [BigInt(size)]: the value of an integer, and a [RangeError] for any
    other number. *)
Definition BigInt (size : number) : completion Z :=
  match size with
  | integer z => Normal z
  | notInteger => Throw
  end.

Definition computeOpenSubtitlesHash (first last : list Byte.byte) (size : number)
  : completion string :=
  match BigInt size with
  | Normal temp =>
    match process first temp with
    | Normal temp =>
      match process last temp with
      | Normal temp =>
        let temp := Z.land temp 0xffffffffffffffff in
        Normal (padStart 16 "0" (toString16 temp))
      | Throw => Throw
      | Exit code => Exit code
      end
    | Throw => Throw
    | Exit code => Exit code
    end
  | Throw => Throw
  | Exit code => Exit code
  end.

(** The sum of the words of a chunk that [process] reads. *)
Fixpoint wordSum (chunk : list Byte.byte) : Z :=
  match chunk with
  | b0 :: b1 :: b2 :: b3 :: b4 :: b5 :: b6 :: b7 :: rest =>
    readBigUInt64LE [b0; b1; b2; b3; b4; b5; b6; b7] + wordSum rest
  | _ => 0
  end.

(** The value of a hexadecimal digit, and of a string of them read after
    the value [v]. *)
Definition hexValue (c : Ascii.ascii) : option Z :=
  (fun r => Z.of_nat r.1)
    <$> list_find (fun x => x = c) (String.list_ascii_of_string "0123456789abcdef").

Fixpoint fromHex (v : Z) (s : string) : option Z :=
  match s with
  | EmptyString => Some v
  | String c rest =>
    match hexValue c with
    | Some d => fromHex (16 * v + d) rest
    | None => None
    end
  end.

End Subtitles.

(** ** The counters of [getStats] ([server/server.ts]) *)

Module Stats.

Import Js Server.

(** The counters that [getStats] takes from the registry before its first
    [await]. *)
Record Counters : Type := {
  currentRoomCount : Z;
  currentUsers : Z;
  currentHttp : Z;
  currentVBrowser : Z;
  currentVBrowserLarge : Z;
  currentScreenShare : Z;
  currentFileShare : Z;
  currentVideoChat : Z;
  currentRoomSizeCounts : gmap Z Z;
  currentVBrowserUIDCounts : gmap string Z;
}.

(** [video?.startsWith(prefix)], as a condition. *)
Definition startsWith (prefix : string) (video : value) : bool :=
  match video with
  | str s => String.prefix prefix s
  | _ => false
  end.

(** [if (!counts[key]) counts[key] = 0; counts[key] += 1] *)
Definition bump `{Countable K} (key : K) (counts : gmap K Z) : gmap K Z :=
  <[key := default 0 (counts !! key) + 1]> counts.

(** The names that an object inherits from [Object.prototype].  Under such
    a name [counts[key]] is no number, [counts[key] += 1] leaves no number,
    and the entry does not pass the filter [val > 1]; the counts leave the
    name out. *)
Definition inherited : list string :=
  ["constructor"; "__defineGetter__"; "__defineSetter__"; "hasOwnProperty";
   "__lookupGetter__"; "__lookupSetter__"; "isPrototypeOf";
   "propertyIsEnumerable"; "toString"; "valueOf"; "__proto__";
   "toLocaleString"].

Definition rosterLength (room : Room) : Z := Z.of_nat (length (roster room)).

Definition videoChats (room : Room) : Z :=
  Z.of_nat (length (List.filter isVideoChat (roster room))).

(** The size under which a room is counted: that of a roster that is not
    empty. *)
Definition sizeKey (room : Room) : option Z :=
  if 0 <? rosterLength room then Some (rosterLength room) else None.

(** The user under whom a session is counted: a truthy [creatorUID]. *)
Definition uidKey (room : Room) : option string :=
  match vBrowser room with
  | Some vb =>
    if truthy (VBrowser.creatorUID vb)
    then
      let uid := toString (VBrowser.creatorUID vb) in
      if bool_decide (uid ∈ inherited) then None else Some uid
    else None
  | None => None
  end.

Definition isLarge (room : Room) : bool :=
  match vBrowser room with
  | Some vb => VBrowser.large vb
  | None => false
  end.

Definition one (b : bool) : Z := if b then 1 else 0.

(** The callback of [rooms.forEach]: [video] is the field [video] of the
    room under a key, and [c] holds the counters so far. *)
Definition visit (video : string -> value) (c : Counters) (e : string * Room)
  : Counters :=
  let room := e.2 in
  let occupied := negb (rosterLength room =? 0) in
  {| currentRoomCount := currentRoomCount c;
     currentUsers := currentUsers c + rosterLength room;
     currentHttp :=
       currentHttp c + one (startsWith "http" (video e.1) && occupied);
     currentVBrowser :=
       currentVBrowser c + one (bool_decide (is_Some (vBrowser room)));
     currentVBrowserLarge := currentVBrowserLarge c + one (isLarge room);
     currentScreenShare :=
       currentScreenShare c + one (startsWith "screenshare://" (video e.1) && occupied);
     currentFileShare :=
       currentFileShare c + one (startsWith "fileshare://" (video e.1) && occupied);
     currentVideoChat := currentVideoChat c + videoChats room;
     currentRoomSizeCounts :=
       match sizeKey room with
       | Some size => bump size (currentRoomSizeCounts c)
       | None => currentRoomSizeCounts c
       end;
     currentVBrowserUIDCounts :=
       match uidKey room with
       | Some uid => bump uid (currentVBrowserUIDCounts c)
       | None => currentVBrowserUIDCounts c
       end |}.

Definition start (rooms : list (string * Room)) : Counters :=
  {| currentRoomCount := Z.of_nat (length rooms);
     currentUsers := 0;
     currentHttp := 0;
     currentVBrowser := 0;
     currentVBrowserLarge := 0;
     currentScreenShare := 0;
     currentFileShare := 0;
     currentVideoChat := 0;
     currentRoomSizeCounts := ∅;
     currentVBrowserUIDCounts := ∅ |}.

(** The loop over the registry, and the filter that keeps the users with
    more than one session. *)
Definition currentCounters (video : string -> value)
  (rooms : list (string * Room)) : Counters :=
  let c := foldl (visit video) (start rooms) rooms in
  {| currentRoomCount := currentRoomCount c;
     currentUsers := currentUsers c;
     currentHttp := currentHttp c;
     currentVBrowser := currentVBrowser c;
     currentVBrowserLarge := currentVBrowserLarge c;
     currentScreenShare := currentScreenShare c;
     currentFileShare := currentFileShare c;
     currentVideoChat := currentVideoChat c;
     currentRoomSizeCounts := currentRoomSizeCounts c;
     currentVBrowserUIDCounts :=
       filter (fun kv : string * Z => 1 < kv.2) (currentVBrowserUIDCounts c) |}.

(** Whether a room is counted for its video, by the prefix of the video. *)
Definition shows (video : string -> value) (prefix : string)
  (e : string * Room) : bool :=
  startsWith prefix (video e.1) && negb (rosterLength e.2 =? 0).

(** Whether the session of a room was created by [uid]. *)
Definition createdBy (uid : string) (e : string * Room) : bool :=
  match vBrowser e.2 with
  | Some vb => bool_decide (VBrowser.creatorUID vb = str uid)
  | None => false
  end.

(** The number of the entries that [f] holds of. *)
Definition countIf {A} (f : A -> bool) (l : list A) : Z :=
  Z.of_nat (length (List.filter f l)).

(** The sum of [f] over the entries. *)
Definition sumOf {A} (f : A -> Z) (l : list A) : Z :=
  foldr (fun x acc => f x + acc) 0 l.

End Stats.

(** ** Runs of the jobs one after the other, and the persistence loop *)

Module Runs.

Import Js Server.

Section Runs.

Context `{Env}.

(** The sweeps of the timer at the instants [nows], one after the other. *)
Definition sweeps (nows : list Z) : M Process unit := forEach release nows.

(** The commands of a run of [minuteMetrics], one after the other. *)
Definition commands (cs : list Call) : M Process unit := forEach call cs.

(** The last of the rows with the id [key]. *)
Definition lastRow (key : string) (rows : list PersistentRoom.t)
  : option PersistentRoom.t :=
  foldl (fun found row =>
           if String.eqb (PersistentRoom.roomId row) key then Some row else found)
        None rows.

(** The letter with the code [i]. *)
Definition letter (i : nat) : string :=
  String (Ascii.ascii_of_nat i) EmptyString.

End Runs.

(** A process with a shard of its own in a configuration none of whose
    apps has a shard. *)
Definition strayShardEnv : Env :=
  {| hashString := @hashString quietEnv;
     getSessionLimitSeconds := @getSessionLimitSeconds quietEnv;
     getStartOfDay := @getStartOfDay quietEnv;
     Room_new := @Room_new quietEnv;
     redis := true;
     postgres := true;
     SHARD := Some 1;
     numShards := 0;
     selectRooms := fun _ => Normal [];
     throws := fun _ => false |}.

(** The lock of the user [uid1] cannot be renewed. *)
Definition uidLockDown (c : Call) : bool :=
  match c with
  | expire key _ => String.eqb key "vBrowserUIDLock:uid1"
  | _ => false
  end.

End Runs.

Module Persist.

Import Js Server.

(** The registry and the keys of the rooms saved so far. *)
Record Store : Type := {
  rooms : list (string * Room);
  saved : list string;
}.

Section Loop.

(** [room.saveRoom()] (room.ts is not among the sources): the room it
    leaves, or its exception. *)
Variable saveRoom : Room -> completion Room.

(** [if (roomArr[i].roster.length) await roomArr[i].saveRoom()] on the
    room object under [key]. *)
Definition saveIfOccupied (key : string) : M Store unit :=
  fun s =>
    match JsMap.get key (rooms s) with
    | None => (Normal tt, s)
    | Some room =>
      if (length (roster room) =? 0)%nat then (Normal tt, s)
      else
        match saveRoom room with
        | Normal room' =>
          (Normal tt,
           {| rooms := JsMap.set key room' (rooms s); saved := saved s ++ [key] |})
        | Throw => (Throw, s)
        | Exit code => (Exit code, s)
        end
    end.

(** Whether somebody is in the room of an entry, and the room that the
    visit of a room leaves under its key when its save returns. *)
Definition occupied (e : string * Room) : bool :=
  negb (length (roster e.2) =? 0)%nat.

Definition kept (room : Room) : Room :=
  if (length (roster room) =? 0)%nat then room
  else match saveRoom room with
       | Normal room' => room'
       | _ => room
       end.

(** One pass through the body of the loop of [saveRooms], up to the pause
    of a second. *)
Definition savePass : M Store unit :=
  s <- getState ;;
  forEach (fun e => saveIfOccupied e.1) (rooms s).

(** The loop [while (true)], for as many passes as there is fuel. *)
Fixpoint saveRooms (fuel : nat) : M Store unit :=
  match fuel with
  | O => ret tt
  | S fuel' => savePass ;; saveRooms fuel'
  end.

End Loop.

(** A save that returns and leaves the room as it is, and the same with
    the save of the room [id] failing. *)
Definition saveReturns (room : Room) : completion Room := Normal room.

Definition saveDown (id : string) (room : Room) : completion Room :=
  if String.eqb (roomId room) id then Throw else Normal room.

End Persist.

(** ** The statements of a pass, and passes for the examples *)

Module Passes.

Import Js SyncSubs.

(** The statements of the upsert for the candidate records [rows], in the
    order in which they are sent. *)
Definition queriesOf (rows : list Subscriber.t) : list Query :=
  [BEGIN_TRANSACTION; DELETE_FROM_subscriber; UPDATE_room_SET_isSubRoom_false]
  ++ flat_map (fun row =>
                 [INSERT_subscriber row;
                  UPDATE_room_SET_isSubRoom_true_WHERE_owner (Subscriber.uid row)])
              rows
  ++ [COMMIT].

(** The two subscribers, with a database whose [COMMIT] fails. *)
Definition commitDown : Providers :=
  {| getAllActiveSubscriptions := getAllActiveSubscriptions twoSubscribers;
     getAllCustomers := getAllCustomers twoSubscribers;
     getUserByEmail := getUserByEmail twoSubscribers;
     queryThrows := fun _ q =>
       match q with
       | COMMIT => true
       | _ => false
       end |}.

(** The two subscribers, with the uids [uid1] and [uid2]. *)
Definition withUids (uid1 uid2 : string) : Providers :=
  {| getAllActiveSubscriptions := getAllActiveSubscriptions twoSubscribers;
     getAllCustomers := getAllCustomers twoSubscribers;
     getUserByEmail := fun e =>
       if String.eqb e "ann@example.com"
       then Some {| Firebase.uid := uid1; Firebase.email := e |}
       else if String.eqb e "bob@example.com"
       then Some {| Firebase.uid := uid2; Firebase.email := e |}
       else None;
     queryThrows := fun _ _ => false |}.

End Passes.

(** ** The timer of the release sweep *)

Module Timer.

Import Js Server.

(** A run of [release] by its timer: the keys of the rooms that the
    filter of the run selects, [currBatch] as the run finds it, and
    [currBatch] as the run leaves it. *)
Record Sweep : Type := {
  selected : list string;
  batch : Z;
  next : Z;
}.

Section Timer.

Context `{Env}.

(** The process after the runs of [release] at the instants [nows].
    [release] has no [await]: a run is over before the next one starts.
    A run that throws does not stop the timer; what the runtime does with
    the promise of such a run is left out. *)
Definition releases (nows : list Z) (p : Process) : Process :=
  foldl (fun p now => (release now p).2) p nows.

(** The runs of [release] at the instants [nows], from [p] on. *)
Fixpoint timeline (nows : list Z) (p : Process) : list Sweep :=
  match nows with
  | [] => []
  | now :: rest =>
    {| selected :=
         (List.filter (fun e => inBatch (currBatch p) e.2) (rooms p)).*1;
       batch := currBatch p;
       next := currBatch (release now p).2 |}
    :: timeline rest (release now p).2
  end.

End Timer.

(** Modelled from the spec: [utils/string.hashString] is not among the
    sources.  The spec has the id of a room hash, modulo [releaseBatches],
    to a value of the batch counter: the hash of an id is a natural
    number.  The environment [E] with the hash [h]. *)
Definition withHash (h : string -> N) (E : Env) : Env :=
  {| hashString := fun id => Z.of_N (h id);
     getSessionLimitSeconds := @getSessionLimitSeconds E;
     getStartOfDay := @getStartOfDay E;
     Room_new := @Room_new E;
     redis := @redis E;
     postgres := @postgres E;
     SHARD := @SHARD E;
     numShards := @numShards E;
     selectRooms := @selectRooms E;
     throws := @throws E |}.

(** The length of an id, for the examples. *)
Definition byLength (id : string) : N := N.of_nat (String.length id).



End Timer.

(** * Properties *)

(** ** Maps in insertion order *)

Module JsMapFacts.

Section Facts.
Context {V : Type}.
Implicit Types (m : list (string * V)) (key : string) (v : V).

Lemma get_Some_elem m key v : JsMap.get key m = Some v → (key, v) ∈ m.
Proof.
  induction m as [|[k x] m IH]; simpl; [done|].
  destruct (String.eqb_spec k key) as [->|Hne].
  - intros [= ->]. apply list_elem_of_here.
  - intros Hg. apply list_elem_of_further. by apply IH.
Qed.

Lemma get_None_keys m key : JsMap.get key m = None ↔ key ∉ m.*1.
Proof.
  induction m as [|[k x] m IH]; simpl.
  - split; [intros _; apply not_elem_of_nil | done].
  - destruct (String.eqb_spec k key) as [->|Hne].
    + split; [done|]. intros Hn. exfalso. apply Hn, list_elem_of_here.
    + rewrite IH, not_elem_of_cons.
      split; [intros ?; split; [congruence | done] | by intros [_ ?]].
Qed.

Lemma get_NoDup m key v : NoDup m.*1 → (key, v) ∈ m → JsMap.get key m = Some v.
Proof.
  induction m as [|[k x] m IH]; simpl.
  - intros _ Hin. by apply not_elem_of_nil in Hin.
  - rewrite NoDup_cons. intros [Hk Hnd] Hin.
    apply elem_of_cons in Hin as [[= <- <-]|Hin].
    + by rewrite String.eqb_refl.
    + destruct (String.eqb_spec k key) as [->|Hne].
      * exfalso. apply Hk. apply (list_elem_of_fmap_2 fst) in Hin. done.
      * by apply IH.
Qed.

Lemma has_get m key : JsMap.has key m = true ↔ is_Some (JsMap.get key m).
Proof.
  induction m as [|[k x] m IH]; simpl.
  - split; [done | by intros [? ?]].
  - destruct (String.eqb_spec k key) as [->|Hne]; simpl; [|done].
    split; [by eexists | done].
Qed.

Lemma set_present m key v :
  is_Some (JsMap.get key m) →
  JsMap.set key v m =
    List.map (fun e => if String.eqb e.1 key then (key, v) else e) m.
Proof. intros Hs. unfold JsMap.set. apply has_get in Hs. by rewrite Hs. Qed.

Lemma set_absent m key v :
  JsMap.get key m = None → JsMap.set key v m = m ++ [(key, v)].
Proof.
  intros Hg. unfold JsMap.set.
  destruct (JsMap.has key m) eqn:Hh; [|done].
  apply has_get in Hh as [? Hh]. congruence.
Qed.

Lemma delete_absent m key : key ∉ m.*1 → JsMap.delete key m = m.
Proof.
  induction m as [|[k x] m IH]; simpl; [done|].
  rewrite not_elem_of_cons. intros [Hne Hn].
  destruct (String.eqb_spec k key) as [->|_]; [done|]. simpl. by rewrite IH.
Qed.

End Facts.

End JsMapFacts.

(** ** The release sweep *)

Module ReleaseFacts.

Import Js Server.

Section Facts.

Context `{Env}.
Implicit Types (now : Z) (room : Room) (p : Process) (e : string * Room).

(** The iteration adds its calls to the calls that came before. *)
Lemma releaseRoom_trace now room tr :
  releaseRoom now {| self := room; trace := tr |} =
  ((runRoom now room).1,
   {| self := self (runRoom now room).2;
      trace := tr ++ trace (runRoom now room).2 |}).
Proof.
  unfold runRoom, releaseRoom, bind, getState, ret, invoke. simpl.
  destruct (vBrowser room) as [vb|]; [|by rewrite app_nil_r].
  destruct (VBrowser.assignTime vb) as [t|]; [|by rewrite app_nil_r].
  destruct (t =? 0); [by rewrite app_nil_r|].
  destruct (ttlBelow _ releaseInterval); simpl;
    repeat (case_match; simpl in *; simplify_eq);
    by rewrite ?app_nil_r, <- ?app_assoc.
Qed.

Lemma runRoom_no_session now room :
  vBrowser room = None → runRoom now room = (Normal tt, {| self := room; trace := [] |}).
Proof. intros Hv. unfold runRoom, releaseRoom, bind, getState. simpl. by rewrite Hv. Qed.

Section Session.

Variables (now : Z) (room : Room) (vb : VBrowser.t) (assignTime : Z).
Hypothesis Hsession : vBrowser room = Some vb.
Hypothesis Hassign : VBrowser.assignTime vb = Some assignTime.
Hypothesis Hset : assignTime ≠ 0.

Let ttl : Z := ttlOf now (VBrowser.large vb) assignTime.
Let isRoomEmpty : bool := (length (roster room) =? 0)%nat.
Let isRoomIdle : bool := now - lastUpdateTime room >? 5 * 60 * 1000.

Lemma runRoom_session :
  runRoom now room =
  (if ttlBelow ttl releaseInterval || (isRoomEmpty && isRoomIdle) then
     invoke (stopVBrowserInternal (roomId room)) clearVBrowser ;;
     if ttlBelow ttl releaseInterval then
       invoke (addChatMessage (roomId room) "vBrowserTimeout") (fun r => r) ;;
       invoke (redisCount "vBrowserTerminateTimeout") (fun r => r)
     else if isRoomEmpty then
       invoke (redisCount "vBrowserTerminateEmpty") (fun r => r)
     else ret tt
   else if ttlBelow ttl (releaseInterval * 2) then
     invoke (addChatMessage (roomId room) "vBrowserAlmostTimeout") (fun r => r)
   else ret tt) {| self := room; trace := [] |}.
Proof.
  unfold runRoom, releaseRoom, bind at 1, getState. simpl.
  rewrite Hsession, Hassign.
  destruct (Z.eqb_spec assignTime 0) as [?|_]; [done|].
  destruct (ttlBelow ttl releaseInterval) eqn:Ht; fold ttl;
    rewrite Ht; reflexivity.
Qed.

Hypothesis Hquiet : ∀ c, throws c = false.

Lemma runRoom_timed_out :
  ttlBelow ttl releaseInterval = true →
  runRoom now room =
  (Normal tt, {| self := clearVBrowser room; trace := timedOutCalls room |}).
Proof.
  intros Ht. rewrite runRoom_session, Ht. simpl.
  unfold bind, invoke. simpl. by rewrite !Hquiet.
Qed.

Lemma runRoom_empty_idle :
  ttlBelow ttl releaseInterval = false →
  roster room = [] → now - lastUpdateTime room > 5 * 60 * 1000 →
  runRoom now room =
  (Normal tt, {| self := clearVBrowser room; trace := emptyIdleCalls room |}).
Proof.
  intros Ht Hr Hi. rewrite runRoom_session, Ht. subst isRoomEmpty isRoomIdle.
  assert ((now - lastUpdateTime room >? 5 * 60 * 1000) = true) as ->
    by (apply Z.gtb_lt; lia).
  rewrite Hr. simpl. unfold bind, invoke. simpl. by rewrite !Hquiet.
Qed.

Lemma runRoom_kept :
  ttlBelow ttl releaseInterval = false →
  isRoomEmpty && isRoomIdle = false →
  runRoom now room =
  (Normal tt,
   {| self := room;
      trace := if ttlBelow ttl (releaseInterval * 2)
               then almostTimedOutCalls room else [] |}).
Proof.
  intros Ht Hi. rewrite runRoom_session, Ht, Hi. simpl.
  destruct (ttlBelow ttl (releaseInterval * 2)); [|done].
  unfold invoke. simpl. by rewrite Hquiet.
Qed.

End Session.

Lemma ttlBelow_true ttl bound : ttlBelow ttl bound = true ↔ ttl ≠ 0 ∧ ttl < bound.
Proof.
  unfold ttlBelow. rewrite andb_true_iff, negb_true_iff, Z.eqb_neq, Z.ltb_lt.
  done.
Qed.

Lemma ttlBelow_false ttl bound : ttlBelow ttl bound = false ↔ ttl = 0 ∨ bound ≤ ttl.
Proof.
  unfold ttlBelow. rewrite andb_false_iff, negb_false_iff, Z.eqb_eq, Z.ltb_ge.
  done.
Qed.

(** *** The loop over the batch *)

Lemma withRoom_step now key room p :
  JsMap.get key (rooms p) = Some room →
  withRoom key (releaseRoom now) p =
  ((runRoom now room).1,
   {| rooms := JsMap.set key (self (runRoom now room).2) (rooms p);
      currBatch := currBatch p;
      calls := calls p ++ trace (runRoom now room).2 |}).
Proof. intros Hg. unfold withRoom. by rewrite Hg, releaseRoom_trace. Qed.

Lemma evalKeys_keys now keys (m : list (string * Room)) :
  (evalKeys now keys m).*1 = m.*1.
Proof.
  unfold evalKeys. induction m as [|e m IH]; [done|]. cbn [List.map].
  rewrite fmap_cons, IH. by destruct (bool_decide (e.1 ∈ keys)).
Qed.

Lemma evalKeys_nil now (m : list (string * Room)) : evalKeys now [] m = m.
Proof.
  unfold evalKeys. induction m as [|e m IH]; [done|]. cbn [List.map].
  rewrite IH, bool_decide_eq_false_2; [done | apply not_elem_of_nil].
Qed.

Lemma evalKeys_elem now keys (m : list (string * Room)) e :
  e ∈ m → e.1 ∈ keys → evalEntry now e ∈ evalKeys now keys m.
Proof.
  intros He Hk. unfold evalKeys.
  apply list_elem_of_In, in_map_iff. exists e. split.
  - by rewrite bool_decide_eq_true_2.
  - by apply list_elem_of_In.
Qed.

Lemma evalKeys_other now keys (m : list (string * Room)) e :
  e ∈ m → e.1 ∉ keys → e ∈ evalKeys now keys m.
Proof.
  intros He Hk. unfold evalKeys.
  apply list_elem_of_In, in_map_iff. exists e. split.
  - by rewrite bool_decide_eq_false_2.
  - by apply list_elem_of_In.
Qed.

Lemma set_evalKeys now key room (m : list (string * Room)) :
  NoDup m.*1 → (key, room) ∈ m →
  JsMap.set key (self (runRoom now room).2) m = evalKeys now [key] m.
Proof.
  intros Hnd Hin.
  rewrite JsMapFacts.set_present
    by (erewrite JsMapFacts.get_NoDup; [by eexists | done | done]).
  unfold evalKeys. apply map_ext_in. intros [k r] Hk%list_elem_of_In. simpl.
  destruct (String.eqb_spec k key) as [->|Hne].
  - rewrite bool_decide_eq_true_2 by apply list_elem_of_here.
    pose proof (JsMapFacts.get_NoDup _ _ _ Hnd Hin) as H1.
    pose proof (JsMapFacts.get_NoDup _ _ _ Hnd Hk) as H2.
    rewrite H1 in H2. by injection H2 as ->.
  - rewrite bool_decide_eq_false_2; [done|].
    rewrite list_elem_of_singleton. congruence.
Qed.

Lemma evalKeys_cons now key keys (m : list (string * Room)) :
  key ∉ keys →
  evalKeys now keys (evalKeys now [key] m) = evalKeys now (key :: keys) m.
Proof.
  intros Hk. unfold evalKeys. rewrite List.map_map. apply map_ext. intros e.
  destruct (decide (e.1 = key)) as [He|He].
  - rewrite (bool_decide_eq_true_2 (e.1 ∈ [key]))
      by (rewrite He; apply list_elem_of_here).
    rewrite (bool_decide_eq_true_2 (e.1 ∈ key :: keys))
      by (rewrite He; apply list_elem_of_here).
    simpl. rewrite bool_decide_eq_false_2; [done | by rewrite He].
  - rewrite (bool_decide_eq_false_2 (e.1 ∈ [key]))
      by (rewrite list_elem_of_singleton; done).
    destruct (decide (e.1 ∈ keys)) as [Hin|Hin].
    + rewrite !bool_decide_eq_true_2; [done | by apply list_elem_of_further | done].
    + rewrite !bool_decide_eq_false_2; [done | | done].
      rewrite not_elem_of_cons. done.
Qed.

Lemma filter_keys_NoDup {V} (f : string * V → bool) (m : list (string * V)) :
  NoDup m.*1 → NoDup (List.filter f m).*1.
Proof.
  induction m as [|e m IH]; simpl; [done|].
  rewrite NoDup_cons. intros [Hn Hnd]. destruct (f e); simpl; [|by apply IH].
  apply NoDup_cons. split; [|by apply IH].
  intros Hin. apply Hn.
  apply list_elem_of_fmap in Hin as [x [-> Hx]].
  apply list_elem_of_In, filter_In in Hx as [Hx _].
  apply list_elem_of_fmap_2. by apply list_elem_of_In.
Qed.

(** The loop when every iteration completes. *)
Lemma forEach_rooms now arr p :
  NoDup (rooms p).*1 → NoDup arr.*1 →
  (∀ e, e ∈ arr → e ∈ rooms p) →
  (∀ e, e ∈ arr → completes now e) →
  forEach (fun e => withRoom e.1 (releaseRoom now)) arr p =
  (Normal tt,
   {| rooms := evalKeys now arr.*1 (rooms p);
      currBatch := currBatch p;
      calls := calls p ++ flat_map (callsOf now) arr |}).
Proof.
  revert p. induction arr as [|[key room] arr IH]; intros p Hnd Harr Hin Hok.
  - simpl. unfold ret. rewrite evalKeys_nil, app_nil_r. by destruct p.
  - simpl in *. apply NoDup_cons in Harr as [Hkey Harr].
    assert ((key, room) ∈ rooms p) as Hhere by apply Hin, list_elem_of_here.
    unfold bind.
    rewrite (withRoom_step now key room p) by by apply JsMapFacts.get_NoDup.
    rewrite (Hok (key, room)) by apply list_elem_of_here.
    rewrite set_evalKeys by done.
    rewrite IH; simpl.
    + rewrite evalKeys_cons by done. by rewrite <- app_assoc.
    + by rewrite evalKeys_keys.
    + done.
    + intros e He. apply evalKeys_other; [by apply Hin, list_elem_of_further|].
      rewrite list_elem_of_singleton. intros Heq. apply Hkey.
      rewrite <- Heq. by apply list_elem_of_fmap_2.
    + intros e He. by apply Hok, list_elem_of_further.
Qed.

(** The loop when an iteration throws. *)
Lemma forEach_rooms_throw now before e after p :
  NoDup (rooms p).*1 → NoDup (before ++ e :: after).*1 →
  (∀ x, x ∈ before ++ e :: after → x ∈ rooms p) →
  (∀ x, x ∈ before → completes now x) →
  (runRoom now e.2).1 = Throw →
  forEach (fun e => withRoom e.1 (releaseRoom now)) (before ++ e :: after) p =
  (Throw,
   {| rooms := evalKeys now (before ++ [e]).*1 (rooms p);
      currBatch := currBatch p;
      calls := calls p ++ flat_map (callsOf now) (before ++ [e]) |}).
Proof.
  revert p. induction before as [|[key room] before IH];
    intros p Hnd Harr Hin Hok Hthrow.
  - destruct e as [key room]. simpl in *.
    assert ((key, room) ∈ rooms p) as Hhere by apply Hin, list_elem_of_here.
    unfold bind.
    rewrite (withRoom_step now key room p) by by apply JsMapFacts.get_NoDup.
    rewrite Hthrow, set_evalKeys by done.
    unfold callsOf. simpl. by rewrite app_nil_r.
  - simpl in *. apply NoDup_cons in Harr as [Hkey Harr].
    assert ((key, room) ∈ rooms p) as Hhere by apply Hin, list_elem_of_here.
    unfold bind.
    rewrite (withRoom_step now key room p) by by apply JsMapFacts.get_NoDup.
    rewrite (Hok (key, room)) by apply list_elem_of_here.
    rewrite set_evalKeys by done.
    rewrite IH; simpl.
    + rewrite evalKeys_cons; [by rewrite <- app_assoc|].
      intros Hk. apply Hkey. rewrite fmap_app in *.
      apply elem_of_app in Hk as [Hk|Hk]; apply elem_of_app; [by left|right].
      simpl in *. apply list_elem_of_singleton in Hk as ->. apply list_elem_of_here.
    + by rewrite evalKeys_keys.
    + done.
    + intros x Hx. apply evalKeys_other; [by apply Hin, list_elem_of_further|].
      rewrite list_elem_of_singleton. intros Heq. apply Hkey.
      rewrite <- Heq. by apply list_elem_of_fmap_2.
    + intros x Hx. by apply Hok, list_elem_of_further.
    + done.
Qed.

(** The rooms of the batch of the sweep, in the order of the registry. *)
Lemma roomArr_elem p e :
  e ∈ List.filter (fun e => inBatch (currBatch p) e.2) (rooms p) ↔
  e ∈ rooms p ∧ inBatch (currBatch p) e.2 = true.
Proof. by rewrite !list_elem_of_In, filter_In. Qed.

(** A sweep none of whose iterations throws. *)
Lemma release_completes now p :
  let roomArr := List.filter (fun e => inBatch (currBatch p) e.2) (rooms p) in
  NoDup (rooms p).*1 →
  (∀ e, e ∈ roomArr → completes now e) →
  release now p =
  (Normal tt,
   {| rooms := evalKeys now roomArr.*1 (rooms p);
      currBatch := nextBatch (currBatch p);
      calls := calls p ++ flat_map (callsOf now) roomArr |}).
Proof.
  intros roomArr Hnd Hok. unfold release, bind at 1, getState.
  unfold bind. fold roomArr. rewrite forEach_rooms; try done.
  - by apply filter_keys_NoDup.
  - intros e He. by apply roomArr_elem in He as [? _].
Qed.

(** A sweep one of whose iterations throws. *)
Lemma release_throws now p before e after :
  NoDup (rooms p).*1 →
  List.filter (fun e => inBatch (currBatch p) e.2) (rooms p) = before ++ e :: after →
  (∀ x, x ∈ before → completes now x) →
  (runRoom now e.2).1 = Throw →
  release now p =
  (Throw,
   {| rooms := evalKeys now (before ++ [e]).*1 (rooms p);
      currBatch := currBatch p;
      calls := calls p ++ flat_map (callsOf now) (before ++ [e]) |}).
Proof.
  intros Hnd Harr Hok Hthrow. unfold release, bind at 1, getState.
  unfold bind. rewrite Harr. rewrite forEach_rooms_throw; try done.
  - rewrite <- Harr. by apply filter_keys_NoDup.
  - intros x Hx. rewrite <- Harr in Hx. by apply roomArr_elem in Hx as [? _].
Qed.

Lemma runRoom_quiet now room :
  (∀ c, throws c = false) → (runRoom now room).1 = Normal tt.
Proof.
  intros Hquiet. unfold runRoom, releaseRoom, bind, getState, ret, invoke. simpl.
  repeat (case_match; simpl in *; simplify_eq); try done;
    rewrite Hquiet in *; done.
Qed.

(** The sweep evaluates a room of its batch and leaves the room and the
    calls of the evaluation in the process. *)
Lemma release_room_in_batch now p key room :
  NoDup (rooms p).*1 → (∀ c, throws c = false) →
  (key, room) ∈ rooms p → inBatch (currBatch p) room = true →
  ∃ p' before after,
    release now p = (Normal tt, p') ∧
    JsMap.get key (rooms p') = Some (self (runRoom now room).2) ∧
    calls p' = calls p ++ before ++ trace (runRoom now room).2 ++ after.
Proof.
  intros Hnd Hquiet Hin Hbatch.
  assert ((key, room) ∈ List.filter (fun e => inBatch (currBatch p) e.2) (rooms p))
    as Harr by by apply roomArr_elem.
  pose proof Harr as Hsplit.
  apply list_elem_of_split in Hsplit as (l1 & l2 & Hsplit).
  eexists _, (flat_map (callsOf now) l1), (flat_map (callsOf now) l2).
  split; [|split].
  - apply release_completes; [done|]. intros e _. by apply runRoom_quiet.
  - simpl. apply JsMapFacts.get_NoDup; [by rewrite evalKeys_keys|].
    apply (evalKeys_elem now _ _ (key, room)); [done|].
    by apply (list_elem_of_fmap_2 fst) in Harr.
  - simpl. by rewrite Hsplit, flat_map_app.
Qed.

(** *** One iteration, whatever throws *)

(** An iteration returns or throws; it leaves the room as it was, or it
    has stopped the session and cleared it; a room without a session is
    left alone and no call is made for it. *)
Lemma runRoom_shape now room :
  ((runRoom now room).1 = Normal tt ∨ (runRoom now room).1 = Throw) ∧
  ((self (runRoom now room).2 = room
    ∧ stopVBrowserInternal (roomId room) ∉ trace (runRoom now room).2)
   ∨ (self (runRoom now room).2 = clearVBrowser room
      ∧ is_Some (vBrowser room)
      ∧ stopVBrowserInternal (roomId room) ∈ trace (runRoom now room).2)).
Proof.
  unfold runRoom, releaseRoom, bind, getState, ret, invoke. simpl.
  destruct (vBrowser room) as [vb|] eqn:Hvb;
    [|split; [by left | left; split; [done | apply not_elem_of_nil]]].
  destruct (VBrowser.assignTime vb) as [t|];
    [|split; [by left | left; split; [done | apply not_elem_of_nil]]].
  destruct (t =? 0);
    [split; [by left | left; split; [done | apply not_elem_of_nil]]|].
  repeat (case_match; simpl in *; simplify_eq);
    (split; [by (left + right)|]);
    first [ right; split; [done|]; split; [by eexists|]; apply list_elem_of_here
          | left; split; [done|];
            rewrite ?not_elem_of_cons; repeat split; try done;
            apply not_elem_of_nil ].
Qed.

Lemma runRoom_completes_or_throws now e :
  completes now e ∨ (runRoom now e.2).1 = Throw.
Proof. unfold completes. by destruct (runRoom_shape now e.2) as [[?|?] _]; [left|right]. Qed.

(** The rooms of an array up to the first whose iteration throws. *)
Lemma first_throw now (arr : list (string * Room)) :
  (∀ e, e ∈ arr → completes now e) ∨
  ∃ before e after,
    arr = before ++ e :: after ∧
    (∀ x, x ∈ before → completes now x) ∧ (runRoom now e.2).1 = Throw.
Proof.
  induction arr as [|e arr IH]; [left; by intros ? ?%not_elem_of_nil|].
  destruct (runRoom_completes_or_throws now e) as [Hok|Hthrow].
  - destruct IH as [IH|(before & x & after & -> & Hbefore & Hthrow)].
    + left. intros x [->|Hx]%elem_of_cons; [done | by apply IH].
    + right. exists (e :: before), x, after. split; [done|]. split; [|done].
      intros y [->|Hy]%elem_of_cons; [done | by apply Hbefore].
  - right. exists [], e, arr. split; [done|]. split; [|done].
    by intros ? ?%not_elem_of_nil.
Qed.

(** A sweep, whatever throws: the rooms [visited] have been through the
    iteration, in the order of the batch. *)
Lemma release_visits now p :
  NoDup (rooms p).*1 →
  ∃ c visited rest,
    List.filter (fun e => inBatch (currBatch p) e.2) (rooms p) = visited ++ rest ∧
    (c = Normal tt ∨ c = Throw) ∧
    release now p =
    (c,
     {| rooms := evalKeys now visited.*1 (rooms p);
        currBatch := match c with
                     | Normal _ => nextBatch (currBatch p)
                     | _ => currBatch p
                     end;
        calls := calls p ++ flat_map (callsOf now) visited |}).
Proof.
  intros Hnd.
  destruct (first_throw now (List.filter (fun e => inBatch (currBatch p) e.2) (rooms p)))
    as [Hok|(before & e & after & Harr & Hbefore & Hthrow)].
  - exists (Normal tt), (List.filter (fun e => inBatch (currBatch p) e.2) (rooms p)), [].
    split; [by rewrite app_nil_r|]. split; [by left|].
    by apply release_completes.
  - exists Throw, (before ++ [e]), after.
    split; [by rewrite <- app_assoc|]. split; [by right|].
    by apply (release_throws now p before e after).
Qed.

Lemma elem_unique (m : list (string * Room)) key room room' :
  NoDup m.*1 → (key, room) ∈ m → (key, room') ∈ m → room = room'.
Proof.
  intros Hnd H1 H2.
  pose proof (JsMapFacts.get_NoDup _ _ _ Hnd H1) as Hg1.
  pose proof (JsMapFacts.get_NoDup _ _ _ Hnd H2) as Hg2.
  congruence.
Qed.

Lemma get_evalKeys now keys (m : list (string * Room)) key room :
  NoDup m.*1 → JsMap.get key m = Some room →
  JsMap.get key (evalKeys now keys m) =
  Some (if bool_decide (key ∈ keys) then self (runRoom now room).2 else room).
Proof.
  intros Hnd Hget. apply JsMapFacts.get_Some_elem in Hget.
  apply JsMapFacts.get_NoDup; [by rewrite evalKeys_keys|].
  destruct (decide (key ∈ keys)) as [Hk|Hk].
  - rewrite bool_decide_eq_true_2 by done.
    by apply (evalKeys_elem now keys m (key, room)).
  - rewrite bool_decide_eq_false_2 by done.
    by apply (evalKeys_other now keys m (key, room)).
Qed.

End Facts.

(** *** The rotation of the batches *)

Section Batches.

Context `{Env}.

Lemma batchAfter_mod n : batchAfter n = Z.of_nat n `mod` releaseBatches.
Proof.
  unfold batchAfter, releaseBatches.
  induction n as [|n IH]; [done|].
  rewrite Nat.iter_succ, IH. unfold nextBatch, rem, releaseBatches.
  rewrite Z.rem_mod_nonneg by (pose proof (Z.mod_pos_bound (Z.of_nat n) 10); lia).
  rewrite Nat2Z.inj_succ, <- Z.add_1_r. by rewrite Zplus_mod_idemp_l.
Qed.

Lemma batchAfter_bound n : 0 ≤ batchAfter n < releaseBatches.
Proof. rewrite batchAfter_mod. by apply Z.mod_pos_bound. Qed.

(** Among ten numbers in a row one has a given last digit. *)
Lemma one_in_ten (c : Z) (n : nat) :
  0 ≤ c < 10 →
  length (List.filter (fun k : nat => Z.of_nat k `mod` 10 =? c) (seq n 10)) = 1%nat.
Proof.
  intros Hc. induction n as [|n IH].
  - assert (c = 0 ∨ c = 1 ∨ c = 2 ∨ c = 3 ∨ c = 4 ∨ c = 5 ∨ c = 6 ∨ c = 7
            ∨ c = 8 ∨ c = 9) as Hcases by lia.
    repeat (destruct Hcases as [->|Hcases]; [by vm_compute|]).
    subst c. by vm_compute.
  - pose proof (seq_S 10 n) as Hlast.
    change (seq n 11) with (n :: seq (S n) 10) in Hlast.
    apply (f_equal (List.filter (fun k : nat => Z.of_nat k `mod` 10 =? c))) in Hlast.
    apply (f_equal length) in Hlast.
    rewrite List.filter_app, length_app, IH in Hlast.
    cbn [List.filter] in Hlast.
    replace (Z.of_nat (n + 10) `mod` 10) with (Z.of_nat n `mod` 10) in Hlast.
    + destruct (Z.of_nat n `mod` 10 =? c); cbn [length] in Hlast; lia.
    + rewrite Nat2Z.inj_add. change (Z.of_nat 10) with (1 * 10).
      by rewrite Z_mod_plus_full.
Qed.

Lemma batch_distance (b c : Z) :
  0 ≤ b < 10 → 0 ≤ c < 10 → b ≠ c →
  (b - (c + 1) `mod` 10) `mod` 10 = (b - c) `mod` 10 - 1.
Proof. intros Hb Hc Hne. Z.div_mod_to_equations. lia. Qed.

End Batches.

(** *** The runs of the timer *)

Section Runs.

Import Timer.

Context `{Env}.
Implicit Types (now : Z) (room : Room) (p : Process) (e : string * Room).










End Runs.

End ReleaseFacts.

(** ** What the specification states about the release sweep *)

Module ReleaseSpec.

Import Js Server Timer ReleaseFacts.

Section Claims.

Context `{Env}.

(** C1, as amended.  For a room of the batch being swept that holds a
    session with a set [assignTime], when no call throws and
    [ttl = maxTime - (now - assignTime)] is not [0]: the sweep ends the
    session on its time limit, that is, it clears the session of the room,
    adds the system chat message [vBrowserTimeout] and counts
    [vBrowserTerminateTimeout], if and only if [ttl < releaseInterval];
    [maxTime] is the limit of the tier of the session.  A standard session
    one minute before its limit is such a session. *)
Theorem release_timed_out_iff (now : Z) (p : Process) (key : string)
  (room : Room) (vb : VBrowser.t) (assignTime : Z) :
  NoDup (rooms p).*1 →
  (∀ c, throws c = false) →
  (key, room) ∈ rooms p →
  inBatch (currBatch p) room = true →
  vBrowser room = Some vb →
  VBrowser.assignTime vb = Some assignTime →
  assignTime ≠ 0 →
  ttlOf now (VBrowser.large vb) assignTime ≠ 0 →
  ∃ p' room' tr before after,
    release now p = (Normal tt, p') ∧
    JsMap.get key (rooms p') = Some room' ∧
    calls p' = calls p ++ before ++ tr ++ after ∧
    runRoom now room = (Normal tt, {| self := room'; trace := tr |}) ∧
    (ttlOf now (VBrowser.large vb) assignTime < releaseInterval ↔
     vBrowser room' = None ∧ tr = timedOutCalls room).
Proof.
  intros Hnd Hquiet Hin Hbatch Hvb Hassign Hset Httl.
  destruct (release_room_in_batch now p key room)
    as (p' & before & after & Hrel & Hget & Hcalls); try done.
  exists p', (self (runRoom now room).2), (trace (runRoom now room).2), before, after.
  split; [done|]. split; [done|]. split; [done|].
  destruct (ttlBelow (ttlOf now (VBrowser.large vb) assignTime) releaseInterval)
    eqn:Ht.
  - rewrite (runRoom_timed_out now room vb assignTime) by done.
    split; [done|]. apply ttlBelow_true in Ht as [_ Ht]. by split.
  - pose proof Ht as Hge. apply ttlBelow_false in Hge as [?|Hge]; [done|].
    destruct ((length (roster room) =? 0)%nat
              && (now - lastUpdateTime room >? 5 * 60 * 1000)) eqn:Hidle.
    + apply andb_prop in Hidle as [Hempty Hidle].
      rewrite (runRoom_empty_idle now room vb assignTime); try done.
      * split; [done|]. split; [lia | by intros [_ ?]].
      * apply Nat.eqb_eq in Hempty. by destruct (roster room).
      * apply Z.gtb_lt in Hidle. lia.
    + rewrite (runRoom_kept now room vb assignTime) by done.
      split; [done|]. split; [lia|]. intros [Hnone _]. simpl in Hnone. congruence.
Qed.

(** C2, as amended.  For a room of the batch being swept that holds a
    session with a set [assignTime], whose roster is empty and whose
    [lastUpdateTime] is more than five minutes before [now], when no call
    throws: the sweep releases the session whatever [ttl] is; it counts
    [vBrowserTerminateEmpty] and adds no chat message when
    [releaseInterval <= ttl], and it treats the session as timed out (chat
    message [vBrowserTimeout], counter [vBrowserTerminateTimeout]) when
    [ttl < releaseInterval] and [ttl] is not [0]. *)
Theorem release_empty_idle (now : Z) (p : Process) (key : string)
  (room : Room) (vb : VBrowser.t) (assignTime : Z) :
  NoDup (rooms p).*1 →
  (∀ c, throws c = false) →
  (key, room) ∈ rooms p →
  inBatch (currBatch p) room = true →
  vBrowser room = Some vb →
  VBrowser.assignTime vb = Some assignTime →
  assignTime ≠ 0 →
  roster room = [] →
  now - lastUpdateTime room > 5 * 60 * 1000 →
  ∃ p' tr before after,
    release now p = (Normal tt, p') ∧
    JsMap.get key (rooms p') = Some (clearVBrowser room) ∧
    calls p' = calls p ++ before ++ tr ++ after ∧
    runRoom now room = (Normal tt, {| self := clearVBrowser room; trace := tr |}) ∧
    (releaseInterval ≤ ttlOf now (VBrowser.large vb) assignTime →
     tr = emptyIdleCalls room) ∧
    (ttlOf now (VBrowser.large vb) assignTime ≠ 0 →
     ttlOf now (VBrowser.large vb) assignTime < releaseInterval →
     tr = timedOutCalls room).
Proof.
  intros Hnd Hquiet Hin Hbatch Hvb Hassign Hset Hroster Hidle.
  destruct (release_room_in_batch now p key room)
    as (p' & before & after & Hrel & Hget & Hcalls); try done.
  exists p', (trace (runRoom now room).2), before, after.
  split; [done|].
  destruct (ttlBelow (ttlOf now (VBrowser.large vb) assignTime) releaseInterval)
    eqn:Ht.
  - rewrite (runRoom_timed_out now room vb assignTime) in * by done.
    repeat split; try done.
    apply ttlBelow_true in Ht as [_ Ht]. lia.
  - rewrite (runRoom_empty_idle now room vb assignTime) in * by done.
    repeat split; try done.
    intros Hne Hlt. apply ttlBelow_false in Ht as [?|?]; [done | lia].
Qed.

(** The counter of the process is [batchAfter]: a sweep that completes
    moves it to the next batch. *)
Lemma release_advances (now : Z) (p p' : Process) :
  release now p = (Normal tt, p') → currBatch p' = nextBatch (currBatch p).
Proof.
  unfold release, bind at 1, getState. unfold bind at 1.
  set (loop := forEach _ _).
  assert (∀ q c q', loop q = (c, q') → currBatch q' = currBatch q) as Hloop.
  { subst loop. induction (List.filter _ _) as [|e arr IH]; intros q c q'.
    - by intros [= _ <-].
    - simpl. unfold bind. destruct (withRoom _ _ q) as [c1 q1] eqn:Hstep.
      assert (currBatch q1 = currBatch q) as <-.
      { unfold withRoom in Hstep. destruct (JsMap.get _ _).
        - destruct (releaseRoom _ _). by injection Hstep as _ <-.
        - by injection Hstep as _ <-. }
      destruct c1; [by apply IH | by intros [= _ <-] | by intros [= _ <-]]. }
  destruct (loop p) as [c q] eqn:Hq. apply Hloop in Hq.
  destruct c; intros [= <-]. simpl. by rewrite Hq.
Qed.

(** A room whose hash is negative and no multiple of [releaseBatches] is in
    no batch. *)
Remark negative_hash_never_selected (room : Room) (n : nat) :
  hashString (roomId room) < 0 →
  rem (hashString (roomId room)) releaseBatches ≠ 0 →
  inBatch (batchAfter n) room = false.
Proof.
  intros Hneg Hrem. unfold inBatch. apply Z.eqb_neq.
  pose proof (batchAfter_bound n) as [Hlo _].
  unfold rem, releaseBatches in *.
  pose proof (Z.rem_nonpos (hashString (roomId room)) 10). lia.
Qed.


End Claims.


Lemma release_timed_out_iff_witness :
  let room := (roomWith "/abc" [viewer] lastMinute someday).2 in
  ∃ p' room' tr before after,
    release (H := quietEnv) someday
      (sweeping 4 [roomWith "/abc" [viewer] lastMinute someday]) = (Normal tt, p') ∧
    JsMap.get "/abc" (rooms p') = Some room' ∧
    calls p' = [] ++ before ++ tr ++ after ∧
    runRoom (H := quietEnv) someday room = (Normal tt, {| self := room'; trace := tr |}) ∧
    (ttlOf (H := quietEnv) someday false lastMinute < releaseInterval ↔
     vBrowser room' = None ∧ tr = timedOutCalls room).
Proof.
  apply (release_timed_out_iff (H := quietEnv) someday
           (sweeping 4 [roomWith "/abc" [viewer] lastMinute someday]) "/abc"
           (roomWith "/abc" [viewer] lastMinute someday).2
           (session lastMinute "uid1") lastMinute).
  - apply NoDup_singleton.
  - reflexivity.
  - apply list_elem_of_here.
  - reflexivity.
  - reflexivity.
  - reflexivity.
  - vm_compute. discriminate.
  - vm_compute. discriminate.
Defined.

(** The standard session of the specification, one minute before its
    limit, is timed out and cleared. *)
Example release_last_minute :
  release (H := quietEnv) someday
    (sweeping 4 [roomWith "/abc" [viewer] lastMinute someday]) =
  (Normal tt,
   {| rooms := [("/abc", clearVBrowser (roomWith "/abc" [viewer] lastMinute someday).2)];
      currBatch := 5;
      calls := timedOutCalls (roomWith "/abc" [viewer] lastMinute someday).2 |}).
Proof. reflexivity. Qed.

(** At [ttl = releaseInterval] the comparison is strict: the session is
    kept and the room is only warned. *)
Lemma release_at_interval_not_timed_out :
  ttlOf (H := quietEnv) someday false atInterval ≤ releaseInterval ∧
  release (H := quietEnv) someday
    (sweeping 4 [roomWith "/abc" [viewer] atInterval someday]) =
  (Normal tt,
   {| rooms := [roomWith "/abc" [viewer] atInterval someday];
      currBatch := 5;
      calls := [addChatMessage "/abc" "vBrowserAlmostTimeout"] |}).
Proof. split; [by vm_compute | reflexivity]. Qed.

(** At [ttl = 0] the condition [ttl && ..] is falsy: a session exactly at
    its limit is neither released nor warned by the sweep. *)
Example release_at_limit :
  ttlOf (H := quietEnv) someday false (someday - 10800 * 1000) = 0 ∧
  release (H := quietEnv) someday
    (sweeping 4 [roomWith "/abc" [viewer] (someday - 10800 * 1000) someday]) =
  (Normal tt,
   {| rooms := [roomWith "/abc" [viewer] (someday - 10800 * 1000) someday];
      currBatch := 5;
      calls := [] |}).
Proof. split; reflexivity. Qed.

Lemma release_empty_idle_witness :
  let room := (roomWith "/abc" [] atInterval (someday - 6 * 60 * 1000)).2 in
  ∃ p' tr before after,
    release (H := quietEnv) someday
      (sweeping 4 [roomWith "/abc" [] atInterval (someday - 6 * 60 * 1000)]) =
    (Normal tt, p') ∧
    JsMap.get "/abc" (rooms p') = Some (clearVBrowser room) ∧
    calls p' = [] ++ before ++ tr ++ after ∧
    runRoom (H := quietEnv) someday room =
    (Normal tt, {| self := clearVBrowser room; trace := tr |}) ∧
    (releaseInterval ≤ ttlOf (H := quietEnv) someday false atInterval →
     tr = emptyIdleCalls room) ∧
    (ttlOf (H := quietEnv) someday false atInterval ≠ 0 →
     ttlOf (H := quietEnv) someday false atInterval < releaseInterval →
     tr = timedOutCalls room).
Proof.
  apply (release_empty_idle (H := quietEnv) someday
           (sweeping 4 [roomWith "/abc" [] atInterval (someday - 6 * 60 * 1000)])
           "/abc" (roomWith "/abc" [] atInterval (someday - 6 * 60 * 1000)).2
           (session atInterval "uid1") atInterval).
  - apply NoDup_singleton.
  - reflexivity.
  - apply list_elem_of_here.
  - reflexivity.
  - reflexivity.
  - reflexivity.
  - vm_compute. discriminate.
  - reflexivity.
  - vm_compute. reflexivity.
Defined.

(** When the session of an empty idle room is also below
    [releaseInterval], the sweep adds the chat message [vBrowserTimeout]
    and counts [vBrowserTerminateTimeout], not [vBrowserTerminateEmpty]. *)
Lemma release_empty_idle_counted_as_timeout :
  (roomWith "/abc" [] lastMinute (someday - 6 * 60 * 1000)).2.(roster) = [] ∧
  someday - (roomWith "/abc" [] lastMinute (someday - 6 * 60 * 1000)).2.(lastUpdateTime)
    > 5 * 60 * 1000 ∧
  release (H := quietEnv) someday
    (sweeping 4 [roomWith "/abc" [] lastMinute (someday - 6 * 60 * 1000)]) =
  (Normal tt,
   {| rooms :=
        [("/abc", clearVBrowser (roomWith "/abc" [] lastMinute (someday - 6 * 60 * 1000)).2)];
      currBatch := 5;
      calls := [stopVBrowserInternal "/abc";
                addChatMessage "/abc" "vBrowserTimeout";
                redisCount "vBrowserTerminateTimeout"] |}).
Proof. split; [reflexivity|]. split; [by vm_compute | reflexivity]. Qed.


(** The runs of the example: the room [/abc], whose id has the length
    four, is selected by the second run of the window, in batch four. *)
Example release_window :
  let past := [someday; someday + 30000; someday + 60000] in
  let nows := (fun i : nat => someday + 90000 + 30000 * Z.of_nat i) <$> seq 0 10 in
  let p := sweeping 0 [roomWith "/abc" [viewer] lastMinute someday;
                       plainRoom "/default" []] in
  (fun s => (selected s, batch s))
    <$> timeline (H := withHash byLength quietEnv) nows
          (releases (H := withHash byLength quietEnv) past p) =
  [([], 3); (["/abc"], 4); ([], 5); ([], 6); ([], 7); (["/default"], 8);
   ([], 9); ([], 0); ([], 1); ([], 2)].
Proof. vm_compute. reflexivity. Qed.



End ReleaseSpec.

(** ** The start of the process and the memory reclaimer *)

Module RegistrySpec.

Import Js Server.

Section Claims.

Context `{Env}.
Implicit Types (p q : Process) (e : string * Room).

Lemma call_quiet c p :
  throws c = false →
  call c p =
  (Normal tt, {| rooms := rooms p; currBatch := currBatch p; calls := calls p ++ [c] |}).
Proof. intros Hc. unfold call. by rewrite Hc. Qed.

(** *** [init] *)

(** C7, as amended.  When no database is configured, [init] completes
    with no room loaded: the registry holds the room [/default] alone, the
    server listens and the timers and the persistence loop are started.
    When a database is configured and the query of [getAllRooms] throws,
    [init] ends with the exception before anything else is done: no
    default room, no listening server, no timer. *)
Theorem init_database_failure :
  (postgres = false → (∀ c, throws c = false) →
   init launch =
   (Normal tt,
    {| rooms := [("/default", Room_new "/default" None)];
       currBatch := 0;
       calls := [listen;
                 setInterval job_minuteMetrics (60 * 1000);
                 setInterval job_release (30 * 1000);
                 setInterval job_freeUnusedRooms (5 * 60 * 1000);
                 saveRooms] |})) ∧
  (postgres = true → selectRooms range = Throw →
   ∀ p, init p = (Throw, p)).
Proof.
  split.
  - intros Hpg Hquiet. unfold init. rewrite Hpg.
    unfold bind, ret, getState, modify. simpl.
    by rewrite !call_quiet by done.
  - intros Hpg Hquery p. unfold init, getAllRooms. rewrite Hpg. simpl.
    unfold bind. by rewrite Hquery.
Qed.

(** A start that completes has scheduled the lock renewal every minute. *)
Lemma init_schedules p p' :
  init p = (Normal tt, p') →
  setInterval job_minuteMetrics minuteMetricsInterval ∈ calls p'.
Proof.
  unfold init. unfold bind at 1.
  match goal with
  | |- context [match ?load with _ => _ end] =>
    destruct load as [[[]| |] q]; [|done|done]
  end.
  unfold bind at 1, getState. unfold bind at 1.
  match goal with
  | |- context [match ?default with _ => _ end] =>
    destruct default as [[[]| |] q1]; [|done|done]
  end.
  unfold bind, call. simpl.
  repeat (case_match; simplify_eq; simpl in *; try done).
  intros [= <-]. simpl. rewrite !elem_of_app, !list_elem_of_singleton. tauto.
Qed.



(** *** [freeUnusedRooms] *)

Lemma freeRoom_step persistedSet e q :
  freeRoom persistedSet e q =
  (Normal tt,
   if removed persistedSet e
   then {| rooms := JsMap.delete e.1 (rooms q);
           currBatch := currBatch q;
           calls := calls q ++ [destroy (roomId e.2)] |}
   else q).
Proof.
  unfold freeRoom, removed, unused, detached.
  destruct ((length (roster e.2) =? 0)%nat); simpl; [|done].
  destruct (bool_decide _); simpl; [done|].
  unfold bind, call, modify. by destruct (throws _).
Qed.

Lemma forEach_freeRoom persistedSet arr q :
  forEach (freeRoom persistedSet) arr q =
  (Normal tt,
   {| rooms :=
        List.filter
          (fun x => negb (bool_decide (x.1 ∈ (List.filter (removed persistedSet) arr).*1)))
          (rooms q);
      currBatch := currBatch q;
      calls := calls q
               ++ ((fun e => destroy (roomId e.2)) <$> List.filter (removed persistedSet) arr) |}).
Proof.
  revert q. induction arr as [|e arr IH]; intros q.
  - simpl. unfold ret. rewrite app_nil_r. destruct q as [m b cs]. simpl. f_equal. f_equal.
    induction m as [|x m IHm]; [done|]. simpl. by f_equal.
  - cbn [forEach]. unfold bind. rewrite freeRoom_step, IH. cbn [List.filter].
    destruct (removed persistedSet e); [|done]. simpl. f_equal. f_equal.
    + unfold JsMap.delete. induction (rooms q) as [|x m IHm]; [done|]. simpl.
      destruct (String.eqb_spec x.1 e.1) as [Heq|Hne]; simpl.
      * rewrite (bool_decide_eq_true_2 (x.1 ∈ _ :: _))
          by (rewrite Heq; apply list_elem_of_here).
        simpl. apply IHm.
      * rewrite IHm.
        destruct (decide (x.1 ∈ (List.filter (removed persistedSet) arr).*1)) as [Hin|Hin].
        -- rewrite !bool_decide_eq_true_2; [done | by apply list_elem_of_further | done].
        -- rewrite !bool_decide_eq_false_2; [done | | done].
           rewrite not_elem_of_cons. done.
    + by rewrite <- app_assoc.
Qed.

(** With distinct keys, the entries under the keys of the removed entries
    are the removed entries. *)
Lemma removed_keys (f : string * Room → bool) (m : list (string * Room)) e :
  NoDup m.*1 → e ∈ m →
  bool_decide (e.1 ∈ (List.filter f m).*1) = f e.
Proof.
  intros Hnd He. destruct (f e) eqn:Hf.
  - apply bool_decide_eq_true_2. apply list_elem_of_fmap_2.
    apply list_elem_of_In, filter_In. split; [by apply list_elem_of_In | done].
  - apply bool_decide_eq_false_2. intros Hin.
    apply list_elem_of_fmap in Hin as [x [Hkey Hx]].
    apply list_elem_of_In, filter_In in Hx as [Hx Hfx].
    apply list_elem_of_In in Hx.
    assert (x = e) as ->; [|congruence].
    destruct x as [k v], e as [k' v']. simpl in *. subst k'.
    pose proof (JsMapFacts.get_NoDup _ _ _ Hnd Hx) as H1.
    pose proof (JsMapFacts.get_NoDup _ _ _ Hnd He) as H2. congruence.
Qed.

Lemma filter_ext_elem {A} (f g : A → bool) (l : list A) :
  (∀ x, x ∈ l → f x = g x) → List.filter f l = List.filter g l.
Proof.
  intros Hfg. apply filter_ext_in. intros x Hx. by apply Hfg, list_elem_of_In.
Qed.

Lemma freeUnusedRooms_fetched p persisted :
  NoDup (rooms p).*1 →
  getAllRooms p = (Normal persisted, p) →
  let persistedSet : gset string :=
    list_to_set (PersistentRoom.roomId <$> persisted) in
  freeUnusedRooms p =
  (Normal tt,
   {| rooms := List.filter (fun e => negb (removed persistedSet e)) (rooms p);
      currBatch := currBatch p;
      calls := calls p
               ++ ((fun e => destroy (roomId e.2))
                     <$> List.filter (removed persistedSet) (rooms p)) |}).
Proof.
  intros Hnd Hfetch persistedSet. unfold freeUnusedRooms, bind at 1.
  rewrite Hfetch. unfold bind, getState. rewrite forEach_freeRoom.
  f_equal. f_equal. apply filter_ext_elem. intros e He.
  by rewrite removed_keys.
Qed.

(** C8.  A pass of the memory reclaimer over a registry with distinct
    keys keeps every room whose roster is not empty, whatever the database
    answers.  When the ids are fetched and [destroy] returns, the pass
    destroys and removes exactly the rooms whose roster is empty and whose
    id is not among the fetched ids. *)
Theorem freeUnusedRooms_evicts (p : Process) :
  NoDup (rooms p).*1 →
  (∀ e, e ∈ rooms p → roster e.2 ≠ [] → e ∈ rooms (freeUnusedRooms p).2) ∧
  (∀ persisted,
     getAllRooms p = (Normal persisted, p) →
     (∀ key, throws (destroy key) = false) →
     let persistedSet : gset string :=
       list_to_set (PersistentRoom.roomId <$> persisted) in
     freeUnusedRooms p =
     (Normal tt,
      {| rooms := List.filter (fun e => negb (unused persistedSet e)) (rooms p);
         currBatch := currBatch p;
         calls := calls p
                  ++ ((fun e => destroy (roomId e.2))
                        <$> List.filter (unused persistedSet) (rooms p)) |})).
Proof.
  intros Hnd. split.
  - intros e He Hroster.
    destruct (getAllRooms p) as [c q] eqn:Hfetch.
    assert (q = p) as ->.
    { unfold getAllRooms in Hfetch. destruct (negb postgres);
        [by injection Hfetch as _ <- | by injection Hfetch as _ <-]. }
    destruct c as [persisted| |].
    + rewrite (freeUnusedRooms_fetched p persisted) by done. simpl.
      apply list_elem_of_In, filter_In. split; [by apply list_elem_of_In|].
      unfold removed, unused. by destruct (roster e.2).
    + unfold freeUnusedRooms, bind. by rewrite Hfetch.
    + unfold freeUnusedRooms, bind. by rewrite Hfetch.
  - intros persisted Hfetch Hquiet persistedSet.
    rewrite (freeUnusedRooms_fetched p persisted) by done.
    assert (∀ e, removed persistedSet e = unused persistedSet e) as Hsame.
    { intros e. unfold removed. rewrite Hquiet. apply andb_true_r. }
    assert (∀ m : list (string * Room),
              List.filter (removed persistedSet) m = List.filter (unused persistedSet) m)
      as Hfilter by (intros m; apply filter_ext, Hsame).
    fold persistedSet. rewrite Hfilter. f_equal. f_equal.
    apply filter_ext. intros e. by rewrite Hsame.
Qed.

End Claims.

Lemma init_database_failure_witness :
  init (H := quietEnv) launch =
  (Normal tt,
   {| rooms := [("/default", Room_new (Env := quietEnv) "/default" None)];
      currBatch := 0;
      calls := [listen;
                setInterval job_minuteMetrics (60 * 1000);
                setInterval job_release (30 * 1000);
                setInterval job_freeUnusedRooms (5 * 60 * 1000);
                saveRooms] |}) ∧
  (∀ p, init (H := downEnv) p = (Throw, p)).
Proof.
  split.
  - apply (proj1 (init_database_failure (H := quietEnv))); reflexivity.
  - apply (proj2 (init_database_failure (H := downEnv))); reflexivity.
Defined.

(** With a database configured whose query throws, [init] throws from the
    launch state and leaves it as it is: the server does not listen and no
    timer is set. *)
Lemma init_query_failure_is_fatal :
  postgres (Env := downEnv) = true ∧
  selectRooms (Env := downEnv) (range (H := downEnv)) = Throw ∧
  init (H := downEnv) launch = (Throw, launch) ∧
  calls launch = [].
Proof. repeat split. Qed.

(** The start of the first of three shards: the letters of the shard are
    those whose code is a multiple of three, the room of the database is
    loaded before the default room. *)
Example init_sharded :
  range (H := shardedEnv) = "/(c|f|i|l|o|r|u|x)%" ∧
  init (H := shardedEnv) launch =
  (Normal tt,
   {| rooms := [plainRoom "/cosy-room" []; plainRoom "/default" []];
      currBatch := 0;
      calls := [listen;
                setInterval job_minuteMetrics 60000;
                setInterval job_release 30000;
                setInterval job_freeUnusedRooms 300000;
                saveRooms] |}).
Proof. split; reflexivity. Qed.

Lemma freeUnusedRooms_evicts_witness :
  let p := sweeping 0 [plainRoom "/busy" [viewer]; plainRoom "/idle" [];
                       plainRoom "/kept" []] in
  let persisted :=
    [{| PersistentRoom.roomId := "/kept"; PersistentRoom.data := None |}] in
  (∀ e, e ∈ rooms p → roster e.2 ≠ [] →
        e ∈ rooms (freeUnusedRooms (H := storedEnv) p).2) ∧
  freeUnusedRooms (H := storedEnv) p =
  (Normal tt,
   {| rooms :=
        List.filter
          (fun e => negb (unused (list_to_set (PersistentRoom.roomId <$> persisted)) e))
          (rooms p);
      currBatch := 0;
      calls :=
        [] ++ ((fun e => destroy (roomId e.2))
                 <$> List.filter
                       (unused (list_to_set (PersistentRoom.roomId <$> persisted)))
                       (rooms p)) |}).
Proof.
  intros p persisted.
  assert (NoDup (rooms p).*1) as Hnd
    by (apply (bool_decide_unpack _); vm_compute; exact I).
  destruct (freeUnusedRooms_evicts (H := storedEnv) p Hnd) as [Hkeep Hexact].
  split; [exact Hkeep|].
  apply (Hexact persisted); reflexivity.
Defined.

(** The pass removes the empty room that has no row and keeps the two
    others. *)
Example freeUnusedRooms_example :
  freeUnusedRooms (H := storedEnv)
    (sweeping 0 [plainRoom "/busy" [viewer]; plainRoom "/idle" [];
                 plainRoom "/kept" []]) =
  (Normal tt,
   {| rooms := [plainRoom "/busy" [viewer]; plainRoom "/kept" []];
      currBatch := 0;
      calls := [destroy "/idle"] |}).
Proof. vm_compute. reflexivity. Qed.

End RegistrySpec.

(** ** The renewal of the locks *)

Module LockSpec.

Import Js Server Timer TtlStore.

Section Claims.

Context `{Env}.
Implicit Types (p q : Process) (st : gmap string (option Z)) (c : Call).

Hypothesis Hredis : redis = true.
Hypothesis Hquiet : ∀ c, throws c = false.








(** *** The store under the commands of the renewal *)

Lemma renewed_alive st key now : renewed st key now → alive st key now = true.
Proof.
  intros (e & He & Hle). unfold alive. rewrite He. apply Z.ltb_lt. lia.
Qed.







(** *** The runs of the timer *)








End Claims.



(** The store after the first run of the example: the locks expire 300 and
    120 seconds after the run, and the counter of the user at the end of
    the day. *)
Example tick_example :
  let st : gmap string (option Z) :=
    <["lock:Hetzner:vm1" := Some (someday + 1000)]>
      (<["vBrowserUIDLock:uid1" := Some (someday + 1000)]> ∅) in
  let st' := tick (H := quietEnv) someday
               [roomWith "/abc" [viewer] lastMinute someday] st in
  st' !! "lock:Hetzner:vm1" = Some (Some (someday + 300 * 1000)) ∧
  st' !! "vBrowserUIDLock:uid1" = Some (Some (someday + 120 * 1000)) ∧
  st' !! "vBrowserUIDMinutes" = Some (Some ((1699920000000 / 1000 + 86400) * 1000)).
Proof. vm_compute. done. Qed.

End LockSpec.

(** ** The subscriber reconciliation *)

Module SyncSubsFacts.

Import Js SyncSubs.

Section Facts.

Context `{Env}.
Implicit Types (w : Providers) (p q : Process) (d : Database)
  (rows : list Subscriber.t) (hash : string).

(** *** The digest *)

Lemma updateAll_uids hash rows1 rows2 :
  Subscriber.uid <$> rows1 = Subscriber.uid <$> rows2 →
  updateAll hash rows1 = updateAll hash rows2.
Proof.
  revert hash rows2. induction rows1 as [|r1 rows1 IH]; intros hash [|r2 rows2];
    try done.
  rewrite !fmap_cons. intros [= Huid Hrest]. simpl. rewrite Huid.
  destruct (update hash (Subscriber.uid r2)); [by apply IH | done | done].
Qed.

Lemma updateAll_no_exit hash rows code : updateAll hash rows ≠ Exit code.
Proof.
  revert hash. induction rows as [|r rows IH]; intros hash; [done|]. simpl.
  destruct (Subscriber.uid r); simpl; [done | done | apply IH].
Qed.

Lemma updateAll_Normal hash rows data :
  updateAll hash rows = Normal data →
  ∀ row, row ∈ rows → ∃ uid, Subscriber.uid row = str uid.
Proof.
  revert hash. induction rows as [|r rows IH]; intros hash Hall row Hrow.
  - by apply not_elem_of_nil in Hrow.
  - simpl in Hall. destruct (Subscriber.uid r) as [| |u] eqn:Hu; try done.
    apply elem_of_cons in Hrow as [->|Hrow]; [by exists u|].
    by apply (IH _ Hall).
Qed.

Lemma updateAll_Throw hash rows row :
  row ∈ rows → Subscriber.uid row = undefined → updateAll hash rows = Throw.
Proof.
  intros Hrow Hu. destruct (updateAll hash rows) as [data| |code] eqn:Hall.
  - destruct (updateAll_Normal _ _ _ Hall row Hrow) as [u Hstr]. congruence.
  - done.
  - by apply updateAll_no_exit in Hall.
Qed.

(** *** The ways of a pass *)

Lemma configured_cases : configured ∨ ¬ configured.
Proof.
  unfold configured.
  destruct (truthy STRIPE_SECRET_KEY), (truthy FIREBASE_ADMIN_SDK_CONFIG);
    [by left | right | right | right]; by intros [? ?].
Qed.

Lemma pass_unconfigured w p :
  ¬ configured → syncSubscribers w p = (Normal tt, p).
Proof.
  unfold configured, syncSubscribers. intros Hc.
  destruct (truthy STRIPE_SECRET_KEY), (truthy FIREBASE_ADMIN_SDK_CONFIG);
    simpl; try done. exfalso. by apply Hc.
Qed.

Lemma pass_throws w p :
  configured → updateAll "" (result w) = Throw →
  syncSubscribers w p = (Throw, p).
Proof.
  intros [Hs Hf] Hall. unfold syncSubscribers. rewrite Hs, Hf. simpl.
  unfold bind at 1, computeDigest, currentSubsDigest. by rewrite Hall.
Qed.

Lemma pass_unchanged w p data :
  configured → updateAll "" (result w) = Normal data →
  lastSubsDigest p = str (md5 data) →
  syncSubscribers w p = (Normal tt, p).
Proof.
  intros [Hs Hf] Hall Hlast. unfold syncSubscribers. rewrite Hs, Hf. simpl.
  unfold bind at 1, computeDigest, currentSubsDigest. rewrite Hall.
  unfold bind at 1, getState. rewrite Hlast.
  rewrite bool_decide_eq_true_2 by done. simpl.
  unfold bind, ret, setLastSubsDigest, modify. rewrite <- Hlast. by destruct p.
Qed.

Lemma pass_changed w p data :
  configured → updateAll "" (result w) = Normal data →
  lastSubsDigest p ≠ str (md5 data) →
  syncSubscribers w p =
  match upsert w p with
  | (Normal _, q) =>
    (Normal tt,
     {| lastSubsDigest := str (md5 data); db := db q;
        transaction := transaction q; queries := queries q |})
  | (Throw, q) => (Exit 1, q)
  | (Exit code, q) => (Exit code, q)
  end.
Proof.
  intros [Hs Hf] Hall Hlast. unfold syncSubscribers. rewrite Hs, Hf. simpl.
  unfold bind at 1, computeDigest, currentSubsDigest. rewrite Hall.
  unfold bind at 1, getState.
  rewrite bool_decide_eq_false_2 by congruence. simpl.
  unfold bind, tryCatch, exit, setLastSubsDigest, modify.
  by destruct (upsert w p) as [[[]| |code] q].
Qed.

(** A pass that returns leaves the digest of its uids behind. *)
Lemma pass_Normal_digest w p p' :
  configured → syncSubscribers w p = (Normal tt, p') →
  ∃ data, updateAll "" (result w) = Normal data ∧
          lastSubsDigest p' = str (md5 data).
Proof.
  intros Hc Hpass. destruct (updateAll "" (result w)) as [data| |code] eqn:Hall.
  - exists data. split; [done|].
    destruct (decide (lastSubsDigest p = str (md5 data))) as [Hlast|Hlast].
    + rewrite (pass_unchanged w p data) in Hpass by done. congruence.
    + rewrite (pass_changed w p data) in Hpass by done.
      destruct (upsert w p) as [[[]| |code] q]; [|done|done].
      by injection Hpass as <-.
  - rewrite pass_throws in Hpass by done. done.
  - by apply updateAll_no_exit in Hall.
Qed.

(** *** The transaction *)

Lemma query_Normal w x p q :
  query w x p = (Normal tt, q) → q = complete x p.
Proof. unfold query. destruct (queryThrows _ _ _); congruence. Qed.

Lemma forEach_insert_Normal w rows p q d :
  transaction p = Some d →
  forEach (fun row =>
             query w (INSERT_subscriber row) ;;
             query w (UPDATE_room_SET_isSubRoom_true_WHERE_owner (Subscriber.uid row)))
          rows p = (Normal tt, q) →
  transaction q = Some (foldl insertRow d rows) ∧
  db q = db p ∧ lastSubsDigest q = lastSubsDigest p.
Proof.
  revert p d. induction rows as [|row rows IH]; intros p d Htx.
  - simpl. unfold ret. by intros [= <-].
  - cbn [forEach]. unfold bind at 1. unfold bind at 1.
    destruct (query w (INSERT_subscriber row) p) as [[[]| |code] p1] eqn:H1; try done.
    destruct (query w _ p1) as [[[]| |code] p2] eqn:H2; try done.
    apply query_Normal in H1, H2. intros Hrest.
    apply (IH p2 (insertRow d row)) in Hrest.
    + destruct Hrest as (-> & -> & ->). subst p2 p1. unfold complete. simpl.
      by rewrite Htx.
    + subst p2 p1. unfold complete. simpl. by rewrite Htx.
Qed.

Lemma upsert_Normal w p q :
  upsert w p = (Normal tt, q) →
  db q = foldl insertRow
           (run UPDATE_room_SET_isSubRoom_false (run DELETE_FROM_subscriber (view p)))
           (result w) ∧
  transaction q = None ∧
  lastSubsDigest q = lastSubsDigest p.
Proof.
  unfold upsert. unfold bind at 1.
  destruct (query w BEGIN_TRANSACTION p) as [[[]| |code] p1] eqn:H1; try done.
  unfold bind at 1.
  destruct (query w DELETE_FROM_subscriber p1) as [[[]| |code] p2] eqn:H2; try done.
  unfold bind at 1.
  destruct (query w UPDATE_room_SET_isSubRoom_false p2) as [[[]| |code] p3] eqn:H3;
    try done.
  unfold bind at 1.
  destruct (forEach _ (result w) p3) as [[[]| |code] p4] eqn:H4; try done.
  intros H5. apply query_Normal in H1, H2, H3, H5.
  apply (forEach_insert_Normal w (result w) p3 p4
           (run UPDATE_room_SET_isSubRoom_false (run DELETE_FROM_subscriber (view p))))
    in H4.
  - destruct H4 as (Htx & Hdb & Hlast). subst q. unfold complete, view. simpl.
    rewrite Htx. simpl. split; [done|]. split; [done|].
    rewrite Hlast. by subst p3 p2 p1.
  - by subst p3 p2 p1.
Qed.

(** The rows after the statements of the transaction. *)
Lemma foldl_insertRow_subscriber d rows :
  subscriber (foldl insertRow d rows) = subscriber d ++ rows.
Proof.
  revert d. induction rows as [|row rows IH]; intros d; simpl.
  - by rewrite app_nil_r.
  - rewrite IH. simpl. by rewrite <- app_assoc.
Qed.

Lemma foldl_insertRow_room d rows :
  room (foldl insertRow d rows) =
  (fun r =>
     if existsb (fun row => ownedBy (Subscriber.uid row) r) rows
     then setIsSubRoom true r else r) <$> room d.
Proof.
  revert d. induction rows as [|row rows IH]; intros d; simpl.
  - by rewrite list_fmap_id.
  - rewrite IH. simpl. rewrite <- list_fmap_compose. apply list_fmap_ext.
    intros _ r _. simpl.
    destruct (ownedBy (Subscriber.uid row) r) eqn:Ho; simpl.
    + by destruct (existsb _ rows).
    + done.
Qed.

Lemma currentSubsDigest_Normal w digest :
  currentSubsDigest w = Normal digest ↔
  ∃ data, updateAll "" (result w) = Normal data ∧ digest = md5 data.
Proof.
  unfold currentSubsDigest. destruct (updateAll "" (result w)) as [data| |code].
  - split; [intros [= <-]; by exists data | by intros (? & [= <-] & ->)].
  - split; [done | by intros (? & ? & _)].
  - split; [done | by intros (? & ? & _)].
Qed.

Lemma existsb_ownedBy rows (r : RoomRow.t) :
  (∀ row, row ∈ rows → ∃ uid, Subscriber.uid row = str uid) →
  existsb (fun row => ownedBy (Subscriber.uid row) r) rows =
  bool_decide (RoomRow.owner r ∈ Subscriber.uid <$> rows).
Proof.
  induction rows as [|row rows IH]; intros Hstr.
  - symmetry. apply bool_decide_eq_false_2. rewrite fmap_nil. apply not_elem_of_nil.
  - cbn [existsb]. rewrite IH
      by (intros x Hx; by apply Hstr, list_elem_of_further).
    destruct (Hstr row) as [u Hu]; [apply list_elem_of_here|].
    rewrite fmap_cons, Hu. unfold ownedBy at 1.
    destruct (RoomRow.owner r) as [| |o] eqn:Ho; simpl.
    + apply bool_decide_ext. rewrite elem_of_cons.
      split; [by right | by intros [?|?]].
    + apply bool_decide_ext. rewrite elem_of_cons.
      split; [by right | by intros [?|?]].
    + destruct (String.eqb_spec o u) as [->|Hne]; simpl.
      * symmetry. apply bool_decide_eq_true_2, list_elem_of_here.
      * apply bool_decide_ext. rewrite elem_of_cons.
        split; [by right | intros [[= ?]|?]; done].
Qed.

(** *** The map from emails to uids *)

Lemma setUser_fromLookup w (m : gmap value value) user :
  (∃ e, user = getUserByEmail w e) →
  (∀ key v, m !! key = Some v → fromLookup w key v) →
  ∀ key v, setUser m user !! key = Some v → fromLookup w key v.
Proof.
  intros [e ->] Hm key v. unfold setUser.
  destruct (getUserByEmail w e) as [u|] eqn:Hu.
  - intros [[<- <-]|[_ Hold]]%lookup_insert_Some; [|by apply Hm].
    right. by exists e, u.
  - intros [[<- <-]|[_ Hold]]%lookup_insert_Some; [|by apply Hm].
    by left.
Qed.

Lemma foldl_setUser_fromLookup w users (m : gmap value value) :
  (∀ user, user ∈ users → ∃ e, user = getUserByEmail w e) →
  (∀ key v, m !! key = Some v → fromLookup w key v) →
  ∀ key v, foldl setUser m users !! key = Some v → fromLookup w key v.
Proof.
  revert m. induction users as [|user users IH]; intros m Husers Hm; [done|].
  simpl. apply IH.
  - intros x Hx. by apply Husers, list_elem_of_further.
  - apply setUser_fromLookup; [apply Husers, list_elem_of_here | done].
Qed.

Lemma fbUsers_lookups w batch user :
  user ∈ fbUsers w batch → ∃ e, user = getUserByEmail w e.
Proof.
  unfold fbUsers. intros (sub & _ & Hsub)%list_elem_of_omap.
  destruct (truthy (emailOf w sub)); [|done].
  injection Hsub as <-. by eexists.
Qed.

Lemma uidMap_fromLookup w key v : uidMap w !! key = Some v → fromLookup w key v.
Proof.
  unfold uidMap.
  generalize (batches (length (getAllActiveSubscriptions w))
                (getAllActiveSubscriptions w)).
  intros bs.
  assert (∀ key v, (∅ : gmap value value) !! key = Some v → fromLookup w key v)
    as Hempty by (intros ? ?; by rewrite lookup_empty).
  revert Hempty. generalize (∅ : gmap value value). revert key v.
  induction bs as [|batch bs IH]; intros key v m Hm; [by apply Hm|].
  simpl. apply IH. apply foldl_setUser_fromLookup; [|done].
  intros user. apply fbUsers_lookups.
Qed.

(** The loop over the batches has fuel for all of them, and the map is the
    one a single loop over the subscriptions builds. *)
Lemma batches_concat fuel (subs : list Stripe.Subscription) :
  (length subs ≤ fuel)%nat → concat (batches fuel subs) = subs.
Proof.
  revert subs. induction fuel as [|fuel IH]; intros subs Hlen.
  - destruct subs; [done | simpl in Hlen; lia].
  - destruct subs as [|sub subs]; [done|].
    cbn [batches concat]. rewrite IH.
    + apply take_drop.
    + rewrite length_drop. simpl in *. lia.
Qed.

Lemma fbUsers_app w (a b : list Stripe.Subscription) :
  fbUsers w (a ++ b) = fbUsers w a ++ fbUsers w b.
Proof. apply omap_app. Qed.

Lemma foldl_batches w (bs : list (list Stripe.Subscription)) (m : gmap value value) :
  foldl (fun m batch => foldl setUser m (fbUsers w batch)) m bs =
  foldl setUser m (fbUsers w (concat bs)).
Proof.
  revert m. induction bs as [|batch bs IH]; intros m; [done|].
  simpl. by rewrite IH, fbUsers_app, foldl_app.
Qed.

Lemma uidMap_unbatched w :
  uidMap w = foldl setUser ∅ (fbUsers w (getAllActiveSubscriptions w)).
Proof. unfold uidMap. by rewrite foldl_batches, batches_concat. Qed.

Lemma uidOf_cases w sub : uidOf w sub = undefined ∨ ∃ uid, uidOf w sub = str uid.
Proof.
  unfold uidOf. destruct (uidMap w !! emailOf w sub) as [v|] eqn:Hv; [|by left].
  apply uidMap_fromLookup in Hv as [[_ ->]|(e & u & _ & _ & ->)];
    [by left | right; by eexists].
Qed.

Lemma uidOf_no_email w sub :
  emailMap w !! Stripe.customer sub = None → uidOf w sub = undefined.
Proof.
  intros Hnone. unfold uidOf, emailOf. rewrite Hnone. simpl.
  destruct (uidMap w !! undefined) as [v|] eqn:Hv; [|done].
  by apply uidMap_fromLookup in Hv as [[_ ->]|(e & u & _ & ? & _)].
Qed.

Lemma uidOf_no_user w sub e :
  faithful w → emailOf w sub = str e → getUserByEmail w e = None →
  uidOf w sub = undefined.
Proof.
  intros Hfaithful He Hnone. unfold uidOf. rewrite He.
  destruct (uidMap w !! str e) as [v|] eqn:Hv; [|done].
  apply uidMap_fromLookup in Hv as [[? _]|(e' & u & Hu & [= ->] & _)]; [done|].
  rewrite (Hfaithful _ _ Hu) in Hnone. congruence.
Qed.

(** An entry of the map stays, and the user of a lookup is entered under
    its email. *)
Lemma foldl_setUser_is_Some users (m : gmap value value) key :
  is_Some (m !! key) → is_Some (foldl setUser m users !! key).
Proof.
  revert m. induction users as [|user users IH]; intros m Hm; [done|].
  simpl. apply IH. destruct user as [u|]; simpl; rewrite lookup_insert_is_Some.
  - destruct (decide (str (Firebase.email u) = key)); auto.
  - destruct (decide (undefined = key)); auto.
Qed.

Lemma foldl_setUser_entered users (m : gmap value value) u :
  Some u ∈ users → is_Some (foldl setUser m users !! str (Firebase.email u)).
Proof.
  revert m. induction users as [|user users IH]; intros m Hin.
  - by apply not_elem_of_nil in Hin.
  - simpl. apply elem_of_cons in Hin as [<-|Hin]; [|by apply IH].
    apply foldl_setUser_is_Some. simpl. rewrite lookup_insert_eq. by eexists.
Qed.

(** The uid of a subscription resolves when the identity provider has the
    user of its email. *)
Lemma uidOf_resolved w sub e u :
  faithful w → sub ∈ getAllActiveSubscriptions w →
  emailOf w sub = str e → e ≠ "" → getUserByEmail w e = Some u →
  uidOf w sub = str (Firebase.uid u).
Proof.
  intros Hfaithful Hsub He Hne Hu. unfold uidOf. rewrite He.
  assert (is_Some (uidMap w !! str e)) as [v Hv].
  { rewrite uidMap_unbatched, <- (Hfaithful e u Hu).
    apply foldl_setUser_entered. unfold fbUsers. apply list_elem_of_omap.
    exists sub. split; [done|]. rewrite He. simpl.
    destruct (String.eqb_spec e "") as [?|_]; [done|]. simpl. by rewrite Hu. }
  rewrite Hv. simpl.
  apply uidMap_fromLookup in Hv as [[? _]|(e' & u' & Hu' & [= Hkey] & ->)]; [done|].
  rewrite (Hfaithful _ _ Hu') in Hkey. subst e'. congruence.
Qed.

End Facts.

End SyncSubsFacts.

(** ** What the specification states about the reconciliation *)

Module SyncSubsSpec.

Import Js SyncSubs SyncSubsFacts.

Section Claims.

Context `{Env}.

(** C4.  When a pass has not ended the process and the next pass
    resolves the same sequence of uids, in the order of the subscriptions,
    the next pass completes as the first one did and leaves the database
    and the whole state of the process as they are: it sends no query.
    When the first pass has returned, the digest the next pass computes is
    the one that is stored. *)
Theorem same_uids_write_nothing (w1 w2 : Providers) (p p1 : Process)
  (c : completion unit) :
  syncSubscribers w1 p = (c, p1) →
  (∀ code, c ≠ Exit code) →
  resolvedUids w1 = resolvedUids w2 →
  syncSubscribers w2 p1 = (c, p1) ∧
  (configured → c = Normal tt →
   currentSubsDigest w2 = currentSubsDigest w1
   ∧ ∃ digest, currentSubsDigest w2 = Normal digest
               ∧ lastSubsDigest p1 = str digest).
Proof.
  intros Hpass Hrunning Huids.
  assert (updateAll "" (result w2) = updateAll "" (result w1)) as Hsame
    by (apply updateAll_uids; by symmetry).
  destruct configured_cases as [Hc|Hc].
  - destruct (updateAll "" (result w1)) as [data| |code] eqn:Hall.
    + assert (c = Normal tt ∧ lastSubsDigest p1 = str (md5 data)) as [-> Hlast].
      { destruct (decide (lastSubsDigest p = str (md5 data))) as [Hlast|Hlast].
        - rewrite (pass_unchanged w1 p data) in Hpass by done.
          by injection Hpass as <- <-.
        - rewrite (pass_changed w1 p data) in Hpass by done.
          destruct (upsert w1 p) as [[[]| |code] q].
          + by injection Hpass as <- <-.
          + injection Hpass as <- _. by destruct (Hrunning 1).
          + injection Hpass as <- _. by destruct (Hrunning code). }
      split.
      * by apply (pass_unchanged w2 p1 data).
      * intros _ _. unfold currentSubsDigest. rewrite Hsame, Hall.
        split; [done|]. by exists (md5 data).
    + rewrite pass_throws in Hpass by done. injection Hpass as <- <-.
      split; [by apply pass_throws | done].
    + by apply updateAll_no_exit in Hall.
  - rewrite pass_unconfigured in Hpass by done. injection Hpass as <- <-.
    split; [by apply pass_unconfigured | done].
Qed.

(** C5.  When a pass computes a digest that differs from the stored one
    and returns, the transaction it has committed leaves in the table
    [subscriber] exactly the candidate records of the pass, in their
    order, and leaves every room as it was but for [isSubRoom], which is
    true on the rooms whose owner is one of the uids of the pass and false
    on all others. *)
Theorem changed_digest_replaces_rows (w : Providers) (p p' : Process)
  (digest : string) :
  configured →
  currentSubsDigest w = Normal digest →
  lastSubsDigest p ≠ str digest →
  syncSubscribers w p = (Normal tt, p') →
  subscriber (db p') = result w ∧
  room (db p') =
    (fun r => setIsSubRoom (bool_decide (RoomRow.owner r ∈ resolvedUids w)) r)
      <$> room (view p) ∧
  transaction p' = None ∧
  lastSubsDigest p' = str digest.
Proof.
  intros Hc Hdigest Hlast Hpass.
  apply currentSubsDigest_Normal in Hdigest as (data & Hall & ->).
  rewrite (pass_changed w p data) in Hpass by done.
  destruct (upsert w p) as [[[]| |code] q] eqn:Hupsert; [|done|done].
  injection Hpass as <-. simpl.
  pose proof (upsert_Normal w p q Hupsert) as (Hdb & Htx & _).
  rewrite Hdb, foldl_insertRow_subscriber, foldl_insertRow_room. simpl.
  split; [done|]. split; [|done].
  rewrite <- list_fmap_compose. apply list_fmap_ext. intros _ r _. simpl.
  rewrite (existsb_ownedBy (result w) (setIsSubRoom false r))
    by by apply (updateAll_Normal "" _ data).
  simpl. fold (resolvedUids w).
  by destruct (bool_decide (RoomRow.owner r ∈ resolvedUids w)).
Qed.

(** C10.  In a pass with both credentials set: when a subscription
    resolves to no uid, the update of the hash with [undefined] throws and
    the pass ends with the exception before any query, the state of the
    process, the stored digest with it, being left as it is; a pass that
    returns has resolved the uid of every subscription.  A subscription
    whose customer is not in the list of customers resolves to no uid, and
    so does one for whose email the identity provider has no user, the
    provider giving the user of the email it is asked for. *)
Theorem unresolved_uid_aborts_pass (w : Providers) (p : Process) :
  configured →
  (∀ sub, sub ∈ getAllActiveSubscriptions w → uidOf w sub = undefined →
          syncSubscribers w p = (Throw, p)) ∧
  (∀ p', syncSubscribers w p = (Normal tt, p') →
         ∀ sub, sub ∈ getAllActiveSubscriptions w → ∃ uid, uidOf w sub = str uid) ∧
  (∀ sub, emailMap w !! Stripe.customer sub = None → uidOf w sub = undefined) ∧
  (faithful w →
   ∀ sub e, emailOf w sub = str e → getUserByEmail w e = None →
            uidOf w sub = undefined).
Proof.
  intros Hc. split; [|split; [|split]].
  - intros sub Hsub Hu. apply pass_throws; [done|].
    apply (updateAll_Throw "" (result w)
             {| Subscriber.customerId := Stripe.customer sub;
                Subscriber.email := emailOf w sub;
                Subscriber.status := Stripe.status sub;
                Subscriber.uid := uidOf w sub |}); [|done].
    unfold result. apply list_elem_of_fmap. by exists sub.
  - intros p' Hpass sub Hsub.
    destruct (pass_Normal_digest w p p' Hc Hpass) as (data & Hall & _).
    destruct (updateAll_Normal "" (result w) data Hall
                {| Subscriber.customerId := Stripe.customer sub;
                   Subscriber.email := emailOf w sub;
                   Subscriber.status := Stripe.status sub;
                   Subscriber.uid := uidOf w sub |}) as [uid Huid].
    + unfold result. apply list_elem_of_fmap. by exists sub.
    + by exists uid.
  - apply uidOf_no_email.
  - intros Hfaithful sub e. by apply uidOf_no_user.
Qed.

End Claims.

Lemma same_uids_write_nothing_witness :
  let p1 := (syncSubscribers (H := plainEnv) twoSubscribers fresh).2 in
  syncSubscribers (H := plainEnv) pastDue p1 = (Normal tt, p1) ∧
  (configured (H := plainEnv) → Normal tt = Normal tt →
   currentSubsDigest (H := plainEnv) pastDue
   = currentSubsDigest (H := plainEnv) twoSubscribers
   ∧ ∃ digest, currentSubsDigest (H := plainEnv) pastDue = Normal digest
               ∧ lastSubsDigest p1 = str digest).
Proof.
  apply (same_uids_write_nothing (H := plainEnv) twoSubscribers pastDue fresh).
  - vm_compute. reflexivity.
  - discriminate.
  - vm_compute. reflexivity.
Defined.

Lemma changed_digest_replaces_rows_witness :
  let p' := (syncSubscribers (H := plainEnv) twoSubscribers fresh).2 in
  subscriber (db p') = result twoSubscribers ∧
  room (db p') =
    (fun r =>
       setIsSubRoom (bool_decide (RoomRow.owner r ∈ resolvedUids twoSubscribers)) r)
      <$> room (view fresh) ∧
  transaction p' = None ∧
  lastSubsDigest p' = str "uid_annuid_bob".
Proof.
  apply (changed_digest_replaces_rows (H := plainEnv) twoSubscribers fresh).
  - split; reflexivity.
  - vm_compute. reflexivity.
  - discriminate.
  - vm_compute. reflexivity.
Defined.

(** The first pass of the example: the stale subscriber is gone, the two
    candidates are there, and the flag is on the room of a subscriber
    alone. *)
Example first_pass :
  db (syncSubscribers (H := plainEnv) twoSubscribers fresh).2 =
  {| subscriber :=
       [{| Subscriber.customerId := "cus_1";
           Subscriber.email := str "ann@example.com";
           Subscriber.status := "active";
           Subscriber.uid := str "uid_ann" |};
        {| Subscriber.customerId := "cus_2";
           Subscriber.email := str "bob@example.com";
           Subscriber.status := "active";
           Subscriber.uid := str "uid_bob" |}];
     room :=
       [{| RoomRow.roomId := "/ann"; RoomRow.owner := str "uid_ann";
           RoomRow.isSubRoom := true |};
        {| RoomRow.roomId := "/old"; RoomRow.owner := str "uid_old";
           RoomRow.isSubRoom := false |};
        {| RoomRow.roomId := "/free"; RoomRow.owner := null;
           RoomRow.isSubRoom := false |}] |}.
Proof. vm_compute. reflexivity. Qed.

Lemma unresolved_uid_aborts_pass_witness :
  syncSubscribers (H := plainEnv) strayCustomer fresh = (Throw, fresh).
Proof.
  apply (proj1 (unresolved_uid_aborts_pass (H := plainEnv) strayCustomer fresh
                  (conj eq_refl eq_refl))
           {| Stripe.customer := "cus_3"; Stripe.status := "active" |}).
  - cbn. do 2 apply list_elem_of_further. apply list_elem_of_here.
  - vm_compute. reflexivity.
Defined.

End SyncSubsSpec.

(** ** Loops and sequences *)

Module JsLaws.

Import Js.

Lemma forEach_app {S A} (body : A → M S unit) (l1 l2 : list A) (s : S) :
  forEach body (l1 ++ l2) s = (forEach body l1 ;; forEach body l2) s.
Proof.
  revert s. induction l1 as [|x l1 IH]; intros s; [done|].
  cbn [app forEach]. unfold bind in *.
  destruct (body x s) as [[[]| |] s1]; [|done|done]. by rewrite IH.
Qed.

Lemma bind_ext {S A B} (m : M S A) (k1 k2 : A → M S B) (s : S) :
  (∀ a s', k1 a s' = k2 a s') → bind m k1 s = bind m k2 s.
Proof. intros Hk. unfold bind. by destruct (m s) as [[a| |] s']. Qed.

End JsLaws.

(** ** The hash of a video for the subtitle search *)

Module SubtitlesSpec.

Import Stdlib.Strings.Ascii Js Subtitles.

Lemma process_words (chunk : list Byte.byte) (temp : Z) :
  process chunk temp =
  if (length chunk `mod` 8 =? 0)%nat then Normal (temp + wordSum chunk) else Throw.
Proof.
  remember (length chunk) as n eqn:Hn. revert chunk temp Hn.
  induction (lt_wf n) as [n _ IH]. intros chunk temp ->.
  destruct chunk as [|b0 [|b1 [|b2 [|b3 [|b4 [|b5 [|b6 [|b7 rest]]]]]]]];
    try reflexivity.
  - simpl. by rewrite Z.add_0_r.
  - cbn [process wordSum].
    rewrite (IH (length rest)) by (simpl; lia || done).
    replace (length (b0 :: b1 :: b2 :: b3 :: b4 :: b5 :: b6 :: b7 :: rest))
      with (length rest + 1 * 8)%nat by (simpl; lia).
    rewrite Nat.Div0.mod_add. by rewrite Z.add_assoc.
Qed.

Lemma hexValue_hexDigit (d : Z) : 0 ≤ d < 16 → hexValue (hexDigit d) = Some d.
Proof.
  intros Hd.
  assert (d = 0 ∨ d = 1 ∨ d = 2 ∨ d = 3 ∨ d = 4 ∨ d = 5 ∨ d = 6 ∨ d = 7
          ∨ d = 8 ∨ d = 9 ∨ d = 10 ∨ d = 11 ∨ d = 12 ∨ d = 13 ∨ d = 14
          ∨ d = 15) as Hcases by lia.
  repeat (destruct Hcases as [->|Hcases]; [by vm_compute|]).
  subst d. by vm_compute.
Qed.

Lemma fromHex_digits16 (fuel : nat) (v : Z) (acc : string) :
  0 ≤ v < 16 ^ Z.of_nat fuel →
  fromHex 0 (digits16 fuel v acc) = fromHex v acc.
Proof.
  revert v acc. induction fuel as [|fuel IH]; intros v acc Hv.
  - simpl in *. by replace v with 0 by lia.
  - rewrite Nat2Z.inj_succ, Z.pow_succ_r in Hv by lia.
    cbn [digits16].
    pose proof (Z.mod_pos_bound v 16) as Hmod.
    pose proof (Z.div_mod v 16) as Hdiv.
    destruct (Z.eqb_spec (v `div` 16) 0) as [Hz|Hnz].
    + cbn [fromHex]. rewrite hexValue_hexDigit by lia. f_equal. lia.
    + rewrite IH.
      * cbn [fromHex]. rewrite hexValue_hexDigit by lia. f_equal. lia.
      * split; [apply Z.div_pos; lia | apply Z.div_lt_upper_bound; lia].
Qed.

Lemma length_digits16 (fuel n : nat) (v : Z) (acc : string) :
  (1 ≤ n)%nat → 0 ≤ v < 16 ^ Z.of_nat n →
  (String.length (digits16 fuel v acc) ≤ n + String.length acc)%nat.
Proof.
  revert n v acc. induction fuel as [|fuel IH]; intros n v acc Hn Hv.
  - simpl. lia.
  - cbn [digits16].
    destruct (Z.eqb_spec (v `div` 16) 0) as [Hz|Hnz]; [simpl; lia|].
    destruct n as [|[|n]]; [lia| |].
    + exfalso. apply Hnz. apply Z.div_small. simpl in Hv. lia.
    + etrans; [apply (IH (S n))|simpl; lia]; [lia|].
      rewrite (Nat2Z.inj_succ (S n)), Z.pow_succ_r in Hv by lia.
      split; [apply Z.div_pos; lia | apply Z.div_lt_upper_bound; lia].
Qed.

Lemma toString16_value (v : Z) : 0 ≤ v → fromHex 0 (toString16 v) = Some v.
Proof.
  intros Hv. unfold toString16. rewrite fromHex_digits16; [done|].
  split; [done|].
  rewrite Nat2Z.inj_succ, Z2Nat.id by apply Z.log2_nonneg.
  destruct (Z.eq_dec v 0) as [->|Hne]; [done|].
  pose proof (Z.log2_spec v ltac:(lia)) as [_ Hlt].
  eapply Z.lt_le_trans; [exact Hlt|].
  pose proof (Z.log2_nonneg v).
  change 16 with (2 ^ 4). rewrite <- Z.pow_mul_r by lia.
  apply Z.pow_le_mono_r; lia.
Qed.

Lemma toString16_length (v : Z) :
  0 ≤ v < 2 ^ 64 → (String.length (toString16 v) ≤ 16)%nat.
Proof.
  intros Hv. unfold toString16.
  etrans; [apply (length_digits16 _ 16)|simpl; lia]; [lia|].
  change (16 ^ Z.of_nat 16) with (2 ^ 64). done.
Qed.

Lemma length_append (s1 s2 : string) :
  String.length (s1 +:+ s2) = (String.length s1 + String.length s2)%nat.
Proof. induction s1 as [|c s1 IH]; simpl; [done | by rewrite IH]. Qed.

Lemma padStart_length (n : nat) (c : ascii) (s : string) :
  (String.length s ≤ n)%nat → String.length (padStart n c s) = n.
Proof.
  intros Hs. unfold padStart. rewrite length_append.
  assert (∀ k, String.length (String.string_of_list_ascii (replicate k c)) = k)
    as Hzeros by (intros k; induction k; simpl; congruence).
  rewrite Hzeros. lia.
Qed.

Lemma padStart_value (n : nat) (s : string) :
  fromHex 0 (padStart n "0" s) = fromHex 0 s.
Proof.
  unfold padStart. induction (n - String.length s)%nat as [|k IH]; [done|].
  simpl. exact IH.
Qed.

(** X1.  For a [size] that is an integer and two chunks whose lengths are
    multiples of eight the hash is [size] plus the 64-bit little-endian
    words of both chunks, reduced modulo 2^64 (also for a negative
    [size]) and written as exactly sixteen lower-case hexadecimal
    digits. *)
Theorem hash_is_sum_of_words (first last : list Byte.byte) (size : Z) :
  (length first `mod` 8 = 0)%nat →
  (length last `mod` 8 = 0)%nat →
  ∃ s,
    computeOpenSubtitlesHash first last (integer size) = Normal s ∧
    String.length s = 16%nat ∧
    fromHex 0 s = Some ((size + wordSum first + wordSum last) `mod` 2 ^ 64).
Proof.
  intros Hfirst Hlast. unfold computeOpenSubtitlesHash. cbn [BigInt].
  rewrite process_words, Hfirst. cbn [Nat.eqb].
  rewrite process_words, Hlast. cbn [Nat.eqb].
  change 0xffffffffffffffff with (Z.ones 64).
  rewrite Z.land_ones by lia.
  pose proof (Z.mod_pos_bound (size + wordSum first + wordSum last) (2 ^ 64)
                ltac:(lia)) as Hbound.
  eexists. split; [done|]. split.
  - apply padStart_length. by apply toString16_length.
  - rewrite padStart_value. apply toString16_value. lia.
Qed.

(** X2.  The hash throws exactly when [size] is no integer, [BigInt]
    refusing it, or the length of one of the two chunks is no multiple of
    eight, the last read of the chunk being out of its range; it yields
    no string then. *)
Theorem hash_throws_iff (first last : list Byte.byte) (size : number) :
  computeOpenSubtitlesHash first last size = Throw ↔
  size = notInteger
  ∨ (length first `mod` 8 ≠ 0)%nat ∨ (length last `mod` 8 ≠ 0)%nat.
Proof.
  unfold computeOpenSubtitlesHash. destruct size as [z|]; cbn [BigInt];
    [|split; [by left | done]].
  rewrite process_words.
  destruct (Nat.eqb_spec (length first `mod` 8) 0) as [Hf|Hf];
    [|split; [by right; left | done]].
  rewrite process_words.
  destruct (Nat.eqb_spec (length last `mod` 8) 0) as [Hl|Hl];
    [|split; [by right; right | done]].
  split; [done | by intros [?|[?|?]]].
Qed.

(** X3.  The hash does not tell the two chunks apart: with the first and
    the last chunk exchanged it returns the same string, and it throws
    with them exchanged exactly when it throws as they are.  Which
    exception is thrown is not stated. *)
Theorem hash_symmetric (first last : list Byte.byte) (size : number) :
  (∀ s, computeOpenSubtitlesHash first last size = Normal s ↔
        computeOpenSubtitlesHash last first size = Normal s) ∧
  (computeOpenSubtitlesHash first last size = Throw ↔
   computeOpenSubtitlesHash last first size = Throw).
Proof.
  assert (computeOpenSubtitlesHash first last size =
          computeOpenSubtitlesHash last first size) as ->; [|done].
  unfold computeOpenSubtitlesHash. destruct size as [z|]; cbn [BigInt]; [|done].
  rewrite !(process_words _ z).
  destruct (length first `mod` 8 =? 0)%nat eqn:Hf,
           (length last `mod` 8 =? 0)%nat eqn:Hl;
    rewrite ?process_words, ?Hf, ?Hl; try done.
  by replace (z + wordSum last + wordSum first)
    with (z + wordSum first + wordSum last) by lia.
Qed.

Lemma hash_is_sum_of_words_witness :
  ∃ s,
    computeOpenSubtitlesHash
      [Byte.x01; Byte.x00; Byte.x00; Byte.x00; Byte.x00; Byte.x00; Byte.x00; Byte.x00]
      [Byte.xff; Byte.xff; Byte.xff; Byte.xff; Byte.xff; Byte.xff; Byte.xff; Byte.xff]
      (integer 1) = Normal s ∧
    String.length s = 16%nat ∧
    fromHex 0 s =
    Some ((1 + wordSum [Byte.x01; Byte.x00; Byte.x00; Byte.x00; Byte.x00;
                        Byte.x00; Byte.x00; Byte.x00]
             + wordSum [Byte.xff; Byte.xff; Byte.xff; Byte.xff; Byte.xff;
                        Byte.xff; Byte.xff; Byte.xff]) `mod` 2 ^ 64).
Proof. apply hash_is_sum_of_words; reflexivity. Defined.

(** One, a word of value one and a word of ones add up to one modulo
    2^64; a negative size wraps around; seven bytes cannot be read, and
    neither can a size that is no integer be converted. *)
Example hash_examples :
  computeOpenSubtitlesHash
    [Byte.x01; Byte.x00; Byte.x00; Byte.x00; Byte.x00; Byte.x00; Byte.x00; Byte.x00]
    [Byte.xff; Byte.xff; Byte.xff; Byte.xff; Byte.xff; Byte.xff; Byte.xff; Byte.xff]
    (integer 1) = Normal "0000000000000001" ∧
  computeOpenSubtitlesHash [] [] (integer (-1)) = Normal "ffffffffffffffff" ∧
  computeOpenSubtitlesHash
    [Byte.x34; Byte.x12; Byte.x00; Byte.x00; Byte.x00; Byte.x00; Byte.x00; Byte.x00]
    [] (integer 0) = Normal "0000000000001234" ∧
  computeOpenSubtitlesHash
    [Byte.x01; Byte.x00; Byte.x00; Byte.x00; Byte.x00; Byte.x00; Byte.x00]
    [] (integer 0) = Throw ∧
  computeOpenSubtitlesHash [] [] notInteger = Throw.
Proof. repeat split; vm_compute; reflexivity. Qed.

End SubtitlesSpec.

(** ** The counters of [getStats] *)

Module StatsSpec.

Import Stdlib.Strings.Ascii Js Server Stats.

Section Sums.
Context {A : Type}.
Implicit Types (f g : A → Z) (l : list A).

Lemma sumOf_cons f x l : sumOf f (x :: l) = f x + sumOf f l.
Proof. done. Qed.

Lemma sumOf_le f g l : (∀ x, f x ≤ g x) → sumOf f l ≤ sumOf g l.
Proof.
  intros Hfg. induction l as [|x l IH]; simpl; [done|].
  pose proof (Hfg x). lia.
Qed.

Lemma sumOf_nonneg f l : (∀ x, 0 ≤ f x) → 0 ≤ sumOf f l.
Proof.
  intros Hf. induction l as [|x l IH]; simpl; [done|].
  pose proof (Hf x). lia.
Qed.

Lemma sumOf_add f g l : sumOf (fun x => f x + g x) l = sumOf f l + sumOf g l.
Proof. induction l as [|x l IH]; simpl; lia. Qed.

Lemma sumOf_one (p : A → bool) l : sumOf (fun x => one (p x)) l = countIf p l.
Proof.
  unfold countIf. induction l as [|x l IH]; simpl; [done|].
  rewrite IH. destruct (p x); simpl; lia.
Qed.

Lemma sumOf_three (p q r s : A → bool) l :
  (∀ x, one (p x) + one (q x) + one (r x) ≤ one (s x)) →
  sumOf (fun x => one (p x)) l + sumOf (fun x => one (q x)) l
  + sumOf (fun x => one (r x)) l ≤ countIf s l.
Proof.
  intros Hx. rewrite <- (sumOf_one s).
  induction l as [|x l IH]; simpl; [done|]. pose proof (Hx x). lia.
Qed.

Lemma countIf_cons (p : A → bool) x l :
  countIf p (x :: l) = one (p x) + countIf p l.
Proof. unfold countIf. simpl. destruct (p x); simpl; lia. Qed.

Lemma countIf_bounds (p : A → bool) l : 0 ≤ countIf p l ≤ Z.of_nat (length l).
Proof.
  unfold countIf. induction l as [|x l IH]; simpl; [done|].
  destruct (p x); simpl; lia.
Qed.

Lemma countIf_false l : countIf (fun _ : A => false) l = 0.
Proof. unfold countIf. induction l as [|x l IH]; simpl; [done | exact IH]. Qed.

Lemma countIf_ext (p q : A → bool) l :
  (∀ x, p x = q x) → countIf p l = countIf q l.
Proof. intros Hpq. unfold countIf. by rewrite (filter_ext p q). Qed.

(** A map of counts after a loop that counts every entry under its key. *)
Lemma foldl_bump `{Countable K} (key : A → option K) l (m : gmap K Z) (n : K) :
  foldl (fun m x => match key x with Some k => bump k m | None => m end) m l !! n =
  let c := countIf (fun x => bool_decide (key x = Some n)) l in
  if 0 <? c then Some (default 0 (m !! n) + c) else m !! n.
Proof.
  revert m. induction l as [|x l IH]; intros m; [done|].
  cbn [foldl]. rewrite IH, countIf_cons. cbv zeta.
  pose proof (countIf_bounds (fun x => bool_decide (key x = Some n)) l) as [Hc _].
  destruct (key x) as [k|] eqn:Hk.
  - destruct (decide (k = n)) as [->|Hne].
    + rewrite bool_decide_eq_true_2 by done. unfold bump.
      rewrite lookup_insert_eq. simpl.
      destruct (Z.ltb_spec 0 (countIf (fun x => bool_decide (key x = Some n)) l));
        destruct (Z.ltb_spec 0
                    (1 + countIf (fun x => bool_decide (key x = Some n)) l));
        try lia; f_equal; lia.
    + rewrite bool_decide_eq_false_2 by congruence. unfold bump.
      rewrite lookup_insert_ne by done. simpl. done.
  - rewrite bool_decide_eq_false_2 by done. done.
Qed.

End Sums.

Section Counters.

Variable video : string → value.
Implicit Types (rooms : list (string * Room)) (c : Counters).

Ltac by_loop l c := revert c; induction l as [|e l IH]; intros c;
  [simpl; lia | cbn [foldl]; rewrite IH, sumOf_cons; unfold shows; simpl; lia].

Lemma loop_currentRoomCount l c :
  currentRoomCount (foldl (visit video) c l) = currentRoomCount c.
Proof. revert c. induction l as [|e l IH]; intros c; [done|]. simpl. by rewrite IH. Qed.

Lemma loop_currentUsers l c :
  currentUsers (foldl (visit video) c l)
  = currentUsers c + sumOf (fun e => rosterLength e.2) l.
Proof. by_loop l c. Qed.

Lemma loop_currentVideoChat l c :
  currentVideoChat (foldl (visit video) c l)
  = currentVideoChat c + sumOf (fun e => videoChats e.2) l.
Proof. by_loop l c. Qed.

Lemma loop_currentVBrowser l c :
  currentVBrowser (foldl (visit video) c l)
  = currentVBrowser c
    + sumOf (fun e => one (bool_decide (is_Some (vBrowser e.2)))) l.
Proof. by_loop l c. Qed.

Lemma loop_currentVBrowserLarge l c :
  currentVBrowserLarge (foldl (visit video) c l)
  = currentVBrowserLarge c + sumOf (fun e => one (isLarge e.2)) l.
Proof. by_loop l c. Qed.

Lemma loop_currentHttp l c :
  currentHttp (foldl (visit video) c l)
  = currentHttp c + sumOf (fun e => one (shows video "http" e)) l.
Proof. by_loop l c. Qed.

Lemma loop_currentScreenShare l c :
  currentScreenShare (foldl (visit video) c l)
  = currentScreenShare c + sumOf (fun e => one (shows video "screenshare://" e)) l.
Proof. by_loop l c. Qed.

Lemma loop_currentFileShare l c :
  currentFileShare (foldl (visit video) c l)
  = currentFileShare c + sumOf (fun e => one (shows video "fileshare://" e)) l.
Proof. by_loop l c. Qed.

Lemma loop_currentRoomSizeCounts l c :
  currentRoomSizeCounts (foldl (visit video) c l)
  = foldl (fun m e => match sizeKey e.2 with Some k => bump k m | None => m end)
          (currentRoomSizeCounts c) l.
Proof. revert c. induction l as [|e l IH]; intros c; [done|]. simpl. by rewrite IH. Qed.

Lemma loop_currentVBrowserUIDCounts l c :
  currentVBrowserUIDCounts (foldl (visit video) c l)
  = foldl (fun m e => match uidKey e.2 with Some k => bump k m | None => m end)
          (currentVBrowserUIDCounts c) l.
Proof. revert c. induction l as [|e l IH]; intros c; [done|]. simpl. by rewrite IH. Qed.

(** The three prefixes exclude one another. *)
Lemma one_video (e : string * Room) :
  one (shows video "http" e) + one (shows video "screenshare://" e)
  + one (shows video "fileshare://" e)
  ≤ one (negb (rosterLength e.2 =? 0)).
Proof.
  unfold shows, startsWith. destruct (negb (rosterLength e.2 =? 0));
    [|rewrite !andb_false_r; simpl; lia].
  rewrite !andb_true_r.
  destruct (video e.1) as [| |s]; simpl; try lia.
  destruct s as [|ch s]; [simpl; lia|].
  cbn [String.prefix].
  destruct (Ascii.ascii_dec "h"%char ch) as [Hh|Hh];
    destruct (Ascii.ascii_dec "s"%char ch) as [Hs|Hs];
    destruct (Ascii.ascii_dec "f"%char ch) as [Hf|Hf];
    try congruence; simpl;
    repeat match goal with
           | |- context [String.prefix ?a ?b] => destruct (String.prefix a b); simpl
           end; lia.
Qed.

(** X4.  The counters of [getStats] fit one another: the users are the
    sum of the rosters and the users in a video chat are among them; the
    large sessions are among the sessions, at most one for a room; and the
    rooms counted for an http video, a screen share and a file share are
    different rooms, all of them with a roster that is not empty. *)
Theorem counters_are_consistent (rooms : list (string * Room)) :
  let c := currentCounters video rooms in
  currentRoomCount c = Z.of_nat (length rooms) ∧
  currentUsers c = sumOf (fun e => rosterLength e.2) rooms ∧
  0 ≤ currentVideoChat c ≤ currentUsers c ∧
  0 ≤ currentVBrowserLarge c ≤ currentVBrowser c ∧
  currentVBrowser c ≤ currentRoomCount c ∧
  0 ≤ currentHttp c ∧ 0 ≤ currentScreenShare c ∧ 0 ≤ currentFileShare c ∧
  currentHttp c + currentScreenShare c + currentFileShare c
  ≤ countIf (fun e => negb (rosterLength e.2 =? 0)) rooms ∧
  countIf (fun e => negb (rosterLength e.2 =? 0)) rooms ≤ currentRoomCount c.
Proof.
  unfold currentCounters. simpl.
  rewrite loop_currentRoomCount, loop_currentUsers, loop_currentVideoChat,
    loop_currentVBrowserLarge, loop_currentVBrowser, loop_currentHttp,
    loop_currentScreenShare, loop_currentFileShare. simpl.
  assert (∀ b : bool, 0 ≤ one b ≤ 1) as Hone by (intros []; simpl; lia).
  repeat split; try (apply sumOf_nonneg; intros e; apply Hone).
  - apply sumOf_nonneg. intros e. unfold videoChats. lia.
  - apply sumOf_le. intros e. unfold videoChats, rosterLength.
    apply inj_le. induction (roster e.2) as [|x l IH]; simpl; [done|].
    destruct (isVideoChat x); simpl; lia.
  - apply sumOf_le. intros e. unfold isLarge.
    destruct (vBrowser e.2) as [vb|].
    + rewrite bool_decide_eq_true_2 by by eexists. apply Hone.
    + rewrite bool_decide_eq_false_2; [done | by intros [? ?]].
  - rewrite sumOf_one. apply countIf_bounds.
  - rewrite !Z.add_0_l.
    apply (sumOf_three (shows video "http") (shows video "screenshare://")
             (shows video "fileshare://")).
    apply one_video.
  - apply countIf_bounds.
Qed.

(** X5.  The histogram of [getStats] has, for every size of a roster that
    occurs and is not zero, the number of the rooms of that size, and
    nothing else: no entry for the empty rooms and no entry of zero. *)
Theorem room_sizes_are_counted (rooms : list (string * Room)) (n : Z) :
  currentRoomSizeCounts (currentCounters video rooms) !! n =
  let k := countIf (fun e => rosterLength e.2 =? n) rooms in
  if (0 <? n) && (0 <? k) then Some k else None.
Proof.
  unfold currentCounters. simpl. rewrite loop_currentRoomSizeCounts.
  rewrite (foldl_bump (fun e : string * Room => sizeKey e.2)). simpl.
  rewrite lookup_empty. simpl.
  destruct (Z.ltb_spec 0 n) as [Hn|Hn]; simpl.
  - rewrite (countIf_ext _ (fun e => rosterLength e.2 =? n)); [done|].
    intros e. unfold sizeKey.
    destruct (Z.eqb_spec (rosterLength e.2) n) as [->|Hne].
    + replace (0 <? n) with true by (symmetry; by apply Z.ltb_lt).
      by apply bool_decide_eq_true_2.
    + apply bool_decide_eq_false_2. destruct (0 <? rosterLength e.2); congruence.
  - rewrite (countIf_ext _ (fun _ => false)).
    + by rewrite countIf_false.
    + intros e. apply bool_decide_eq_false_2. unfold sizeKey.
      destruct (Z.ltb_spec 0 (rosterLength e.2)); [|done].
      intros [= ?]. lia.
Qed.

Lemma createdBy_true (uid : string) (e : string * Room) :
  createdBy uid e = true ↔
  ∃ vb, vBrowser e.2 = Some vb ∧ VBrowser.creatorUID vb = str uid.
Proof.
  unfold createdBy. destruct (vBrowser e.2) as [vb|].
  - rewrite bool_decide_eq_true. split; [by exists vb | by intros (? & [= <-] & ?)].
  - split; [done | by intros (? & ? & _)].
Qed.

Lemma uidKey_Some (uid : string) (e : string * Room) :
  uidKey e.2 = Some uid ↔
  (uid ≠ "" ∧ uid ∉ inherited) ∧
  ∃ vb, vBrowser e.2 = Some vb ∧ VBrowser.creatorUID vb = str uid.
Proof.
  unfold uidKey. destruct (vBrowser e.2) as [vb|];
    [|split; [done | by intros (_ & ? & ? & _)]].
  destruct (VBrowser.creatorUID vb) as [| |s] eqn:Hs; simpl;
    [split; [done | intros (_ & ? & [= <-] & Hc); congruence]..|].
  destruct (String.eqb_spec s "") as [->|Hne]; simpl.
  - split; [done|]. intros ([Huid _] & ? & [= <-] & Hc).
    rewrite Hs in Hc. by injection Hc as <-.
  - destruct (decide (s ∈ inherited)) as [Hin|Hin].
    + rewrite bool_decide_eq_true_2 by done.
      split; [done|]. intros ([_ Hn] & ? & [= <-] & Hc).
      rewrite Hs in Hc. injection Hc as <-. done.
    + rewrite bool_decide_eq_false_2 by done. split.
      * intros [= <-]. split; [done|]. by exists vb.
      * intros (_ & ? & [= <-] & Hc). rewrite Hs in Hc. by injection Hc as <-.
Qed.

(** X6.  After the filter, [currentVBrowserUIDCounts] lists the users who
    created the sessions of more than one room, each with the number of
    these rooms, and nobody else: no user with one session, no session
    without a creator, and no user whose uid is a name that objects
    inherit. *)
Theorem users_with_several_sessions (rooms : list (string * Room))
  (uid : string) :
  currentVBrowserUIDCounts (currentCounters video rooms) !! uid =
  let k := countIf (createdBy uid) rooms in
  if bool_decide (uid ≠ "" ∧ uid ∉ inherited) && (1 <? k) then Some k else None.
Proof.
  unfold currentCounters. simpl.
  set (m := currentVBrowserUIDCounts (foldl (visit video) (start rooms) rooms)).
  assert (m !! uid =
          let c := countIf (fun e : string * Room =>
                              bool_decide (uidKey e.2 = Some uid)) rooms in
          if 0 <? c then Some c else None) as Hm.
  { subst m. rewrite loop_currentVBrowserUIDCounts.
    rewrite (foldl_bump (fun e : string * Room => uidKey e.2)). simpl.
    rewrite lookup_empty. simpl. by destruct (0 <? _). }
  assert (∀ e : string * Room,
            bool_decide (uidKey e.2 = Some uid) =
            bool_decide (uid ≠ "" ∧ uid ∉ inherited) && createdBy uid e) as Hkey.
  { intros e. apply Bool.eq_true_iff_eq.
    rewrite andb_true_iff, !bool_decide_eq_true.
    rewrite uidKey_Some, createdBy_true. tauto. }
  assert (countIf (fun e : string * Room => bool_decide (uidKey e.2 = Some uid))
            rooms =
          if bool_decide (uid ≠ "" ∧ uid ∉ inherited)
          then countIf (createdBy uid) rooms else 0) as Hcount.
  { destruct (bool_decide (uid ≠ "" ∧ uid ∉ inherited)) eqn:Hok.
    - apply countIf_ext. intros e. by rewrite Hkey.
    - rewrite (countIf_ext _ (fun _ => false)) by (intros e; by rewrite Hkey).
      apply countIf_false. }
  cbv zeta in Hm. rewrite Hcount in Hm. clear Hcount Hkey. cbv zeta.
  generalize dependent (countIf (createdBy uid) rooms). intros k Hm.
  destruct (bool_decide (uid ≠ "" ∧ uid ∉ inherited)); simpl.
  - destruct (Z.ltb_spec 1 k) as [Hgt|Hle].
    + apply map_lookup_filter_Some. split; [|done].
      rewrite Hm. by replace (0 <? k) with true by (symmetry; apply Z.ltb_lt; lia).
    + apply map_lookup_filter_None. right. intros x Hx. simpl.
      rewrite Hm in Hx. destruct (0 <? k); [|done]. injection Hx as <-. lia.
  - apply map_lookup_filter_None. left. by rewrite Hm.
Qed.

End Counters.

End StatsSpec.

(** ** More on the registry: the loaded rooms, the shards, the reclaimer *)

Module JsMapLaws.

Section Laws.
Context {V : Type}.
Implicit Types (m : list (string * V)) (key : string) (v : V).

Lemma get_map_eq m key v key' :
  JsMap.get key'
    (List.map (fun e => if String.eqb e.1 key then (key, v) else e) m) =
  if String.eqb key key' then (fun _ => v) <$> JsMap.get key' m
  else JsMap.get key' m.
Proof.
  induction m as [|[k x] m IH]; simpl; [by destruct (String.eqb key key')|].
  destruct (String.eqb_spec k key) as [->|Hne]; simpl.
  - destruct (String.eqb_spec key key') as [->|Hne']; [done | exact IH].
  - destruct (String.eqb_spec k key') as [->|Hne'].
    + by destruct (String.eqb_spec key key').
    + exact IH.
Qed.

Lemma get_app m1 m2 key :
  JsMap.get key (m1 ++ m2) =
  match JsMap.get key m1 with Some v => Some v | None => JsMap.get key m2 end.
Proof.
  induction m1 as [|[k x] m1 IH]; simpl; [done|].
  by destruct (String.eqb k key).
Qed.

(** What was set is found, and the other keys are as before. *)
Lemma get_set m key v key' :
  JsMap.get key' (JsMap.set key v m) =
  if String.eqb key key' then Some v else JsMap.get key' m.
Proof.
  unfold JsMap.set. destruct (JsMap.has key m) eqn:Hhas.
  - rewrite get_map_eq. destruct (String.eqb_spec key key') as [<-|_]; [|done].
    apply JsMapFacts.has_get in Hhas as [x ->]. done.
  - rewrite get_app. simpl.
    assert (JsMap.get key m = None) as Hnone.
    { destruct (JsMap.get key m) eqn:Hg; [|done].
      assert (JsMap.has key m = true) by (apply JsMapFacts.has_get; by eexists).
      congruence. }
    destruct (String.eqb_spec key key') as [<-|_].
    + by rewrite Hnone.
    + by destruct (JsMap.get key' m).
Qed.

Lemma keys_set m key v :
  (JsMap.set key v m).*1 = if JsMap.has key m then m.*1 else m.*1 ++ [key].
Proof.
  unfold JsMap.set. destruct (JsMap.has key m); [|by rewrite fmap_app].
  induction m as [|[k x] m IH]; [done|]. cbn [List.map]. rewrite !fmap_cons, IH.
  simpl. by destruct (String.eqb_spec k key) as [->|_].
Qed.

Lemma NoDup_set m key v : NoDup m.*1 → NoDup (JsMap.set key v m).*1.
Proof.
  intros Hnd. rewrite keys_set. destruct (JsMap.has key m) eqn:Hhas; [done|].
  apply NoDup_app. split; [done|]. split; [|apply NoDup_singleton].
  intros k Hk ->%list_elem_of_singleton.
  assert (JsMap.get key m = None) as Hnone.
  { destruct (JsMap.get key m) eqn:Hg; [|done].
    assert (JsMap.has key m = true) by (apply JsMapFacts.has_get; by eexists).
    congruence. }
  by apply JsMapFacts.get_None_keys in Hnone.
Qed.

Lemma has_false_get m key : JsMap.has key m = false ↔ JsMap.get key m = None.
Proof.
  pose proof (JsMapFacts.has_get m key) as [Hto Hfrom].
  destruct (JsMap.has key m), (JsMap.get key m) eqn:Hg; split; try done.
  - intros _. by destruct (Hto eq_refl).
  - intros _. exfalso. assert (false = true) by (apply Hfrom; by eexists). done.
Qed.

End Laws.

End JsMapLaws.

Module RegistryMore.

Import Js Server Runs.

Section Facts.

Context `{Env}.
Implicit Types (p q : Process) (e : string * Room).

(** *** The rooms [init] loads *)

Lemma forEach_loadRoom (rows : list PersistentRoom.t) p :
  forEach loadRoom rows p =
  (Normal tt,
   {| rooms :=
        foldl (fun m row =>
                 JsMap.set (PersistentRoom.roomId row)
                   (Room_new (PersistentRoom.roomId row) (PersistentRoom.data row)) m)
              (rooms p) rows;
      currBatch := currBatch p;
      calls := calls p |}).
Proof.
  revert p. induction rows as [|row rows IH]; intros p.
  - simpl. unfold ret. by destruct p.
  - cbn [forEach]. unfold bind, loadRoom at 1, modify. by rewrite IH.
Qed.

Lemma loaded_NoDup (rows : list PersistentRoom.t) (m : list (string * Room)) :
  NoDup m.*1 →
  NoDup (foldl (fun m row =>
                  JsMap.set (PersistentRoom.roomId row)
                    (Room_new (PersistentRoom.roomId row) (PersistentRoom.data row)) m)
               m rows).*1.
Proof.
  revert m. induction rows as [|row rows IH]; intros m Hnd; [done|].
  simpl. apply IH. by apply JsMapLaws.NoDup_set.
Qed.

Lemma lastRow_from (key : string) (rows : list PersistentRoom.t)
    (found : option PersistentRoom.t) :
  foldl (fun found row =>
           if String.eqb (PersistentRoom.roomId row) key then Some row else found)
        found rows =
  match lastRow key rows with Some row => Some row | None => found end.
Proof.
  unfold lastRow. revert found.
  induction rows as [|row rows IH]; intros found; [done|].
  simpl. rewrite IH. symmetry. rewrite IH.
  destruct (foldl _ None rows); [done|].
  by destruct (String.eqb _ key).
Qed.

Lemma loaded_get (rows : list PersistentRoom.t) (m : list (string * Room))
    (key : string) :
  JsMap.get key
    (foldl (fun m row =>
              JsMap.set (PersistentRoom.roomId row)
                (Room_new (PersistentRoom.roomId row) (PersistentRoom.data row)) m)
           m rows) =
  match lastRow key rows with
  | Some row => Some (Room_new key (PersistentRoom.data row))
  | None => JsMap.get key m
  end.
Proof.
  revert m. induction rows as [|row rows IH]; intros m; [done|].
  simpl. rewrite IH. unfold lastRow at 2. simpl. rewrite lastRow_from.
  destruct (lastRow key rows) as [r|]; [done|].
  rewrite JsMapLaws.get_set.
  by destruct (String.eqb_spec (PersistentRoom.roomId row) key) as [->|_].
Qed.

(** X7.  When the database answers the query of the start with [rows] and
    no call throws, [init] completes with a registry of distinct keys in
    which every id of a row is a key, the room under it made from the last
    row of that id, and in which [/default] is a key, with a fresh room
    when no row has that id; there is no other key.  The server listens
    and the timers run. *)
Theorem init_loads_rows (rows : list PersistentRoom.t) :
  postgres = true →
  selectRooms range = Normal rows →
  (∀ c, throws c = false) →
  ∃ p',
    init launch = (Normal tt, p') ∧
    NoDup (rooms p').*1 ∧
    (∀ key,
       JsMap.get key (rooms p') =
       match lastRow key rows with
       | Some row => Some (Room_new key (PersistentRoom.data row))
       | None =>
         if String.eqb key "/default" then Some (Room_new "/default" None)
         else None
       end) ∧
    calls p' = [listen;
                setInterval job_minuteMetrics (60 * 1000);
                setInterval job_release (30 * 1000);
                setInterval job_freeUnusedRooms (5 * 60 * 1000);
                saveRooms].
Proof.
  intros Hpg Hquery Hquiet.
  assert ((persistedRooms <- getAllRooms ;; forEach loadRoom persistedRooms) launch
          = forEach loadRoom rows launch) as Hload.
  { unfold bind, getAllRooms. by rewrite Hpg, Hquery. }
  unfold init. rewrite Hpg. unfold bind at 1. rewrite Hload, forEach_loadRoom.
  cbn [launch rooms currBatch calls].
  set (loaded := foldl _ _ rows).
  unfold bind at 1, getState. unfold bind at 1. cbn [rooms].
  assert (NoDup loaded.*1) as Hnd by (apply loaded_NoDup; constructor).
  assert (∀ key, JsMap.get key loaded =
                 match lastRow key rows with
                 | Some row => Some (Room_new key (PersistentRoom.data row))
                 | None => None
                 end) as Hget by (intros key; subst loaded; by rewrite loaded_get).
  destruct (JsMap.has "/default" loaded) eqn:Hhas; cbn [negb].
  - unfold ret, bind. cbv beta iota.
    repeat (rewrite RegistrySpec.call_quiet by done; cbv beta iota). simpl.
    eexists. split; [done|]. simpl. split; [done|]. split; [|done].
    intros key. rewrite Hget. destruct (lastRow key rows) eqn:Hrow; [done|].
    destruct (String.eqb_spec key "/default") as [->|_]; [|done].
    apply JsMapFacts.has_get in Hhas as [x Hx]. rewrite Hget, Hrow in Hx. done.
  - unfold modify, bind. cbv beta iota.
    repeat (rewrite RegistrySpec.call_quiet by done; cbv beta iota). simpl.
    eexists. split; [done|]. simpl. split; [by apply JsMapLaws.NoDup_set|].
    split; [|done].
    intros key. rewrite JsMapLaws.get_set, Hget.
    apply JsMapLaws.has_false_get in Hhas. rewrite Hget in Hhas.
    destruct (String.eqb_spec "/default" key) as [<-|Hne].
    + by destruct (lastRow "/default" rows).
    + destruct (String.eqb_spec key "/default") as [->|_]; done.
Qed.

(** *** The letters of the shards *)

Lemma letter_inj (i j : nat) :
  (i < 256)%nat → (j < 256)%nat → letter i = letter j → i = j.
Proof.
  intros Hi Hj [= Heq]. apply (f_equal Ascii.nat_of_ascii) in Heq.
  by rewrite !Ascii.nat_ascii_embedding in Heq.
Qed.

(** X22.  In a process with a shard of its own, when no app of the
    configuration has a shard, the remainder by [numShards] is no number
    and no letter is selected: the range of the query is [/()%]. *)
Theorem no_shard_no_letter (shard : Z) :
  numShards = 0 →
  SHARD = Some shard →
  selection shard = [] ∧ range = "/()%".
Proof.
  intros Hzero Hshard.
  assert (selection shard = []) as Hnone.
  { unfold selection. rewrite Hzero. simpl. by induction (seq 97 26). }
  split; [done|]. unfold range. by rewrite Hshard, Hnone.
Qed.

(** X8.  With [numShards] shards, every lower-case letter is selected by
    one shard, the shard [(i % numShards) + 1] of its code [i], which is
    one of [1 .. numShards], and by no other: the selections of the shards
    share no letter and leave none out. *)
Theorem letters_of_shards (i : nat) (shard : Z) :
  0 < numShards →
  (97 ≤ i < 123)%nat →
  (letter i ∈ selection shard ↔ shard = Z.of_nat i `mod` numShards + 1) ∧
  1 ≤ Z.of_nat i `mod` numShards + 1 ≤ numShards.
Proof.
  intros Hn Hi. split.
  - unfold selection. rewrite list_elem_of_omap. split.
    + intros (j & Hj & Hsel). apply elem_of_seq in Hj.
      destruct (negb (numShards =? 0) && (rem (Z.of_nat j) numShards + 1 =? shard))
        eqn:Hcond; [|done].
      injection Hsel as Heq.
      assert (j = i) as ->
        by (apply letter_inj; [lia | lia | unfold letter; by rewrite Heq]).
      apply andb_prop in Hcond as [_ Hshard]. apply Z.eqb_eq in Hshard.
      unfold rem in Hshard. rewrite Z.rem_mod_nonneg in Hshard by lia. done.
    + intros ->. exists i. split; [apply elem_of_seq; lia|].
      unfold rem. rewrite Z.rem_mod_nonneg by lia.
      rewrite Z.eqb_refl, andb_true_r.
      by replace (numShards =? 0) with false by (symmetry; apply Z.eqb_neq; lia).
  - pose proof (Z.mod_pos_bound (Z.of_nat i) numShards Hn). lia.
Qed.

(** *** The reclaimer *)

Lemma getAllRooms_state p c q : getAllRooms p = (c, q) → q = p.
Proof.
  unfold getAllRooms. destruct (negb postgres); by intros [= _ <-].
Qed.

Lemma getAllRooms_same p q : (getAllRooms q).1 = (getAllRooms p).1.
Proof. unfold getAllRooms. by destruct (negb postgres). Qed.

Lemma filter_filter {A} (f : A → bool) (l : list A) :
  List.filter f (List.filter f l) = List.filter f l.
Proof.
  induction l as [|x l IH]; [done|]. simpl.
  destruct (f x) eqn:Hf; simpl; [by rewrite Hf, IH | done].
Qed.

Lemma filter_none {A} (f : A → bool) (l : list A) :
  List.filter f (List.filter (fun x => negb (f x)) l) = [].
Proof.
  induction l as [|x l IH]; [done|]. simpl.
  destruct (f x) eqn:Hf; simpl; [done | by rewrite Hf].
Qed.

(** X9.  Without a database the reclaimer takes every id for missing: a
    pass over a registry of distinct keys, [destroy] returning, destroys
    and removes every room with an empty roster, the room [/default]
    among them, and leaves exactly the rooms with somebody in them. *)
Theorem freeUnusedRooms_without_database (p : Process) :
  postgres = false →
  NoDup (rooms p).*1 →
  (∀ key, throws (destroy key) = false) →
  ∃ p',
    freeUnusedRooms p = (Normal tt, p') ∧
    rooms p' = List.filter (fun e => negb (length (roster e.2) =? 0)%nat) (rooms p) ∧
    calls p' = calls p
               ++ ((fun e => destroy (roomId e.2))
                     <$> List.filter (fun e => (length (roster e.2) =? 0)%nat) (rooms p)) ∧
    (∀ e, e ∈ rooms p' → roster e.2 ≠ []) ∧
    (∀ room, ("/default", room) ∈ rooms p → roster room = [] →
             JsMap.get "/default" (rooms p') = None).
Proof.
  intros Hpg Hnd Hquiet.
  assert (getAllRooms p = (Normal [], p)) as Hfetch
    by (unfold getAllRooms; by rewrite Hpg).
  pose proof (RegistrySpec.freeUnusedRooms_fetched p [] Hnd Hfetch) as Hpass.
  cbv zeta in Hpass. simpl in Hpass.
  assert (∀ e : string * Room,
            removed ∅ e = (length (roster e.2) =? 0)%nat) as Hsame.
  { intros e. unfold removed, unused. rewrite Hquiet.
    rewrite bool_decide_eq_false_2 by apply not_elem_of_empty.
    by rewrite !andb_true_r. }
  rewrite (filter_ext _ _ Hsame) in Hpass.
  rewrite (filter_ext (fun e => negb (removed ∅ e))
             (fun e => negb (length (roster e.2) =? 0)%nat)) in Hpass
    by (intros e; by rewrite Hsame).
  eexists. split; [exact Hpass|]. simpl. split; [done|]. split; [done|]. split.
  - intros e [_ He]%list_elem_of_In%filter_In.
    by destruct (roster e.2).
  - intros room Hin Hempty. apply JsMapFacts.get_None_keys.
    intros (e & Hkey & He)%list_elem_of_fmap.
    apply list_elem_of_In, filter_In in He as [He Hocc].
    apply list_elem_of_In in He. destruct e as [k r]. simpl in *. subst k.
    pose proof (JsMapFacts.get_NoDup _ _ _ Hnd Hin) as H1.
    pose proof (JsMapFacts.get_NoDup _ _ _ Hnd He) as H2.
    rewrite H1 in H2. injection H2 as <-. by rewrite Hempty in Hocc.
Qed.

(** X10.  A pass of the reclaimer over a registry of distinct keys that
    follows another pass, the database answering the same and the same
    calls of [destroy] failing, leaves the registry and the calls made as
    the first pass left them, and ends as the first did: no further room
    is removed. *)
Theorem freeUnusedRooms_idempotent (p : Process) :
  NoDup (rooms p).*1 →
  freeUnusedRooms (freeUnusedRooms p).2 =
  ((freeUnusedRooms p).1, (freeUnusedRooms p).2).
Proof.
  intros Hnd. destruct (getAllRooms p) as [c q] eqn:Hfetch.
  pose proof (getAllRooms_state _ _ _ Hfetch) as ->.
  destruct c as [persisted| |code].
  - rewrite (RegistrySpec.freeUnusedRooms_fetched p persisted Hnd Hfetch).
    cbv zeta. simpl.
    set (p1 := {| rooms := _; currBatch := _; calls := _ |}).
    assert (getAllRooms p1 = (Normal persisted, p1)) as Hfetch1.
    { pose proof (getAllRooms_same p p1) as Hsame. rewrite Hfetch in Hsame.
      destruct (getAllRooms p1) as [c1 q1] eqn:Hg.
      pose proof (getAllRooms_state _ _ _ Hg) as ->. simpl in Hsame. by subst c1. }
    rewrite (RegistrySpec.freeUnusedRooms_fetched p1 persisted); [|subst p1; simpl|done].
    + cbv zeta. subst p1. simpl.
      rewrite filter_filter, filter_none. simpl. by rewrite app_nil_r.
    + by apply ReleaseFacts.filter_keys_NoDup.
  - assert (freeUnusedRooms p = (Throw, p)) as Hpass
      by (unfold freeUnusedRooms, bind; by rewrite Hfetch).
    by rewrite Hpass.
  - assert (freeUnusedRooms p = (Exit code, p)) as Hpass
      by (unfold freeUnusedRooms, bind; by rewrite Hfetch).
    by rewrite Hpass.
Qed.

End Facts.

Lemma init_loads_rows_witness :
  ∃ p',
    init (H := storedEnv) launch = (Normal tt, p') ∧
    NoDup (rooms p').*1 ∧
    (∀ key,
       JsMap.get key (rooms p') =
       match lastRow key
               [{| PersistentRoom.roomId := "/kept"; PersistentRoom.data := None |}] with
       | Some row => Some (Room_new (Env := storedEnv) key (PersistentRoom.data row))
       | None =>
         if String.eqb key "/default"
         then Some (Room_new (Env := storedEnv) "/default" None)
         else None
       end) ∧
    calls p' = [listen;
                setInterval job_minuteMetrics (60 * 1000);
                setInterval job_release (30 * 1000);
                setInterval job_freeUnusedRooms (5 * 60 * 1000);
                saveRooms].
Proof.
  apply (init_loads_rows (H := storedEnv)); [reflexivity | reflexivity |].
  intros c. reflexivity.
Defined.

(** The letter [c], of code 99, belongs to the first of three shards. *)
Lemma letters_of_shards_witness :
  ("c" ∈ selection (H := shardedEnv) 1 ↔ 1 = 99 `mod` 3 + 1) ∧
  1 ≤ 99 `mod` 3 + 1 ≤ 3.
Proof.
  apply (letters_of_shards (H := shardedEnv) 99 1); [reflexivity | lia].
Defined.

Lemma no_shard_no_letter_witness :
  selection (H := strayShardEnv) 1 = [] ∧ range (H := strayShardEnv) = "/()%".
Proof. apply (no_shard_no_letter (H := strayShardEnv) 1); reflexivity. Defined.

Lemma freeUnusedRooms_without_database_witness :
  let p := sweeping 0 [plainRoom "/default" []; plainRoom "/busy" [viewer];
                       plainRoom "/idle" []] in
  ∃ p',
    freeUnusedRooms (H := quietEnv) p = (Normal tt, p') ∧
    rooms p' = List.filter (fun e => negb (length (roster e.2) =? 0)%nat) (rooms p) ∧
    calls p' = calls p
               ++ ((fun e => destroy (roomId e.2))
                     <$> List.filter (fun e => (length (roster e.2) =? 0)%nat) (rooms p)) ∧
    (∀ e, e ∈ rooms p' → roster e.2 ≠ []) ∧
    (∀ room, ("/default", room) ∈ rooms p → roster room = [] →
             JsMap.get "/default" (rooms p') = None).
Proof.
  apply (freeUnusedRooms_without_database (H := quietEnv)).
  - reflexivity.
  - apply (bool_decide_unpack _). vm_compute. exact I.
  - intros key. reflexivity.
Defined.

Lemma freeUnusedRooms_idempotent_witness :
  let p := sweeping 0 [plainRoom "/busy" [viewer]; plainRoom "/idle" [];
                       plainRoom "/kept" []] in
  freeUnusedRooms (H := storedEnv) (freeUnusedRooms (H := storedEnv) p).2 =
  ((freeUnusedRooms (H := storedEnv) p).1, (freeUnusedRooms (H := storedEnv) p).2).
Proof.
  apply (freeUnusedRooms_idempotent (H := storedEnv)).
  apply (bool_decide_unpack _). vm_compute. exact I.
Defined.

(** After the pass without a database only the room with a viewer is
    left. *)
Example freeUnusedRooms_all_empty :
  freeUnusedRooms (H := quietEnv)
    (sweeping 0 [plainRoom "/default" []; plainRoom "/busy" [viewer];
                 plainRoom "/idle" []]) =
  (Normal tt,
   {| rooms := [plainRoom "/busy" [viewer]];
      currBatch := 0;
      calls := [destroy "/default"; destroy "/idle"] |}).
Proof. reflexivity. Qed.

End RegistryMore.

(** ** More on the release sweep *)

Module ReleaseMore.

Import Js Server Runs ReleaseFacts.

Section Facts.

Context `{Env}.
Implicit Types (now : Z) (room : Room) (p : Process) (e : string * Room).

(** X12.  Whatever the calls of a sweep do, over a registry of distinct
    keys: the sweep returns or throws and never ends the process; the keys
    of the registry are as before, in their order; the calls made before
    are kept and calls are added; [currBatch] is advanced when the sweep
    returns and kept when it throws; and every room is left as it was,
    unless it is of the batch being swept, holds a session, and has been
    stopped by [stopVBrowserInternal] in this sweep, in which case only
    its session is cleared. *)
Theorem release_touches_only_sessions (now : Z) (p : Process) :
  NoDup (rooms p).*1 →
  ∃ c p' tr,
    release now p = (c, p') ∧
    (c = Normal tt ∨ c = Throw) ∧
    (rooms p').*1 = (rooms p).*1 ∧
    calls p' = calls p ++ tr ∧
    currBatch p' = match c with
                   | Normal _ => nextBatch (currBatch p)
                   | _ => currBatch p
                   end ∧
    (∀ key room, (key, room) ∈ rooms p →
       (key, room) ∈ rooms p' ∨
       ((key, clearVBrowser room) ∈ rooms p' ∧
        inBatch (currBatch p) room = true ∧
        is_Some (vBrowser room) ∧
        stopVBrowserInternal (roomId room) ∈ tr)).
Proof.
  intros Hnd. destruct (release_visits now p Hnd)
    as (c & visited & rest & Harr & Hc & Hrel).
  eexists c, _, (flat_map (callsOf now) visited). split; [exact Hrel|].
  split; [done|]. simpl. split; [by rewrite evalKeys_keys|].
  split; [done|]. split; [done|].
  intros key room Hin.
  destruct (decide (key ∈ visited.*1)) as [Hkey|Hkey].
  - apply list_elem_of_fmap in Hkey as ([k room'] & Hk & Hvis). simpl in Hk. subst k.
    assert ((key, room') ∈ List.filter (fun e => inBatch (currBatch p) e.2) (rooms p))
      as Hbatch by (rewrite Harr; apply elem_of_app; by left).
    apply roomArr_elem in Hbatch as [Hin' Hbatch]. simpl in Hbatch.
    assert (room' = room) as -> by by apply (elem_unique (rooms p) key).
    pose proof (evalKeys_elem now visited.*1 (rooms p) (key, room) Hin) as Heval.
    unfold evalEntry in Heval. simpl in Heval.
    destruct (runRoom_shape now room) as [_ [[Hsame _]|(Hclear & Hsession & Hstop)]].
    + left. rewrite Hsame in Heval. apply Heval.
      apply list_elem_of_fmap. by exists (key, room).
    + right. rewrite Hclear in Heval. split; [|split; [done|split; [done|]]].
      * apply Heval. apply list_elem_of_fmap. by exists (key, room).
      * apply list_elem_of_In, in_flat_map. exists (key, room).
        split; [by apply list_elem_of_In | by apply list_elem_of_In].
  - left. by apply evalKeys_other.
Qed.

(** *** A session that is kept *)

(** X11.  For a room of the batch being swept that holds a session with a
    set [assignTime], when no call throws: if [ttl] is [0] or at least
    [releaseInterval], and the room is not both empty and idle for more
    than five minutes, the sweep leaves the session in the room; it adds
    the chat message [vBrowserAlmostTimeout], and makes no other call for
    the room, when [ttl] is below twice [releaseInterval] and not [0],
    and it makes no call for the room otherwise.  A session whose [ttl] is
    exactly [0] is neither ended nor warned of. *)
Theorem release_keeps_session (now : Z) (p : Process) (key : string)
  (room : Room) (vb : VBrowser.t) (assignTime : Z) :
  NoDup (rooms p).*1 →
  (∀ c, throws c = false) →
  (key, room) ∈ rooms p →
  inBatch (currBatch p) room = true →
  vBrowser room = Some vb →
  VBrowser.assignTime vb = Some assignTime →
  assignTime ≠ 0 →
  ttlOf now (VBrowser.large vb) assignTime = 0
  ∨ releaseInterval ≤ ttlOf now (VBrowser.large vb) assignTime →
  roster room ≠ [] ∨ now - lastUpdateTime room ≤ 5 * 60 * 1000 →
  ∃ p' tr before after,
    release now p = (Normal tt, p') ∧
    JsMap.get key (rooms p') = Some room ∧
    calls p' = calls p ++ before ++ tr ++ after ∧
    runRoom now room = (Normal tt, {| self := room; trace := tr |}) ∧
    (ttlOf now (VBrowser.large vb) assignTime ≠ 0 →
     ttlOf now (VBrowser.large vb) assignTime < releaseInterval * 2 →
     tr = almostTimedOutCalls room) ∧
    (ttlOf now (VBrowser.large vb) assignTime = 0
     ∨ releaseInterval * 2 ≤ ttlOf now (VBrowser.large vb) assignTime →
     tr = []).
Proof.
  intros Hnd Hquiet Hin Hbatch Hvb Hassign Hset Httl Hbusy.
  destruct (release_room_in_batch now p key room)
    as (p' & before & after & Hrel & Hget & Hcalls); try done.
  assert (ttlBelow (ttlOf now (VBrowser.large vb) assignTime) releaseInterval = false)
    as Ht by by apply ttlBelow_false.
  assert ((length (roster room) =? 0)%nat
          && (now - lastUpdateTime room >? 5 * 60 * 1000) = false) as Hidle.
  { apply andb_false_iff. destruct Hbusy as [Hroster|Hrecent].
    - left. apply Nat.eqb_neq. by destruct (roster room).
    - right. rewrite Z.gtb_ltb. apply Z.ltb_ge. lia. }
  pose proof (runRoom_kept now room vb assignTime Hvb Hassign Hset Hquiet Ht Hidle)
    as Hrun.
  rewrite Hrun in Hget, Hcalls. simpl in Hget, Hcalls.
  eexists p', _, before, after.
  split; [done|]. split; [done|]. split; [exact Hcalls|]. split; [exact Hrun|].
  split.
  - intros Hne Hlt.
    assert (ttlBelow (ttlOf now (VBrowser.large vb) assignTime) (releaseInterval * 2)
            = true) as -> by by apply ttlBelow_true.
    done.
  - intros Hno.
    assert (ttlBelow (ttlOf now (VBrowser.large vb) assignTime) (releaseInterval * 2)
            = false) as -> by by apply ttlBelow_false.
    done.
Qed.

(** *** Sweeps in a row *)

(** A sweep no call of which throws, seen from one room. *)
Lemma release_quiet_room now p key room :
  NoDup (rooms p).*1 → (∀ c, throws c = false) →
  JsMap.get key (rooms p) = Some room →
  ∃ p',
    release now p = (Normal tt, p') ∧
    NoDup (rooms p').*1 ∧
    currBatch p' = nextBatch (currBatch p) ∧
    JsMap.get key (rooms p') =
      Some (if inBatch (currBatch p) room then self (runRoom now room).2 else room) ∧
    (∀ c, c ∈ calls p → c ∈ calls p') ∧
    (inBatch (currBatch p) room = true →
     ∀ c, c ∈ trace (runRoom now room).2 → c ∈ calls p').
Proof.
  intros Hnd Hquiet Hget. eexists. split.
  { apply release_completes; [done|]. intros e _. by apply runRoom_quiet. }
  simpl. split; [by rewrite evalKeys_keys|]. split; [done|].
  pose proof (JsMapFacts.get_Some_elem _ _ _ Hget) as Hin.
  split; [|split].
  - rewrite (get_evalKeys now _ _ key room) by done. f_equal.
    destruct (inBatch (currBatch p) room) eqn:Hbatch.
    + rewrite bool_decide_eq_true_2; [done|].
      apply list_elem_of_fmap. exists (key, room). split; [done|].
      by apply roomArr_elem.
    + rewrite bool_decide_eq_false_2; [done|].
      intros ([k room'] & Hk & Harr)%list_elem_of_fmap. simpl in Hk. subst k.
      apply roomArr_elem in Harr as [Hin' Hbatch']. simpl in Hbatch'.
      assert (room' = room) as -> by by apply (elem_unique (rooms p) key).
      congruence.
  - intros c Hc. apply elem_of_app. by left.
  - intros Hbatch c Hc. apply elem_of_app. right.
    apply list_elem_of_In, in_flat_map. exists (key, room).
    split; apply list_elem_of_In; [by apply roomArr_elem | done].
Qed.

(** A room without a session stays as it is through any sweeps. *)
Lemma sweeps_no_session nows p key room :
  NoDup (rooms p).*1 → (∀ c, throws c = false) →
  JsMap.get key (rooms p) = Some room → vBrowser room = None →
  ∃ p',
    sweeps nows p = (Normal tt, p') ∧
    JsMap.get key (rooms p') = Some room ∧
    (∀ c, c ∈ calls p → c ∈ calls p').
Proof.
  intros Hnd Hquiet Hget Hnone. revert p Hnd Hget.
  induction nows as [|now nows IH]; intros p Hnd Hget.
  - exists p. by split.
  - destruct (release_quiet_room now p key room Hnd Hquiet Hget)
      as (p1 & Hrel & Hnd1 & _ & Hget1 & Hcalls1 & _).
    rewrite (runRoom_no_session now room Hnone) in Hget1. simpl in Hget1.
    assert (JsMap.get key (rooms p1) = Some room) as Hget1'
      by (rewrite Hget1; by destruct (inBatch _ _)).
    destruct (IH p1 Hnd1 Hget1') as (p' & Hrest & Hget' & Hcalls').
    exists p'. unfold sweeps in *. cbn [forEach]. unfold bind. rewrite Hrel.
    split; [done|]. split; [done|]. intros c Hc. by apply Hcalls', Hcalls1.
Qed.

(** X13.  Provided [hashString] gives no negative number and no call
    throws: a session that every sweep would find past its limit, [ttl]
    below [releaseInterval] and not [0], is ended by [releaseBatches]
    sweeps in a row, from whichever batch they start: after them the
    session of the room is cleared and [stopVBrowserInternal] has been
    called for the room. *)
Theorem timed_out_session_is_released (nows : list Z) (p : Process)
  (key : string) (room : Room) (vb : VBrowser.t) (assignTime : Z) :
  NoDup (rooms p).*1 →
  (∀ c, throws c = false) →
  (∀ s, 0 ≤ hashString s) →
  0 ≤ currBatch p < releaseBatches →
  (key, room) ∈ rooms p →
  vBrowser room = Some vb →
  VBrowser.assignTime vb = Some assignTime →
  assignTime ≠ 0 →
  length nows = Z.to_nat releaseBatches →
  Forall (fun now => ttlOf now (VBrowser.large vb) assignTime ≠ 0
                     ∧ ttlOf now (VBrowser.large vb) assignTime < releaseInterval)
         nows →
  ∃ p',
    sweeps nows p = (Normal tt, p') ∧
    JsMap.get key (rooms p') = Some (clearVBrowser room) ∧
    stopVBrowserInternal (roomId room) ∈ calls p'.
Proof.
  intros Hnd Hquiet Hhash Hbatch Hin Hvb Hassign Hset Hlen Hpast.
  apply (JsMapFacts.get_NoDup _ _ _ Hnd) in Hin.
  set (b := hashString (roomId room) `mod` 10).
  assert (0 ≤ b < 10) as Hb by by apply Z.mod_pos_bound.
  assert (∀ c, 0 ≤ c < 10 → inBatch c room = true ↔ b = c) as Hsel.
  { intros c Hc. unfold inBatch, rem, releaseBatches.
    rewrite Z.rem_mod_nonneg by (done || lia). by rewrite Z.eqb_eq. }
  assert (((b - currBatch p) `mod` 10 < Z.of_nat (length nows))) as Hdist.
  { rewrite Hlen. unfold releaseBatches.
    pose proof (Z.mod_pos_bound (b - currBatch p) 10). lia. }
  clear Hlen. unfold releaseBatches in Hbatch.
  revert p Hnd Hbatch Hin Hdist.
  induction Hpast as [|now nows [Hne Hlt] Hpast IH]; intros p Hnd Hbatch Hin Hdist.
  - simpl in Hdist. pose proof (Z.mod_pos_bound (b - currBatch p) 10). lia.
  - destruct (release_quiet_room now p key room Hnd Hquiet Hin)
      as (p1 & Hrel & Hnd1 & Hnext & Hget1 & Hcalls1 & Htrace1).
    unfold sweeps in *. cbn [forEach]. unfold bind. rewrite Hrel.
    destruct (inBatch (currBatch p) room) eqn:Hhere.
    + rewrite (runRoom_timed_out now room vb assignTime) in Hget1, Htrace1
        by (done || by apply ttlBelow_true).
      simpl in Hget1, Htrace1.
      destruct (sweeps_no_session nows p1 key (clearVBrowser room))
        as (p' & Hrest & Hget' & Hcalls'); try done.
      exists p'. unfold sweeps in Hrest. split; [done|]. split; [done|].
      apply Hcalls', Htrace1; [done|]. apply list_elem_of_here.
    + assert (b ≠ currBatch p) as Hother.
      { intros Heq. apply Hsel in Heq; [congruence | done]. }
      apply IH; [done| | |].
      * rewrite Hnext. unfold nextBatch, rem, releaseBatches.
        rewrite Z.rem_mod_nonneg by lia. by apply Z.mod_pos_bound.
      * done.
      * rewrite Hnext. unfold nextBatch, rem, releaseBatches.
        rewrite Z.rem_mod_nonneg by lia.
        rewrite batch_distance by done.
        cbn [length] in Hdist. lia.
Qed.

End Facts.

Lemma release_touches_only_sessions_witness :
  let p := sweeping 4 [roomWith "/abc" [viewer] lastMinute someday;
                       plainRoom "/idle" []] in
  ∃ c p' tr,
    release (H := faultyEnv chatDown) someday p = (c, p') ∧
    (c = Normal tt ∨ c = Throw) ∧
    (rooms p').*1 = (rooms p).*1 ∧
    calls p' = calls p ++ tr ∧
    currBatch p' = match c with
                   | Normal _ => nextBatch (currBatch p)
                   | _ => currBatch p
                   end ∧
    (∀ key room, (key, room) ∈ rooms p →
       (key, room) ∈ rooms p' ∨
       ((key, clearVBrowser room) ∈ rooms p' ∧
        inBatch (H := faultyEnv chatDown) (currBatch p) room = true ∧
        is_Some (vBrowser room) ∧
        stopVBrowserInternal (roomId room) ∈ tr)).
Proof.
  intros p. apply (release_touches_only_sessions (H := faultyEnv chatDown)).
  apply (bool_decide_unpack _). vm_compute. exact I.
Defined.

(** A session with six minutes left in a room with a viewer is warned
    of, and kept. *)
Lemma release_keeps_session_witness :
  let e := roomWith "/abc" [viewer] (someday - (10800 * 1000 - 6 * 60 * 1000)) someday in
  ∃ p' tr before after,
    release (H := quietEnv) someday (sweeping 4 [e]) = (Normal tt, p') ∧
    JsMap.get "/abc" (rooms p') = Some e.2 ∧
    calls p' = [] ++ before ++ tr ++ after ∧
    runRoom (H := quietEnv) someday e.2 = (Normal tt, {| self := e.2; trace := tr |}) ∧
    (ttlOf (H := quietEnv) someday false (someday - (10800 * 1000 - 6 * 60 * 1000)) ≠ 0 →
     ttlOf (H := quietEnv) someday false (someday - (10800 * 1000 - 6 * 60 * 1000))
       < releaseInterval * 2 →
     tr = almostTimedOutCalls e.2) ∧
    (ttlOf (H := quietEnv) someday false (someday - (10800 * 1000 - 6 * 60 * 1000)) = 0
     ∨ releaseInterval * 2
       ≤ ttlOf (H := quietEnv) someday false (someday - (10800 * 1000 - 6 * 60 * 1000)) →
     tr = []).
Proof.
  intros e.
  apply (release_keeps_session (H := quietEnv) someday (sweeping 4 [e]) "/abc" e.2
           (session (someday - (10800 * 1000 - 6 * 60 * 1000)) "uid1")
           (someday - (10800 * 1000 - 6 * 60 * 1000))).
  - apply (bool_decide_unpack _). vm_compute. exact I.
  - intros c. reflexivity.
  - apply list_elem_of_here.
  - reflexivity.
  - reflexivity.
  - reflexivity.
  - vm_compute. discriminate.
  - right. vm_compute. discriminate.
  - left. discriminate.
Defined.

(** The instants of ten sweeps, thirty seconds apart. *)
Lemma timed_out_session_is_released_witness :
  let nows := (fun i : nat => someday + 1 + 30000 * Z.of_nat i) <$> seq 0 10 in
  let e := roomWith "/abc" [viewer] (someday - (10800 * 1000 - 5 * 60 * 1000)) someday in
  ∃ p',
    sweeps (H := quietEnv) nows (sweeping 5 [plainRoom "/idle" []; e]) = (Normal tt, p') ∧
    JsMap.get "/abc" (rooms p') = Some (clearVBrowser e.2) ∧
    stopVBrowserInternal "/abc" ∈ calls p'.
Proof.
  intros nows e.
  apply (timed_out_session_is_released (H := quietEnv) nows
           (sweeping 5 [plainRoom "/idle" []; e]) "/abc" e.2
           (session (someday - (10800 * 1000 - 5 * 60 * 1000)) "uid1")
           (someday - (10800 * 1000 - 5 * 60 * 1000))).
  - apply (bool_decide_unpack _). vm_compute. exact I.
  - intros c. reflexivity.
  - intros s. simpl. lia.
  - simpl. unfold releaseBatches. lia.
  - apply list_elem_of_further, list_elem_of_here.
  - reflexivity.
  - reflexivity.
  - vm_compute. discriminate.
  - reflexivity.
  - repeat constructor; vm_compute; discriminate.
Defined.

(** Ten sweeps from batch 5 on end the session of a room of batch 4, at
    the tenth. *)
Example sweeps_example :
  let nows := (fun i : nat => someday + 1 + 30000 * Z.of_nat i) <$> seq 0 10 in
  let e := roomWith "/abc" [viewer] (someday - (10800 * 1000 - 5 * 60 * 1000)) someday in
  sweeps (H := quietEnv) nows (sweeping 5 [e]) =
  (Normal tt,
   {| rooms := [("/abc", clearVBrowser e.2)];
      currBatch := 5;
      calls := timedOutCalls e.2 |}).
Proof. reflexivity. Qed.

End ReleaseMore.

(** ** More on the renewal of the locks *)

Module MetricsMore.

Import Js Server Runs.

Section Facts.

Context `{Env}.
Implicit Types (p q : Process) (c : Call) (room : Room).

Lemma commands_app (l1 l2 : list Call) q :
  commands (l1 ++ l2) q = (commands l1 ;; commands l2) q.
Proof.
  unfold commands. revert q. induction l1 as [|c l1 IH]; intros q; [done|].
  cbn [app forEach]. unfold bind in *. destruct (call c q) as [[[]| |] q1]; [|done|done].
  by rewrite IH.
Qed.

(** Commands none of which throws are all made. *)
Lemma commands_quiet (l : list Call) q :
  (∀ c, c ∈ l → throws c = false) →
  commands l q =
  (Normal tt, {| rooms := rooms q; currBatch := currBatch q; calls := calls q ++ l |}).
Proof.
  unfold commands. revert q. induction l as [|c l IH]; intros q Hquiet.
  - simpl. unfold ret. rewrite app_nil_r. by destruct q.
  - cbn [forEach]. unfold bind, call at 1.
    rewrite (Hquiet c) by apply list_elem_of_here.
    rewrite IH by (intros x Hx; by apply Hquiet, list_elem_of_further).
    simpl. by rewrite <- app_assoc.
Qed.

(** The first command that throws ends them. *)
Lemma commands_throw (before : list Call) c (after : list Call) q :
  (∀ x, x ∈ before → throws x = false) → throws c = true →
  commands (before ++ c :: after) q =
  (Throw, {| rooms := rooms q; currBatch := currBatch q; calls := calls q ++ before |}).
Proof.
  intros Hquiet Hthrow. rewrite commands_app. unfold bind.
  rewrite commands_quiet by done.
  unfold commands. cbn [forEach]. unfold bind, call. simpl. by rewrite Hthrow.
Qed.

(** A run of commands, whatever throws. *)
Lemma commands_shape (l : list Call) q :
  ∃ r made rest,
    commands l q =
    (r, {| rooms := rooms q; currBatch := currBatch q; calls := calls q ++ made |}) ∧
    (r = Normal tt ∨ r = Throw) ∧ l = made ++ rest.
Proof.
  unfold commands. revert q. induction l as [|c l IH]; intros q.
  - exists (Normal tt), [], []. simpl. unfold ret. rewrite app_nil_r.
    split; [by destruct q|]. split; [by left | done].
  - cbn [forEach]. unfold bind, call at 1. destruct (throws c).
    + exists Throw, [], (c :: l). rewrite app_nil_r.
      split; [by destruct q|]. split; [by right | done].
    + destruct (IH {| rooms := rooms q; currBatch := currBatch q;
                      calls := calls q ++ [c] |})
        as (r & made & rest & -> & Hr & ->).
      exists r, (c :: made), rest. simpl. rewrite <- app_assoc.
      split; [done|]. by split.
Qed.

(** With Redis, the commands of a room are those of [renewalCalls], in
    their order, up to the first that throws. *)
Lemma minuteMetricsRoom_commands room q :
  redis = true → minuteMetricsRoom room q = commands (renewalCalls room) q.
Proof.
  intros Hredis. unfold minuteMetricsRoom, renewalCalls, redisCall, commands.
  rewrite Hredis.
  destruct (vBrowser room) as [vb|]; [|done].
  destruct (truthy (VBrowser.id vb)); [|done].
  destruct (truthy (VBrowser.creatorClientID vb)),
           (truthy (VBrowser.creatorUID vb)); simpl;
    unfold bind, call, ret;
    repeat (case_match; simpl in *; simplify_eq); try done;
    by destruct q.
Qed.

Lemma forEach_minuteMetricsRoom_commands (arr : list (string * Room)) q :
  redis = true →
  forEach (fun e => minuteMetricsRoom e.2) arr q =
  commands (flat_map renewalCalls arr.*2) q.
Proof.
  intros Hredis. revert q. induction arr as [|e arr IH]; intros q; [done|].
  cbn [forEach]. rewrite fmap_cons. cbn [flat_map]. rewrite commands_app.
  unfold bind. rewrite minuteMetricsRoom_commands by done.
  destruct (commands (renewalCalls e.2) q) as [[[]| |] q1]; [|done|done].
  apply IH.
Qed.

(** Without Redis nothing is done. *)
Lemma forEach_minuteMetricsRoom_no_redis (arr : list (string * Room)) q :
  redis = false → forEach (fun e => minuteMetricsRoom e.2) arr q = (Normal tt, q).
Proof.
  intros Hredis. revert q. induction arr as [|e arr IH]; intros q; [done|].
  cbn [forEach]. unfold bind.
  assert (minuteMetricsRoom e.2 q = (Normal tt, q)) as ->.
  { unfold minuteMetricsRoom, redisCall. rewrite Hredis.
    destruct (vBrowser e.2) as [vb|]; [|done].
    destruct (truthy (VBrowser.id vb)); [|done].
    unfold bind, ret.
    by destruct (truthy (VBrowser.creatorClientID vb)),
                (truthy (VBrowser.creatorUID vb)). }
  apply IH.
Qed.

(** X14.  A run of [minuteMetrics] returns or throws and never ends the
    process; it leaves the registry and [currBatch] as they are; the calls
    it adds are the first of the commands of the rooms, in the order of
    the registry; and without Redis it returns having made no call. *)
Theorem minuteMetrics_reads_only (p : Process) :
  ∃ r made rest,
    minuteMetrics p =
    (r, {| rooms := rooms p; currBatch := currBatch p; calls := calls p ++ made |}) ∧
    (r = Normal tt ∨ r = Throw) ∧
    flat_map renewalCalls (rooms p).*2 = made ++ rest ∧
    (redis = false → r = Normal tt ∧ made = []).
Proof.
  unfold minuteMetrics, bind, getState. destruct redis eqn:Hredis.
  - rewrite forEach_minuteMetricsRoom_commands by done.
    destruct (commands_shape (flat_map renewalCalls (rooms p).*2) p)
      as (r & made & rest & Hrun & Hr & Hsplit).
    exists r, made, rest. by repeat split.
  - rewrite forEach_minuteMetricsRoom_no_redis by done.
    exists (Normal tt), [], (flat_map renewalCalls (rooms p).*2).
    rewrite app_nil_r. split; [by destruct p|]. by repeat split; try left.
Qed.

(** X15.  With Redis, the commands of a run of [minuteMetrics] are not
    guarded: the first command that throws ends the run with its
    exception, the commands before it made and none after it, so that the
    locks of the sessions that come later in the registry are not renewed
    by this run. *)
Theorem minuteMetrics_stops_at_first_failure (p : Process)
  (before : list Call) (c : Call) (after : list Call) :
  redis = true →
  flat_map renewalCalls (rooms p).*2 = before ++ c :: after →
  (∀ x, x ∈ before → throws x = false) →
  throws c = true →
  minuteMetrics p =
  (Throw, {| rooms := rooms p; currBatch := currBatch p; calls := calls p ++ before |}).
Proof.
  intros Hredis Hsplit Hquiet Hthrow. unfold minuteMetrics, bind, getState.
  rewrite forEach_minuteMetricsRoom_commands by done.
  rewrite Hsplit. by apply commands_throw.
Qed.

End Facts.

Lemma minuteMetrics_stops_at_first_failure_witness :
  let p := sweeping 0 [roomWith "/a" [viewer] lastMinute someday;
                       roomWith "/b" [viewer] lastMinute someday] in
  minuteMetrics (H := faultyEnv uidLockDown) p =
  (Throw,
   {| rooms := rooms p;
      currBatch := currBatch p;
      calls := calls p ++ [expire "lock:Hetzner:vm1" 300] |}).
Proof.
  intros p.
  eapply (minuteMetrics_stops_at_first_failure (H := faultyEnv uidLockDown) p
            [expire "lock:Hetzner:vm1" 300] (expire "vBrowserUIDLock:uid1" 120)).
  - reflexivity.
  - reflexivity.
  - intros x Hx. apply list_elem_of_singleton in Hx. subst x. reflexivity.
  - reflexivity.
Defined.

End MetricsMore.

(** ** More on the subscriber reconciliation *)

Module SyncSubsMore.

Import Js JsLaws SyncSubs SyncSubsFacts Passes.

Lemma append_nil_r (s : string) : s +:+ "" = s.
Proof.
  induction s as [|a s IH]; [done|].
  change (String a s +:+ "") with (String a (s +:+ "")). by rewrite IH.
Qed.

Lemma append_assoc (a b c : string) : (a +:+ b) +:+ c = a +:+ (b +:+ c).
Proof.
  induction a as [|x a IH]; [done|].
  change (String x ((a +:+ b) +:+ c) = String x (a +:+ (b +:+ c))). by rewrite IH.
Qed.

Lemma concat_cons (x : string) (xs : list string) :
  String.concat "" (x :: xs) = x +:+ String.concat "" xs.
Proof. destruct xs; cbn [String.concat]; by rewrite ?append_nil_r. Qed.

Section Facts.

Context `{Env}.
Implicit Types (w : Providers) (p q : Process) (d : Database)
  (rows : list Subscriber.t) (hash : string).

(** *** The digest *)

Lemma updateAll_concat hash rows :
  (∀ row, row ∈ rows → ∃ uid, Subscriber.uid row = str uid) →
  updateAll hash rows =
  Normal (hash +:+ String.concat "" (toString <$> (Subscriber.uid <$> rows))).
Proof.
  revert hash. induction rows as [|row rows IH]; intros hash Hstr.
  - simpl. by rewrite append_nil_r.
  - destruct (Hstr row) as [uid Huid]; [apply list_elem_of_here|].
    rewrite !fmap_cons, concat_cons. cbn [updateAll]. rewrite Huid. simpl.
    rewrite IH by (intros r Hr; by apply Hstr, list_elem_of_further).
    by rewrite append_assoc.
Qed.

Lemma result_uids w :
  (∀ v, v ∈ resolvedUids w → ∃ uid, v = str uid) →
  ∀ row, row ∈ result w → ∃ uid, Subscriber.uid row = str uid.
Proof.
  intros Hstr row Hrow. apply Hstr. unfold resolvedUids.
  by apply list_elem_of_fmap_2.
Qed.

(** *** The statements of the upsert *)

Lemma forEach_pairs w rows (k : M Process unit) p :
  (forEach (fun row =>
              query w (INSERT_subscriber row) ;;
              query w (UPDATE_room_SET_isSubRoom_true_WHERE_owner (Subscriber.uid row)))
           rows ;; k) p =
  (forEach (query w)
           (flat_map (fun row =>
                        [INSERT_subscriber row;
                         UPDATE_room_SET_isSubRoom_true_WHERE_owner (Subscriber.uid row)])
                     rows) ;; k) p.
Proof.
  revert p. induction rows as [|row rows IH]; intros p; [done|].
  cbn [forEach flat_map app]. unfold bind in *.
  destruct (query w (INSERT_subscriber row) p) as [[[]| |] p1]; [|done|done].
  destruct (query w _ p1) as [[[]| |] p2]; [|done|done].
  apply IH.
Qed.

(** The upsert sends the statements of [queriesOf] one after the other. *)
Lemma upsert_queries w p : upsert w p = forEach (query w) (queriesOf (result w)) p.
Proof.
  unfold upsert, queriesOf. cbn [app forEach].
  do 3 (apply bind_ext; intros _ ?).
  rewrite forEach_pairs, forEach_app.
  apply bind_ext. intros _ q. cbn [forEach]. unfold bind, ret.
  by destruct (query w COMMIT q) as [[[]| |] q1].
Qed.

Lemma complete_keeps x p :
  queries (complete x p) = queries p ++ [x] ∧
  lastSubsDigest (complete x p) = lastSubsDigest p ∧
  (is_Some (transaction p) ∨ x = BEGIN_TRANSACTION → x ≠ COMMIT →
   db (complete x p) = db p ∧ is_Some (transaction (complete x p))).
Proof.
  unfold complete. destruct x, (transaction p) as [d|]; simpl;
    (split; [done|]); (split; [done|]); intros [[? ?]|?] ?; try done;
    by (split; [|eexists]).
Qed.

(** A run of statements, whatever throws. *)
Lemma queries_shape w (l : list Query) p :
  ∃ c made rest q,
    forEach (query w) l p = (c, q) ∧ l = made ++ rest ∧
    queries q = queries p ++ made ∧ lastSubsDigest q = lastSubsDigest p ∧
    ((c = Normal tt ∧ rest = []) ∨ (c = Throw ∧ rest ≠ [])) ∧
    (is_Some (transaction p) ∨ head l = Some BEGIN_TRANSACTION →
     COMMIT ∉ made → db q = db p).
Proof.
  revert p. induction l as [|x l IH]; intros p.
  - exists (Normal tt), [], [], p. simpl. unfold ret. rewrite app_nil_r.
    repeat split; try done. by left.
  - cbn [forEach]. unfold bind, query at 1.
    destruct (queryThrows w (view p) x).
    + exists Throw, [], (x :: l), p. rewrite app_nil_r.
      repeat split; try done. by right.
    + destruct (IH (complete x p))
        as (c & made & rest & q & -> & -> & Hq & Hlast & Hc & Hdb).
      destruct (complete_keeps x p) as (Hq1 & Hlast1 & Hdb1).
      exists c, (x :: made), rest, q. split; [done|]. split; [done|].
      split; [by rewrite Hq, Hq1, <- app_assoc|].
      split; [by rewrite Hlast|]. split; [done|].
      intros Htx [Hx Hmade]%not_elem_of_cons.
      destruct Hdb1 as [Hdb1 Htx1]; [|done|].
      { destruct Htx as [?|[= ?]]; [by left | by right]. }
      rewrite Hdb by (by left || done). done.
Qed.

Lemma commit_last (pre made rest : list Query) :
  COMMIT ∉ pre → pre ++ [COMMIT] = made ++ rest → rest ≠ [] → COMMIT ∉ made.
Proof.
  intros Hpre Hsplit Hrest.
  destruct (exists_last Hrest) as (rest' & x & ->).
  rewrite app_assoc in Hsplit. apply app_inj_tail in Hsplit as [-> _].
  intros Hin. apply Hpre, elem_of_app. by left.
Qed.

Lemma commit_not_before rows :
  COMMIT ∉ [BEGIN_TRANSACTION; DELETE_FROM_subscriber; UPDATE_room_SET_isSubRoom_false]
           ++ flat_map (fun row =>
                          [INSERT_subscriber row;
                           UPDATE_room_SET_isSubRoom_true_WHERE_owner
                             (Subscriber.uid row)])
                       rows.
Proof.
  rewrite elem_of_app, !elem_of_cons.
  intros [[?|[?|[?|?%not_elem_of_nil]]]|Hin]; try done.
  apply list_elem_of_In, in_flat_map in Hin as (row & _ & Hin).
  apply list_elem_of_In in Hin.
  rewrite !elem_of_cons in Hin. destruct Hin as [?|[?|?%not_elem_of_nil]]; done.
Qed.

(** An upsert, whatever throws: it returns, all its statements made, or
    it throws, the transaction not committed. *)
Lemma upsert_shape w p :
  ∃ c made rest q,
    upsert w p = (c, q) ∧ queriesOf (result w) = made ++ rest ∧
    queries q = queries p ++ made ∧ lastSubsDigest q = lastSubsDigest p ∧
    ((c = Normal tt ∧ rest = []) ∨
     (c = Throw ∧ rest ≠ [] ∧ (COMMIT ∉ made) ∧ db q = db p)).
Proof.
  rewrite upsert_queries.
  destruct (queries_shape w (queriesOf (result w)) p)
    as (c & made & rest & q & Hrun & Hsplit & Hq & Hlast & Hc & Hdb).
  exists c, made, rest, q. split; [done|]. split; [done|]. split; [done|].
  split; [done|]. destruct Hc as [Hc|[-> Hrest]]; [by left|]. right.
  split; [done|]. split; [done|].
  assert (COMMIT ∉ made) as Hmade.
  { apply (commit_last _ made rest (commit_not_before (result w))); [|done].
    rewrite <- Hsplit. unfold queriesOf. by rewrite <- app_assoc. }
  split; [done|]. apply Hdb; [by right | done].
Qed.

(** X16.  When a pass ends the process, it ends it with the code [1],
    for a statement of the upsert that threw: the credentials are set and
    the digest of the pass differs from the stored one; the statements
    before the failing one have been sent, [COMMIT] not among them, so
    that the rows committed are as before the pass; and the digest of the
    pass has not been stored. *)
Theorem failed_upsert_exits (w : Providers) (p p' : Process) (code : Z) :
  syncSubscribers w p = (Exit code, p') →
  code = 1 ∧
  configured ∧
  (∃ digest, currentSubsDigest w = Normal digest ∧ lastSubsDigest p ≠ str digest) ∧
  (∃ made rest,
     queriesOf (result w) = made ++ rest ∧ rest ≠ [] ∧ (COMMIT ∉ made) ∧
     queries p' = queries p ++ made) ∧
  db p' = db p ∧
  lastSubsDigest p' = lastSubsDigest p.
Proof.
  intros Hpass. destruct configured_cases as [Hc|Hc];
    [|by rewrite pass_unconfigured in Hpass].
  destruct (updateAll "" (result w)) as [data| |c] eqn:Hall;
    [|by rewrite pass_throws in Hpass|by apply updateAll_no_exit in Hall].
  destruct (decide (lastSubsDigest p = str (md5 data))) as [Hlast|Hlast];
    [by rewrite (pass_unchanged w p data) in Hpass|].
  rewrite (pass_changed w p data) in Hpass by done.
  destruct (upsert_shape w p)
    as (c & made & rest & q & Hrun & Hsplit & Hq & Hkept & Hc').
  rewrite Hrun in Hpass.
  destruct Hc' as [[-> _]|(-> & Hrest & Hmade & Hdb)]; [done|].
  injection Hpass as <- <-. split; [done|]. split; [done|]. split.
  { exists (md5 data). split; [|done]. apply currentSubsDigest_Normal. by exists data. }
  split; [by exists made, rest|]. done.
Qed.

(** X17.  The first pass of a process, [lastSubsDigest] not yet set, with
    both credentials set, every subscription resolved to a uid and no
    statement failing, returns; it has sent the statements of the upsert,
    all of them and in their order, also when there is no subscription;
    the table [subscriber] holds the candidate records of the pass; no
    transaction is left open; and the digest stored is that of the uids
    of the pass joined together. *)
Theorem first_pass_writes (w : Providers) (p : Process) :
  configured →
  lastSubsDigest p = undefined →
  (∀ v, v ∈ resolvedUids w → ∃ uid, v = str uid) →
  (∀ d x, queryThrows w d x = false) →
  ∃ p',
    syncSubscribers w p = (Normal tt, p') ∧
    queries p' = queries p ++ queriesOf (result w) ∧
    subscriber (db p') = result w ∧
    transaction p' = None ∧
    lastSubsDigest p' = str (md5 (String.concat "" (toString <$> resolvedUids w))).
Proof.
  intros Hc Hfirst Hstr Hquiet.
  pose proof (updateAll_concat "" (result w) (result_uids w Hstr)) as Hall.
  simpl in Hall. fold (resolvedUids w) in Hall.
  rewrite (pass_changed w p _ Hc Hall) by (rewrite Hfirst; done).
  destruct (upsert_shape w p)
    as (c & made & rest & q & Hrun & Hsplit & Hq & Hkept & Hc').
  destruct Hc' as [[-> ->]|(-> & Hrest & Hmade & Hdb)].
  - rewrite Hrun. eexists. split; [done|]. simpl.
    rewrite app_nil_r in Hsplit. subst made. split; [done|].
    destruct (upsert_Normal w p q Hrun) as (Hdb & Htx & _).
    rewrite Hdb, foldl_insertRow_subscriber. by split.
  - exfalso. rewrite upsert_queries in Hrun.
    assert (∀ l p0, (forEach (query w) l p0).1 = Normal tt) as Hnormal.
    { induction l as [|x l IH]; intros p0; [done|].
      cbn [forEach]. unfold bind, query at 1. rewrite Hquiet. apply IH. }
    specialize (Hnormal (queriesOf (result w)) p). by rewrite Hrun in Hnormal.
Qed.

(** X18.  The digest is that of the uids joined together: with both
    credentials set, a pass whose uids, joined, give the same string as
    those of the pass that returned before it, returns and leaves the
    database and the whole state of the process as they are, also when
    the uids themselves differ. *)
Theorem same_joined_uids_write_nothing (w1 w2 : Providers) (p p1 : Process) :
  configured →
  syncSubscribers w1 p = (Normal tt, p1) →
  (∀ v, v ∈ resolvedUids w2 → ∃ uid, v = str uid) →
  String.concat "" (toString <$> resolvedUids w1)
  = String.concat "" (toString <$> resolvedUids w2) →
  syncSubscribers w2 p1 = (Normal tt, p1).
Proof.
  intros Hc Hpass Hstr Hjoined.
  destruct (pass_Normal_digest w1 p p1 Hc Hpass) as (data & Hall & Hlast).
  pose proof (updateAll_concat "" (result w1) (updateAll_Normal "" _ _ Hall)) as Hall1.
  pose proof (updateAll_concat "" (result w2) (result_uids w2 Hstr)) as Hall2.
  simpl in Hall1, Hall2. fold (resolvedUids w1) in Hall1.
  fold (resolvedUids w2) in Hall2. rewrite Hall in Hall1. injection Hall1 as ->.
  apply (pass_unchanged w2 p1 _ Hc Hall2). by rewrite <- Hjoined.
Qed.

(** *** The uid of a subscriber *)

Lemma emailMap_other (custs : list Stripe.Customer) (m : gmap string value) key :
  key ∉ Stripe.id <$> custs →
  foldl (fun m cust => <[Stripe.id cust := Stripe.email cust]> m) m custs !! key
  = m !! key.
Proof.
  revert m. induction custs as [|c custs IH]; intros m Hkey; [done|].
  rewrite fmap_cons in Hkey. apply not_elem_of_cons in Hkey as [Hne Hkey].
  simpl. rewrite IH by done. by rewrite lookup_insert_ne.
Qed.

Lemma emailMap_entered (custs : list Stripe.Customer) (m : gmap string value) cust :
  NoDup (Stripe.id <$> custs) → cust ∈ custs →
  foldl (fun m cust => <[Stripe.id cust := Stripe.email cust]> m) m custs
    !! Stripe.id cust
  = Some (Stripe.email cust).
Proof.
  revert m. induction custs as [|c custs IH]; intros m Hnd Hin.
  - by apply not_elem_of_nil in Hin.
  - rewrite fmap_cons in Hnd. apply NoDup_cons in Hnd as [Hc Hnd].
    apply elem_of_cons in Hin as [->|Hin]; simpl.
    + rewrite emailMap_other by done. by rewrite lookup_insert_eq.
    + by apply IH.
Qed.

(** X19.  The provider giving the user of the email it is asked for and
    the ids of the customers being distinct: the candidate record of a
    subscription whose customer has an email, not the empty string, that
    the provider knows, carries that email and the uid of its user. *)
Theorem known_subscriber_resolves (w : Providers) (sub : Stripe.Subscription)
  (cust : Stripe.Customer) (e : string) (u : Firebase.UserRecord) :
  faithful w →
  NoDup (Stripe.id <$> getAllCustomers w) →
  sub ∈ getAllActiveSubscriptions w →
  cust ∈ getAllCustomers w →
  Stripe.customer sub = Stripe.id cust →
  Stripe.email cust = str e →
  e ≠ "" →
  getUserByEmail w e = Some u →
  {| Subscriber.customerId := Stripe.id cust;
     Subscriber.email := str e;
     Subscriber.status := Stripe.status sub;
     Subscriber.uid := str (Firebase.uid u) |} ∈ result w.
Proof.
  intros Hfaithful Hnd Hsub Hcust Hid Hemail Hne Hu.
  assert (emailOf w sub = str e) as He.
  { unfold emailOf, emailMap. rewrite Hid, emailMap_entered by done.
    by rewrite Hemail. }
  pose proof (uidOf_resolved w sub e u Hfaithful Hsub He Hne Hu) as Huid.
  unfold result. apply list_elem_of_fmap. exists sub. split; [|done].
  by rewrite He, Huid, Hid.
Qed.

End Facts.

Lemma failed_upsert_exits_witness :
  let p' := (syncSubscribers (H := plainEnv) commitDown fresh).2 in
  1 = 1 ∧
  configured (H := plainEnv) ∧
  (∃ digest, currentSubsDigest (H := plainEnv) commitDown = Normal digest
             ∧ lastSubsDigest fresh ≠ str digest) ∧
  (∃ made rest,
     queriesOf (result commitDown) = made ++ rest ∧ rest ≠ [] ∧ (COMMIT ∉ made) ∧
     queries p' = queries fresh ++ made) ∧
  db p' = db fresh ∧
  lastSubsDigest p' = lastSubsDigest fresh.
Proof.
  apply (failed_upsert_exits (H := plainEnv) commitDown fresh). reflexivity.
Defined.

Lemma first_pass_writes_witness :
  ∃ p',
    syncSubscribers (H := plainEnv) twoSubscribers fresh = (Normal tt, p') ∧
    queries p' = queries fresh ++ queriesOf (result twoSubscribers) ∧
    subscriber (db p') = result twoSubscribers ∧
    transaction p' = None ∧
    lastSubsDigest p' =
      str (md5 (Env := plainEnv)
             (String.concat "" (toString <$> resolvedUids twoSubscribers))).
Proof.
  apply (first_pass_writes (H := plainEnv) twoSubscribers fresh).
  - split; reflexivity.
  - reflexivity.
  - intros v Hv. vm_compute in Hv.
    apply elem_of_cons in Hv as [->|Hv]; [by eexists|].
    apply list_elem_of_singleton in Hv as ->. by eexists.
  - intros d q. reflexivity.
Defined.

(** The uids [ab] and [c] joined are the uids [a] and [bc] joined. *)
Lemma same_joined_uids_write_nothing_witness :
  let p1 := (syncSubscribers (H := plainEnv) (withUids "ab" "c") fresh).2 in
  syncSubscribers (H := plainEnv) (withUids "a" "bc") p1 = (Normal tt, p1).
Proof.
  apply (same_joined_uids_write_nothing (H := plainEnv)
           (withUids "ab" "c") (withUids "a" "bc") fresh).
  - split; reflexivity.
  - reflexivity.
  - intros v Hv. vm_compute in Hv.
    apply elem_of_cons in Hv as [->|Hv]; [by eexists|].
    apply list_elem_of_singleton in Hv as ->. by eexists.
  - reflexivity.
Defined.

Lemma known_subscriber_resolves_witness :
  {| Subscriber.customerId := "cus_1";
     Subscriber.email := str "ann@example.com";
     Subscriber.status := "active";
     Subscriber.uid := str "uid_ann" |} ∈ result twoSubscribers.
Proof.
  apply (known_subscriber_resolves twoSubscribers
           {| Stripe.customer := "cus_1"; Stripe.status := "active" |}
           {| Stripe.id := "cus_1"; Stripe.email := str "ann@example.com" |}
           "ann@example.com"
           {| Firebase.uid := "uid_ann"; Firebase.email := "ann@example.com" |}).
  - intros e u. unfold twoSubscribers. simpl.
    destruct (String.eqb_spec e "ann@example.com") as [->|_]; [by intros [= <-]|].
    destruct (String.eqb_spec e "bob@example.com") as [->|_]; [by intros [= <-]|].
    done.
  - apply (bool_decide_unpack _). vm_compute. exact I.
  - apply list_elem_of_here.
  - apply list_elem_of_here.
  - reflexivity.
  - reflexivity.
  - discriminate.
  - reflexivity.
Defined.

(** The pass whose [COMMIT] fails ends the process with the code [1],
    four statements sent for the two candidate records. *)
Example commit_down_example :
  let r := syncSubscribers (H := plainEnv) commitDown fresh in
  r.1 = Exit 1 ∧ length (queries r.2) = 7%nat ∧ db r.2 = db fresh
  ∧ lastSubsDigest r.2 = undefined.
Proof. by vm_compute. Qed.

End SyncSubsMore.

(** ** The persistence loop *)

Module PersistSpec.

Import Js JsLaws Server Persist.

Section Facts.

Variable saveRoom : Room → completion Room.
Implicit Types (s : Store) (e : string * Room) (key : string) (room : Room).

Lemma occupied_roster room :
  (length (roster room) =? 0)%nat = false ↔ roster room ≠ [].
Proof. rewrite Nat.eqb_neq. by destruct (roster room). Qed.

(** The visit of a room whose save returns. *)
Lemma saveIfOccupied_ok s key room :
  JsMap.get key (rooms s) = Some room →
  (roster room ≠ [] → ∃ room', saveRoom room = Normal room') →
  saveIfOccupied saveRoom key s =
  (Normal tt,
   if (length (roster room) =? 0)%nat then s
   else {| rooms := JsMap.set key (kept saveRoom room) (rooms s);
           saved := saved s ++ [key] |}).
Proof.
  intros Hget Hsave. unfold saveIfOccupied. rewrite Hget.
  destruct (length (roster room) =? 0)%nat eqn:Hempty; [done|].
  destruct Hsave as [room' Hroom']; [by apply occupied_roster|].
  unfold kept. by rewrite Hroom', Hempty.
Qed.

(** The loop over rooms whose saves return. *)
Lemma forEach_save (arr : list (string * Room)) s :
  NoDup arr.*1 →
  (∀ e, e ∈ arr → JsMap.get e.1 (rooms s) = Some e.2) →
  (∀ e, e ∈ arr → roster e.2 ≠ [] → ∃ room', saveRoom e.2 = Normal room') →
  ∃ s',
    forEach (fun e => saveIfOccupied saveRoom e.1) arr s = (Normal tt, s') ∧
    saved s' = saved s ++ (List.filter occupied arr).*1 ∧
    (rooms s').*1 = (rooms s).*1 ∧
    (∀ key, key ∉ arr.*1 → JsMap.get key (rooms s') = JsMap.get key (rooms s)) ∧
    (∀ e, e ∈ arr → JsMap.get e.1 (rooms s') = Some (kept saveRoom e.2)).
Proof.
  revert s. induction arr as [|[key room] arr IH]; intros s Hnd Hget Hsave.
  - exists s. simpl. unfold ret. rewrite app_nil_r. repeat split; try done.
    by intros e ?%not_elem_of_nil.
  - rewrite fmap_cons in Hnd. apply NoDup_cons in Hnd as [Hkey Hnd].
    assert (JsMap.get key (rooms s) = Some room) as Hroom
      by apply (Hget (key, room)), list_elem_of_here.
    cbn [forEach]. unfold bind. cbn [fst].
    rewrite (saveIfOccupied_ok s key room Hroom)
      by apply (Hsave (key, room)), list_elem_of_here.
    set (s1 := if (length (roster room) =? 0)%nat then s else _).
    assert (∀ k, JsMap.get k (rooms s1) =
                 if String.eqb key k then Some (kept saveRoom room) else JsMap.get k (rooms s))
      as Hget1.
    { intros k. subst s1. destruct (length (roster room) =? 0)%nat eqn:Hempty.
      - destruct (String.eqb_spec key k) as [<-|_]; [|done].
        unfold kept. by rewrite Hroom, Hempty.
      - cbn [rooms]. by rewrite JsMapLaws.get_set. }
    assert ((rooms s1).*1 = (rooms s).*1) as Hkeys1.
    { subst s1. destruct (length (roster room) =? 0)%nat; [done|].
      cbn [rooms]. rewrite JsMapLaws.keys_set.
      assert (JsMap.has key (rooms s) = true) as ->
        by (apply JsMapFacts.has_get; by eexists).
      done. }
    assert (saved s1 = saved s ++ (if (length (roster room) =? 0)%nat then [] else [key]))
      as Hsaved1.
    { subst s1. destruct (length (roster room) =? 0)%nat; [by rewrite app_nil_r | done]. }
    destruct (IH s1 Hnd) as (s' & Hrun & Hsaved & Hkeys & Hother & Hthere).
    + intros e He. rewrite Hget1.
      destruct (String.eqb_spec key e.1) as [Heq|_]; [|by apply Hget, list_elem_of_further].
      exfalso. apply Hkey. cbn [fst]. rewrite Heq. by apply list_elem_of_fmap_2.
    + intros e He. by apply Hsave, list_elem_of_further.
    + exists s'. split; [done|]. split; [|split; [|split]].
      * rewrite Hsaved, Hsaved1, <- app_assoc. f_equal.
        cbn [List.filter]. change (occupied (key, room))
          with (negb (length (roster room) =? 0)%nat).
        by destruct (length (roster room) =? 0)%nat.
      * by rewrite Hkeys.
      * intros k [Hne Hk]%not_elem_of_cons. rewrite Hother, Hget1 by done.
        by destruct (String.eqb_spec key k).
      * intros e [->|He]%elem_of_cons; [|by apply Hthere].
        cbn [fst snd]. rewrite Hother, Hget1 by done. by rewrite String.eqb_refl.
Qed.

(** X20.  A pass of the persistence loop over a registry of distinct
    keys, the saves of its rooms returning, returns; it has saved the
    rooms with somebody in them, each once and in the order of the
    registry, and no room with an empty roster; the keys of the registry
    are as before, a room with an empty roster is as it was, and a room
    with somebody in it is as its save has left it. *)
Theorem savePass_saves_occupied (s : Store) :
  NoDup (rooms s).*1 →
  (∀ e, e ∈ rooms s → roster e.2 ≠ [] → ∃ room', saveRoom e.2 = Normal room') →
  ∃ s',
    savePass saveRoom s = (Normal tt, s') ∧
    saved s' = saved s ++ (List.filter occupied (rooms s)).*1 ∧
    (rooms s').*1 = (rooms s).*1 ∧
    (∀ key room, (key, room) ∈ rooms s →
       (roster room = [] → JsMap.get key (rooms s') = Some room) ∧
       (roster room ≠ [] →
        ∃ room', saveRoom room = Normal room' ∧ JsMap.get key (rooms s') = Some room')).
Proof.
  intros Hnd Hsave. unfold savePass, bind, getState.
  destruct (forEach_save (rooms s) s Hnd) as (s' & Hrun & Hsaved & Hkeys & _ & Hthere).
  - intros [key room] He. by apply JsMapFacts.get_NoDup.
  - done.
  - exists s'. split; [done|]. split; [done|]. split; [done|].
    intros key room Hin. specialize (Hthere _ Hin). cbn [fst snd] in Hthere.
    split.
    + intros Hempty. unfold kept in Hthere. by rewrite Hempty in Hthere.
    + intros Hocc. destruct (Hsave _ Hin Hocc) as [room' Hroom']. exists room'.
      split; [done|]. cbn [snd] in Hroom'. unfold kept in Hthere.
      rewrite Hroom' in Hthere.
      apply occupied_roster in Hocc. by rewrite Hocc in Hthere.
Qed.

(** X21.  The loop of [saveRooms] has no handler: when the save of a room
    with somebody in it throws, the rooms before it in the registry having
    been saved, the loop ends with the exception in that pass, however
    long it would have run; the rooms that come later in the registry are
    not saved, in that pass or after. *)
Theorem saveRooms_ends_at_first_failure (s : Store)
  (before : list (string * Room)) (key : string) (room : Room)
  (after : list (string * Room)) (fuel : nat) :
  NoDup (rooms s).*1 →
  rooms s = before ++ (key, room) :: after →
  (∀ e, e ∈ before → roster e.2 ≠ [] → ∃ room', saveRoom e.2 = Normal room') →
  roster room ≠ [] →
  saveRoom room = Throw →
  ∃ s',
    saveRooms saveRoom (S fuel) s = (Throw, s') ∧
    saved s' = saved s ++ (List.filter occupied before).*1 ∧
    (∀ e, e ∈ after → JsMap.get e.1 (rooms s') = Some e.2).
Proof.
  intros Hnd Hsplit Hsave Hocc Hthrow.
  assert (∀ e, e ∈ rooms s → JsMap.get e.1 (rooms s) = Some e.2) as Hget
    by (intros [k r] He; by apply JsMapFacts.get_NoDup).
  pose proof Hnd as Hnd'. rewrite Hsplit, fmap_app, fmap_cons in Hnd'.
  apply NoDup_app in Hnd' as (Hbefore & Hdisj & Hrest).
  apply NoDup_cons in Hrest as [Hkey Hafter].
  destruct (forEach_save before s Hbefore) as (s1 & Hrun & Hsaved & Hkeys & Hother & _).
  - intros e He. apply Hget. rewrite Hsplit. apply elem_of_app. by left.
  - done.
  - exists s1. cbn [saveRooms]. unfold bind at 1, savePass, bind at 1, getState.
    rewrite Hsplit, forEach_app. unfold bind at 1. rewrite Hrun.
    cbn [forEach]. unfold bind at 1, saveIfOccupied. cbn [fst].
    assert (JsMap.get key (rooms s1) = Some room) as ->.
    { rewrite Hother.
      - apply (Hget (key, room)). rewrite Hsplit. apply elem_of_app. right.
        apply list_elem_of_here.
      - intros Hk. apply (Hdisj _ Hk). apply list_elem_of_here. }
    apply occupied_roster in Hocc. rewrite Hocc, Hthrow.
    split; [done|]. split; [done|].
    intros e He. rewrite Hother.
    + apply Hget. rewrite Hsplit. apply elem_of_app. right.
      by apply list_elem_of_further.
    + intros Hk. apply (Hdisj _ Hk). apply list_elem_of_further.
      by apply list_elem_of_fmap_2.
Qed.

End Facts.

Lemma savePass_saves_occupied_witness :
  let s := {| rooms := [plainRoom "/busy" [viewer]; plainRoom "/idle" []];
              saved := [] |} in
  ∃ s',
    savePass saveReturns s = (Normal tt, s') ∧
    saved s' = saved s ++ (List.filter occupied (rooms s)).*1 ∧
    (rooms s').*1 = (rooms s).*1 ∧
    (∀ key room, (key, room) ∈ rooms s →
       (roster room = [] → JsMap.get key (rooms s') = Some room) ∧
       (roster room ≠ [] →
        ∃ room', saveReturns room = Normal room'
                 ∧ JsMap.get key (rooms s') = Some room')).
Proof.
  intros s. apply (savePass_saves_occupied saveReturns s).
  - apply (bool_decide_unpack _). vm_compute. exact I.
  - intros e _ _. by eexists.
Defined.

Lemma saveRooms_ends_at_first_failure_witness :
  let s := {| rooms := [plainRoom "/a" [viewer]; plainRoom "/b" [viewer];
                        plainRoom "/c" [viewer]];
              saved := [] |} in
  ∃ s',
    saveRooms (saveDown "/b") 5 s = (Throw, s') ∧
    saved s' = saved s ++ (List.filter occupied [plainRoom "/a" [viewer]]).*1 ∧
    (∀ e, e ∈ [plainRoom "/c" [viewer]] → JsMap.get e.1 (rooms s') = Some e.2).
Proof.
  intros s.
  apply (saveRooms_ends_at_first_failure (saveDown "/b") s
           [plainRoom "/a" [viewer]] "/b" (plainRoom "/b" [viewer]).2
           [plainRoom "/c" [viewer]] 4).
  - apply (bool_decide_unpack _). vm_compute. exact I.
  - reflexivity.
  - intros e He _. apply list_elem_of_singleton in He. subst e. by eexists.
  - discriminate.
  - reflexivity.
Defined.

(** Five passes over three rooms, the save of the second failing: the
    first room is saved once and the loop is over. *)
Example saveRooms_example :
  saveRooms (saveDown "/b") 5
    {| rooms := [plainRoom "/a" [viewer]; plainRoom "/b" [viewer];
                 plainRoom "/c" [viewer]];
       saved := [] |} =
  (Throw,
   {| rooms := [plainRoom "/a" [viewer]; plainRoom "/b" [viewer];
                plainRoom "/c" [viewer]];
      saved := ["/a"] |}).
Proof. reflexivity. Qed.

End PersistSpec.
